(** * js_utilities.vanilla.utils: camelize, decamelize and _process_keys

    A shallow embedding of the case-conversion functions of
    [js_utilities/vanilla/utils.py] and of the parts of Python they rest on
    ([str] methods, the [re] module, [dict] insertion), followed by the
    properties of the converters.

    Alphabet.  A Python [str] is a list of code points.  The characters of
    this development are the 128 ASCII characters and seven further code
    points, a set closed under [str.lower], [str.upper] and [str.title]:
    U+00AA (a lowercase character that has no uppercase form), U+00DF (a
    lowercase character whose uppercase form has two characters, [SS], and
    whose titlecase form is [Ss]), U+0130 (an uppercase character whose
    lowercase form has two characters, U+0069 U+0307), U+0307 (a caseless
    combining mark), and U+01C4, U+01C5, U+01C6 (the uppercase, titlecase
    and lowercase forms of one letter).  On these characters every function
    below is CPython's.  The final sigma, uppercase characters without a
    lowercase form, and digits and whitespace outside ASCII are not in the
    alphabet; a statement that is meant for ASCII strings only says so in a
    hypothesis. *)

From Stdlib Require Import Ascii String DecimalString.
From Stdlib Require Import List Bool Arith ZArith Lia.
Import ListNotations.
Import Corelib.Init.Datatypes.
Local Open Scope list_scope.

Set Implicit Arguments.
Set Warnings "-register-all".

(* ================================================================== *)
(** ** Characters and [str] methods *)

Module Str.

Inductive char : Type :=
| Ascii7 (b0 b1 b2 b3 b4 b5 b6 : bool)  (* U+0000..U+007F, low bit first *)
| U00AA    (* FEMININE ORDINAL INDICATOR *)
| U00DF    (* LATIN SMALL LETTER SHARP S *)
| U0130    (* LATIN CAPITAL LETTER I WITH DOT ABOVE *)
| U0307    (* COMBINING DOT ABOVE *)
| U01C4    (* LATIN CAPITAL LETTER DZ WITH CARON *)
| U01C5    (* LATIN CAPITAL LETTER D WITH SMALL LETTER Z WITH CARON *)
| U01C6.   (* LATIN SMALL LETTER DZ WITH CARON *)

Definition str := list char.

(** The ASCII character written as a literal of [ascii]. *)
Definition ch (a : ascii) : char :=
  let 'Ascii b0 b1 b2 b3 b4 b5 b6 _ := a in Ascii7 b0 b1 b2 b3 b4 b5 b6.

(** An ASCII string literal. *)
Definition lit (s : String.string) : str := map ch (String.list_ascii_of_string s).

(** [ord(c)]. *)
Definition code (c : char) : nat :=
  match c with
  | Ascii7 b0 b1 b2 b3 b4 b5 b6 => nat_of_ascii (Ascii b0 b1 b2 b3 b4 b5 b6 false)
  | U00AA => 170
  | U00DF => 223
  | U0130 => 304
  | U0307 => 775
  | U01C4 => 452
  | U01C5 => 453
  | U01C6 => 454
  end.

(** [chr(n)] for [n < 128]. *)
Definition ascii_char (n : nat) : char := ch (ascii_of_nat n).

Definition char_dec (a b : char) : {a = b} + {a <> b}.
Proof. decide equality; apply bool_dec. Defined.

Definition between (lo hi : nat) (c : char) : bool :=
  (lo <=? code c) && (code c <=? hi).

Definition is_ascii (c : char) : bool := code c <? 128.

(** The ranges [A-Z], [a-z] and [0-9]. *)
Definition is_AZ (c : char) : bool := between 65 90 c.
Definition is_az (c : char) : bool := between 97 122 c.

(** [c.isupper()], [c.islower()] for one character, and whether [c] is a
    titlecase character (category Lt). *)
Definition is_upper_char (c : char) : bool :=
  match c with
  | U0130 | U01C4 => true
  | _ => is_AZ c
  end.

Definition is_lower_char (c : char) : bool :=
  match c with
  | U00AA | U00DF | U01C6 => true
  | _ => is_az c
  end.

Definition is_title_char (c : char) : bool :=
  match c with
  | U01C5 => true
  | _ => false
  end.

(** Whether [c] is cased, as [str.title] asks of the previous character. *)
Definition is_cased_char (c : char) : bool :=
  is_upper_char c || is_lower_char c || is_title_char c.

(** [c.isnumeric()] and the regex class [\d]. *)
Definition is_digit_char (c : char) : bool := between 48 57 c.

(** [c.isspace()] and the regex class [\s]: TAB..CR, FS..US and SPACE. *)
Definition is_space_char (c : char) : bool :=
  between 9 13 c || between 28 32 c.

(** The simple case mappings, from one character to one character. *)
Definition lower_char (c : char) : char :=
  match c with
  | U0130 => ch "i"
  | U01C4 | U01C5 => U01C6
  | _ => if is_AZ c then ascii_char (code c + 32) else c
  end.

Definition upper_char (c : char) : char :=
  match c with
  | U01C5 | U01C6 => U01C4
  | _ => if is_az c then ascii_char (code c - 32) else c
  end.

Definition title_char (c : char) : char :=
  match c with
  | U01C4 | U01C5 | U01C6 => U01C5
  | _ => upper_char c
  end.

(** The full case mappings, which [str.lower], [str.upper] and [str.title]
    use: the simple mapping, except that the lowercase form of U+0130 and
    the uppercase and titlecase forms of U+00DF are two characters. *)
Definition lower_full (c : char) : str :=
  match c with
  | U0130 => [ch "i"; U0307]
  | _ => [lower_char c]
  end.

Definition upper_full (c : char) : str :=
  match c with
  | U00DF => [ch "S"; ch "S"]
  | _ => [upper_char c]
  end.

Definition title_full (c : char) : str :=
  match c with
  | U00DF => [ch "S"; ch "s"]
  | _ => [title_char c]
  end.

(** [s.isupper()]: no lowercase and no titlecase character, and at least
    one uppercase character. *)
Definition isupper (s : str) : bool :=
  existsb is_upper_char s
  && negb (existsb (fun c => is_lower_char c || is_title_char c) s).

(** [s.isnumeric()]: not empty and every character numeric. *)
Definition isnumeric (s : str) : bool :=
  negb (Nat.eqb (length s) 0) && forallb is_digit_char s.

(** [s.lower()], [s.upper()]. *)
Definition lower (s : str) : str := flat_map lower_full s.
Definition upper (s : str) : str := flat_map upper_full s.

(** [s.title()]: a character that follows a cased character is lower-cased,
    any other is title-cased. *)
Fixpoint title_from (previous_is_cased : bool) (s : str) : str :=
  match s with
  | [] => []
  | c :: s' =>
      (if previous_is_cased then lower_full c else title_full c)
        ++ title_from (is_cased_char c) s'
  end.

Definition title (s : str) : str := title_from false s.

(** [sep.join(parts)]. *)
Fixpoint join (sep : str) (parts : list str) : str :=
  match parts with
  | [] => []
  | [p] => p
  | p :: rest => p ++ sep ++ join sep rest
  end.

(** [s[:n]]. *)
Definition slice_to (n : nat) (s : str) : str := firstn n s.

Definition is_empty (s : str) : bool :=
  match s with [] => true | _ => false end.

End Str.
Import Str.

(* ================================================================== *)
(** ** Regular expressions: the part of [re] the patterns use

    A backtracking matcher in continuation-passing style, with the priority
    order of CPython's engine: a greedy repetition tries one more iteration
    before it tries to stop, a lazy one the other way round, an alternation
    tries its left branch first.  Capture groups are not represented: the
    code reads [group(0)] only, and the single group of [SPLIT_RE] spans the
    whole pattern. *)

Module Re.

Inductive cls_item : Type :=
| CChar (c : char)               (* a literal character *)
| CRange (lo hi : char)          (* lo-hi *)
| CSpace                         (* \s *)
| CDigit.                        (* \d *)

Definition item_has (c : char) (i : cls_item) : bool :=
  match i with
  | CChar x => Nat.eqb (code x) (code c)
  | CRange lo hi => between (code lo) (code hi) c
  | CSpace => is_space_char c
  | CDigit => is_digit_char c
  end.

(** [[...]] when [neg = false], [[^...]] when [neg = true]. *)
Definition in_class (neg : bool) (items : list cls_item) (c : char) : bool :=
  xorb neg (existsb (item_has c) items).

Inductive regex : Type :=
| Cls (neg : bool) (items : list cls_item)
| Seq (r1 r2 : regex)
| Alt (r1 r2 : regex)                         (* r1|r2 *)
| Star (greedy : bool) (r : regex)            (* r* and r*? *)
| Ahead (r : regex)                           (* (?=r) *)
| Behind (neg : bool) (items : list cls_item) (* (?<=[...]), one character wide *)
| Eol.                                        (* $ without MULTILINE *)

(** [r+] and [r+?]. *)
Definition Plus (greedy : bool) (r : regex) : regex := Seq r (Star greedy r).

Definition orelse {A} (x y : option A) : option A :=
  match x with Some _ => x | None => y end.

(** The loop of a repetition whose body is matched by [body]: an iteration
    that consumes nothing is refused, so the fuel, which starts as the
    length of the input, is never the reason of a failure
    ([star_loop_fuel] below). *)
Fixpoint star_loop (R : Type) (greedy : bool)
    (body : option char -> str -> (option char -> str -> option R) -> option R)
    (k : option char -> str -> option R)
    (fuel : nat) (prev : option char) (s : str) {struct fuel} : option R :=
  let again :=
    match fuel with
    | O => None
    | S fuel' =>
        body prev s
          (fun p s' =>
             if length s' <? length s
             then star_loop greedy body k fuel' p s' else None)
    end in
  if greedy then orelse again (k prev s) else orelse (k prev s) again.

(** [rmatch r prev s k]: match [r] at a position whose preceding character
    is [prev] and whose remaining input is [s]; [k] receives the position
    after the match and decides the rest, [None] makes the matcher
    backtrack. *)
Fixpoint rmatch (r : regex) (R : Type) (prev : option char) (s : str)
    (k : option char -> str -> option R) {struct r} : option R :=
  match r with
  | Cls neg items =>
      match s with
      | c :: s' => if in_class neg items c then k (Some c) s' else None
      | [] => None
      end
  | Seq r1 r2 => rmatch r1 prev s (fun p s' => rmatch r2 p s' k)
  | Alt r1 r2 => orelse (rmatch r1 prev s k) (rmatch r2 prev s k)
  | Star greedy r1 =>
      star_loop greedy (rmatch r1 (R := R)) k (length s) prev s
  | Ahead r1 =>
      match rmatch r1 prev s (fun _ _ => Some tt) with
      | Some _ => k prev s
      | None => None
      end
  | Behind neg items =>
      match prev with
      | Some c => if in_class neg items c then k prev s else None
      | None => None
      end
  | Eol =>
      match s with
      | [] => k prev s
      | [c] => if Nat.eqb (code c) 10 then k prev s else None
      | _ => None
      end
  end.

(** The last character of [m], or [prev] when [m] is empty: the character
    that precedes the position after a match [m]. *)
Definition last_or (prev : option char) (m : str) : option char :=
  match rev m with
  | c :: _ => Some c
  | [] => prev
  end.

(** [pattern.match] at one position: the matched text and the rest of the
    input.  With [must_advance] an empty match is refused, as the engine
    does right after an empty match at the same position. *)
Definition match_at (r : regex) (must_advance : bool)
    (prev : option char) (s : str) : option (str * str) :=
  match rmatch r prev s
          (fun _ rest =>
             if must_advance && Nat.eqb (length rest) (length s)
             then None else Some rest) with
  | Some rest => Some (firstn (length s - length rest) s, rest)
  | None => None
  end.

(** What the successive searches of [sub] and [split] see: the characters
    no match covers, and the matches. *)
Inductive piece : Type :=
| Lit (c : char)
| Hit (m : str).

(** The search loop shared by [pattern.sub] and [pattern.split]: search
    from the current position, take the leftmost match, go on after it.
    The fuel of [scan] is enough for every pattern ([scan_loop_fuel]
    below). *)
Fixpoint scan_loop (fuel : nat) (r : regex) (must_advance : bool)
    (prev : option char) (s : str) : list piece :=
  match fuel with
  | O => map Lit s
  | S fuel' =>
      match match_at r must_advance prev s with
      | Some (m, rest) =>
          Hit m :: (if is_empty m
                    then scan_loop fuel' r true prev s
                    else scan_loop fuel' r false (last_or prev m) rest)
      | None =>
          match s with
          | [] => []
          | c :: s' => Lit c :: scan_loop fuel' r false (Some c) s'
          end
      end
  end.

Definition scan (r : regex) (s : str) : list piece :=
  scan_loop (2 * length s + 2) r false None s.

(** [pattern.sub(repl, s)] with a function [repl] of the matched text
    [m.group(0)]; [repl] may raise, which is [None]. *)
Fixpoint sub_pieces (repl : str -> option str) (ps : list piece) : option str :=
  match ps with
  | [] => Some []
  | Lit c :: ps' =>
      match sub_pieces repl ps' with
      | Some out => Some (c :: out)
      | None => None
      end
  | Hit m :: ps' =>
      match repl m with
      | Some t =>
          match sub_pieces repl ps' with
          | Some out => Some (t ++ out)
          | None => None
          end
      | None => None
      end
  end.

Definition sub (r : regex) (repl : str -> option str) (s : str) : option str :=
  sub_pieces repl (scan r s).

(** [pattern.split(s)] for a pattern that is one capture group: the text
    between the matches and the matches themselves, in order. *)
Fixpoint split_pieces (cur : str) (ps : list piece) : list str :=
  match ps with
  | [] => [rev cur]
  | Lit c :: ps' => split_pieces (c :: cur) ps'
  | Hit m :: ps' => rev cur :: m :: split_pieces [] ps'
  end.

Definition split (r : regex) (s : str) : list str :=
  split_pieces [] (scan r s).

End Re.
Import Re.

(* ================================================================== *)
(** ** Python values *)

Module Py.

(** The values the converters are given: [None], [bool], [int], [str],
    [tuple], [list] and [dict] (any [Mapping]); a [dict] is its items in
    insertion order. *)
Inductive value : Type :=
| VNone
| VBool (b : bool)
| VInt (z : Z)
| VStr (s : str)
| VTuple (l : list value)
| VList (l : list value)
| VDict (items : list (value * value)).

Inductive exn : Type := TypeError | IndexError | ValueError.

Inductive result (A : Type) : Type :=
| Ok (a : A)
| Raise (e : exn).

Arguments Ok {A} a.
Arguments Raise {A} e.

Definition bind {A B} (x : result A) (f : A -> result B) : result B :=
  match x with
  | Ok a => f a
  | Raise e => Raise e
  end.

Notation "x <- c1 ;; c2" := (bind c1 (fun x => c2))
  (at level 61, c1 at next level, right associativity).

(** [bool(v)]. *)
Definition truthy (v : value) : bool :=
  match v with
  | VNone => false
  | VBool b => b
  | VInt z => negb (Z.eqb z 0)
  | VStr s => negb (is_empty s)
  | VTuple l => match l with [] => false | _ => true end
  | VList l => match l with [] => false | _ => true end
  | VDict d => match d with [] => false | _ => true end
  end.

Definition hex_digit (n : nat) : char :=
  if n <? 10 then ascii_char (48 + n) else ascii_char (87 + n).

(** One character of [repr] of a [str] quoted with [quote]; every
    character of the alphabet from U+0080 on is printable. *)
Definition repr_char (quote c : char) : str :=
  let n := code c in
  if Nat.eqb n (code quote) || Nat.eqb n 92 then [ascii_char 92; c]
  else if Nat.eqb n 9 then lit "\t"
  else if Nat.eqb n 10 then lit "\n"
  else if Nat.eqb n 13 then lit "\r"
  else if (n <? 32) || Nat.eqb n 127
       then lit "\x" ++ [hex_digit (n / 16); hex_digit (n mod 16)]
  else [c].

(** [repr(s)] of a [str]: single quotes, unless [s] has a single quote and
    no double quote. *)
Definition repr_str (s : str) : str :=
  let has q := existsb (fun c => Nat.eqb (code c) q) s in
  let quote := if has 39 && negb (has 34) then ascii_char 34
               else ascii_char 39 in
  quote :: flat_map (repr_char quote) s ++ [quote].

(** The default of [sys.get_int_max_str_digits()]. *)
Definition max_str_digits : nat := 4300.

(** [repr(z)] of an [int]: [ValueError] when [z] has more decimal digits
    than [max_str_digits]. *)
Definition repr_int (z : Z) : result str :=
  let s := lit (DecimalString.NilZero.string_of_int (Z.to_int z)) in
  let digits := if (z <? 0)%Z then length s - 1 else length s in
  if max_str_digits <? digits then Raise ValueError else Ok s.

(** [repr(v)]. *)
Fixpoint py_repr (v : value) : result str :=
  match v with
  | VNone => Ok (lit "None")
  | VBool true => Ok (lit "True")
  | VBool false => Ok (lit "False")
  | VInt z => repr_int z
  | VStr s => Ok (repr_str s)
  | VTuple l =>
      parts <- (fix each (l : list value) : result (list str) :=
                  match l with
                  | [] => Ok []
                  | x :: rest =>
                      p <- py_repr x ;;
                      ps <- each rest ;;
                      Ok (p :: ps)
                  end) l ;;
      Ok (match parts with
          | [p] => lit "(" ++ p ++ lit ",)"
          | _ => lit "(" ++ join (lit ", ") parts ++ lit ")"
          end)
  | VList l =>
      parts <- (fix each (l : list value) : result (list str) :=
                  match l with
                  | [] => Ok []
                  | x :: rest =>
                      p <- py_repr x ;;
                      ps <- each rest ;;
                      Ok (p :: ps)
                  end) l ;;
      Ok (lit "[" ++ join (lit ", ") parts ++ lit "]")
  | VDict d =>
      parts <- (fix each (d : list (value * value)) : result (list str) :=
                  match d with
                  | [] => Ok []
                  | (k, x) :: rest =>
                      pk <- py_repr k ;;
                      px <- py_repr x ;;
                      ps <- each rest ;;
                      Ok ((pk ++ lit ": " ++ px) :: ps)
                  end) d ;;
      Ok (lit "{" ++ join (lit ", ") parts ++ lit "}")
  end.

(** [str(v)]. *)
Definition py_str (v : value) : result str :=
  match v with
  | VStr s => Ok s
  | _ => py_repr v
  end.

(** [isinstance(v, (list, Mapping))]. *)
Definition is_list_or_mapping (v : value) : bool :=
  match v with
  | VList _ | VDict _ => true
  | _ => false
  end.

Definition is_str (v : value) : bool :=
  match v with VStr _ => true | _ => false end.

(** Whether [hash(v)] succeeds. *)
Fixpoint hashable (v : value) : bool :=
  match v with
  | VNone | VBool _ | VInt _ | VStr _ => true
  | VTuple l => forallb hashable l
  | VList _ | VDict _ => false
  end.

(** The number a [bool] or an [int] stands for. *)
Definition as_number (v : value) : option Z :=
  match v with
  | VBool b => Some (if b then 1%Z else 0%Z)
  | VInt z => Some z
  | _ => None
  end.

Definition str_eqb (a b : str) : bool :=
  if list_eq_dec char_dec a b then true else false.

(** [a == b] on hashable values, the equality of [dict] keys: [True == 1],
    [False == 0], tuples compare element by element. *)
Fixpoint key_eqb (a b : value) {struct a} : bool :=
  match a, b with
  | VNone, VNone => true
  | VStr s, VStr t => str_eqb s t
  | VTuple l, VTuple m =>
      (fix all2 (l m : list value) {struct l} : bool :=
         match l, m with
         | [], [] => true
         | x :: l', y :: m' => key_eqb x y && all2 l' m'
         | _, _ => false
         end) l m
  | (VBool _ | VInt _), (VBool _ | VInt _) =>
      match as_number a, as_number b with
      | Some x, Some y => Z.eqb x y
      | _, _ => false
      end
  | _, _ => false
  end.

(** [d[k] = x] on the items of a [dict]: a key already present keeps its
    place and its first spelling and takes the new value; a new key is
    appended. *)
Fixpoint dict_setitem (d : list (value * value)) (k x : value)
    : list (value * value) :=
  match d with
  | [] => [(k, x)]
  | (k0, x0) :: d' =>
      if key_eqb k0 k then (k0, x) :: d'
      else (k0, x0) :: dict_setitem d' k x
  end.

(** [d.get(k)]. *)
Fixpoint dict_get (d : list (value * value)) (k : value) : option value :=
  match d with
  | [] => None
  | (k0, x0) :: d' => if key_eqb k0 k then Some x0 else dict_get d' k
  end.

End Py.
Import Py.

(* ================================================================== *)
(** ** The tokenizer rules and the converters *)

Definition delimiters : list cls_item :=
  [CChar (ch "-"); CChar (ch "_"); CSpace].

Definition upper_AZ : list cls_item := [CRange (ch "A") (ch "Z")].

(** [ACRONYM_RE = ([A-Z]+)$|([A-Z]+)(?=[A-Z\d])] *)
Definition ACRONYM_RE : regex :=
  Alt (Seq (Plus true (Cls false upper_AZ)) Eol)
      (Seq (Plus true (Cls false upper_AZ))
           (Ahead (Cls false (upper_AZ ++ [CDigit])))).

(** [PASCAL_RE = ([^\-_\s]+)] *)
Definition PASCAL_RE : regex := Plus true (Cls true delimiters).

(** [SPLIT_RE = ( [\-_\s]* [A-Z]+? [^A-Z\-_\s]* [\-_\s]* )], written here
    with spaces between its parts. *)
Definition SPLIT_RE : regex :=
  Seq (Star true (Cls false delimiters))
      (Seq (Plus false (Cls false upper_AZ))
           (Seq (Star true (Cls true (upper_AZ ++ delimiters)))
                (Star true (Cls false delimiters)))).

(** [UNDERSCORE_RE = (?<=[^\-_\s])[\-_\s]+[^\-_\s]] *)
Definition UNDERSCORE_RE : regex :=
  Seq (Behind true delimiters)
      (Seq (Plus true (Cls false delimiters)) (Cls true delimiters)).

(** [lambda m: m.group(0)[-1].upper()]; indexing an empty match raises. *)
Definition upper_last (m : str) : option str :=
  match rev m with
  | c :: _ => Some (upper [c])
  | [] => None
  end.

(** [lambda m: m.group(0).title()] *)
Definition title_match (m : str) : option str := Some (title m).

(** [s[0].lower() + s[1:]], for a string that is not empty. *)
Definition lower_first (s : str) : str :=
  match s with
  | c :: s' => lower [c] ++ s'
  | [] => []
  end.

(** [str(str_or_iter if str_or_iter else '')] *)
Definition str_or_empty (str_or_iter : value) : result str :=
  py_str (if truthy str_or_iter then str_or_iter else VStr []).

Definition of_sub (r : option str) : result value :=
  match r with
  | Some out => Ok (VStr out)
  | None => Raise IndexError
  end.

(** The body of [camelize] below its [isinstance] test. *)
Definition camelize_str (str_or_iter : value) : result value :=
  s <- str_or_empty str_or_iter ;;
  if isupper s || isnumeric s then Ok str_or_iter
  else
    let s :=
      if negb (Nat.eqb (length s) 0) && negb (isupper (slice_to 2 s))
      then lower_first s else s in
    of_sub (Re.sub UNDERSCORE_RE upper_last s).

(** The body of [decamelize] below its [isinstance] test. *)
Definition decamelize_str (str_or_iter : value) : result value :=
  s <- str_or_empty str_or_iter ;;
  if isupper s || isnumeric s then Ok str_or_iter
  else
    match Re.sub ACRONYM_RE title_match s with
    | Some fixed_abbr =>
        Ok (VStr (lower (join (lit "_")
                    (filter (fun s => negb (is_empty s))
                            (Re.split SPLIT_RE fixed_abbr)))))
    | None => Raise IndexError
    end.

Section ProcessKeys.

Variable fn : value -> result value.

(** [_process_keys(str_or_iter, fn)].  The comprehension of the mapping
    case evaluates [fn(k)], then the walked value, then stores the pair,
    which raises [TypeError] when the new key cannot be hashed. *)
Fixpoint _process_keys (str_or_iter : value) : result value :=
  match str_or_iter with
  | VList l =>
      l' <- (fix each (l : list value) : result (list value) :=
               match l with
               | [] => Ok []
               | k :: rest =>
                   k' <- _process_keys k ;;
                   rest' <- each rest ;;
                   Ok (k' :: rest')
               end) l ;;
      Ok (VList l')
  | VDict items =>
      d <- (fix each (items acc : list (value * value))
              : result (list (value * value)) :=
              match items with
              | [] => Ok acc
              | (k, v) :: rest =>
                  k' <- fn k ;;
                  v' <- _process_keys v ;;
                  if hashable k' then each rest (dict_setitem acc k' v')
                  else Raise TypeError
              end) items [] ;;
      Ok (VDict d)
  | _ => Ok str_or_iter
  end.

End ProcessKeys.

Fixpoint camelize (str_or_iter : value) : result value :=
  match str_or_iter with
  | VList _ | VDict _ => _process_keys camelize str_or_iter
  | _ => camelize_str str_or_iter
  end.

Fixpoint decamelize (str_or_iter : value) : result value :=
  match str_or_iter with
  | VList _ | VDict _ => _process_keys decamelize str_or_iter
  | _ => decamelize_str str_or_iter
  end.


(* ================================================================== *)
(** ** Auxiliary definitions for the statements *)

(** The delimiter class [[\-_\s]] of the patterns. *)
Definition is_delim (c : char) : bool := in_class false delimiters c.

(** A string of ASCII characters. *)
Definition ascii_only (s : str) : bool := forallb is_ascii s.

(** Whether [str(v if v else '')] returns. *)
Definition str_defined (v : value) : bool :=
  match str_or_empty v with
  | Ok _ => true
  | Raise _ => false
  end.

(** The early-out test of both converters, on the text of the argument. *)
Definition early_out (v : value) : bool :=
  match str_or_empty v with
  | Ok s => isupper s || isnumeric s
  | Raise _ => false
  end.

(** What [UNDERSCORE_RE.sub] computes, read off the pattern: after a
    character that is not a delimiter, a run of delimiters followed by a
    character [c] is replaced by [c] upper-cased; a run that reaches the end
    of the string stays.  [pending] is the run read so far. *)
Fixpoint camel_tail (pending s : str) : str :=
  match s with
  | [] => pending
  | c :: s' =>
      if is_delim c then camel_tail (pending ++ [c]) s'
      else (if is_empty pending then [c] else upper_full c)
             ++ camel_tail [] s'
  end.

(** Before the first character that is not a delimiter nothing matches. *)
Fixpoint camel_head (s : str) : str :=
  match s with
  | [] => []
  | c :: s' => if is_delim c then c :: camel_head s' else c :: camel_tail [] s'
  end.

(** Whether the scan stands behind a delimiter or at the start. *)
Definition blocked (prev : option char) : bool :=
  match prev with
  | Some p => is_delim p
  | None => true
  end.

(** The longest prefix of delimiters, and what follows it. *)
Fixpoint skip_delims (s : str) : str :=
  match s with
  | c :: s' => if is_delim c then skip_delims s' else s
  | [] => []
  end.

Fixpoint take_delims (s : str) : str :=
  match s with
  | c :: s' => if is_delim c then c :: take_delims s' else []
  | [] => []
  end.

(** The longest suffix of delimiters. *)
Fixpoint trail_of (s : str) : str :=
  match s with
  | [] => []
  | c :: s' => if forallb is_delim s then s else trail_of s'
  end.

(** The characters of [s] that are not delimiters, each one that follows a
    delimiter upper-cased; [after_run] tells whether a delimiter precedes
    [s]. *)
Fixpoint humps (after_run : bool) (s : str) : str :=
  match s with
  | [] => []
  | c :: s' =>
      if is_delim c then humps true s'
      else (if after_run then upper_full c else [c]) ++ humps false s'
  end.

(** A greedy repetition of one character class, as a recursion on the
    input: go on while the class holds, fall back to [k] from the longest
    run to the shortest. *)
Fixpoint greedy_run (p : char -> bool) (R : Type) (prev : option char)
    (s : str) (k : option char -> str -> option R) : option R :=
  match s with
  | c :: s' =>
      if p c then orelse (greedy_run p (Some c) s' k) (k prev s)
      else k prev s
  | [] => k prev s
  end.

(** [mapM] of the error monad: the list comprehension of the walker. *)
Fixpoint mapM (A B : Type) (f : A -> result B) (l : list A) : result (list B) :=
  match l with
  | [] => Ok []
  | x :: rest =>
      x' <- f x ;;
      rest' <- mapM f rest ;;
      Ok (x' :: rest')
  end.

(** The dict comprehension of the walker, from the items already stored. *)
Fixpoint store_items (fn : value -> result value)
    (items acc : list (value * value)) : result (list (value * value)) :=
  match items with
  | [] => Ok acc
  | (k, v) :: rest =>
      k' <- fn k ;;
      v' <- _process_keys fn v ;;
      if hashable k' then store_items fn rest (dict_setitem acc k' v')
      else Raise TypeError
  end.

(** A key Python can store and the converters can read: [hash(k)] and
    [str(k)] return. *)
Definition key_ok (k : value) : bool := hashable k && str_defined k.

(** Inputs on which the walker meets such keys only, in every mapping it
    reaches. *)
Fixpoint well_formed (v : value) : bool :=
  match v with
  | VList l => forallb well_formed l
  | VDict d =>
      forallb (fun kv => let '(k, x) := kv in key_ok k && well_formed x) d
  | _ => true
  end.

(** The keys of a [dict] are pairwise different. *)
Fixpoint unique_keys (ks : list value) : bool :=
  match ks with
  | [] => true
  | k :: rest => forallb (fun k' => negb (key_eqb k k')) rest && unique_keys rest
  end.

(** The items after conversion, before they are stored one by one. *)
Definition converted (fn : value -> result value)
    (d cs : list (value * value)) : Prop :=
  Forall2 (fun kv kv' => fn (fst kv) = Ok (fst kv')
                         /\ _process_keys fn (snd kv) = Ok (snd kv')) d cs.

(** The string [camelize] hands to [UNDERSCORE_RE.sub]. *)
Definition camel_prepare (s : str) : str :=
  if negb (Nat.eqb (length s) 0) && negb (isupper (slice_to 2 s))
  then lower_first s else s.

Definition no_delim (s : str) : bool := forallb (fun c => negb (is_delim c)) s.

(** Not in [A-Z]. *)
Definition not_upper (c : char) : bool := negb (is_AZ c).

(** Neither uppercase nor titlecase: [str.lower] leaves it as it is. *)
Definition lowered (c : char) : bool :=
  negb (is_upper_char c) && negb (is_title_char c).

Definition non_empty (s : str) : bool := negb (is_empty s).

(** [acc[k] = x] for one converted item. *)
Definition store_one (acc : list (value * value)) (kv : value * value)
    : list (value * value) :=
  dict_setitem acc (fst kv) (snd kv).

(** No key of [acc] equals [k]. *)
Definition fresh_for (acc : list (value * value)) (k : value) : bool :=
  forallb (fun kv => negb (key_eqb (fst kv) k)) acc.

(** Storing the converted items one by one, from the empty [dict]. *)
Definition store_all (cs : list (value * value)) : list (value * value) :=
  fold_left store_one cs [].

Definition wf_items (d : list (value * value)) : bool :=
  forallb (fun kv => let '(k, x) := kv in key_ok k && well_formed x) d.

(** The test [s[:2].isupper()] of [camelize] spelled out on the first two
    characters of a string of two characters or more: one of them is
    uppercase and none is lowercase or titlecase. *)
Definition keeps_first (s : str) : bool :=
  match s with
  | a :: b :: _ =>
      (is_upper_char a || is_upper_char b)
      && negb (is_lower_char a || is_title_char a)
      && negb (is_lower_char b || is_title_char b)
  | _ => false
  end.

Definition is_scalar (v : value) : bool := negb (is_list_or_mapping v).

(** How the walker turns the mapping [d] into [d']: the items are converted
    and stored in order; when the converted keys are pairwise different the
    result is the converted items, and values that are not containers are the
    values of [d]. *)
Definition walked_mapping (fn : value -> result value)
    (d d' : list (value * value)) : Prop :=
  exists cs,
    converted fn d cs /\ d' = store_all cs
    /\ (unique_keys (map fst cs) = true ->
        d' = cs
        /\ (forallb is_scalar (map snd d) = true -> map snd d' = map snd d)).

(** No other item of the mapping has a key that [fn] turns into [k']. *)
Definition converts_alone (fn : value -> result value)
    (others : list (value * value)) (k' : value) : Prop :=
  forall kv, In kv others -> fn (fst kv) <> Ok k'.

(** Text of the pieces of a scan. *)
Definition spelled (ps : list piece) : str :=
  flat_map (fun p => match p with Lit c => [c] | Hit m => m end) ps.

(** The number of iterations the search loop may still need. *)
Definition scan_measure (must_advance : bool) (s : str) : nat :=
  2 * length s + (if must_advance then 0 else 1).

(** The characters of [s] that are not delimiters. *)
Definition letters (s : str) : str :=
  filter (fun c => negb (is_delim c)) s.

(** Whether [s] starts with a letter of [A-Z]. *)
Definition starts_upper (s : str) : bool :=
  match s with
  | c :: _ => is_AZ c
  | [] => false
  end.

(** A letter of [a-z] or a digit. *)
Definition is_low (c : char) : bool := is_az c || is_digit_char c.

(** A word of an identifier: a letter of [a-z], then letters of [a-z] and
    digits. *)
Definition is_word (w : str) : bool :=
  match w with
  | c :: t => is_az c && forallb is_low t
  | [] => false
  end.

(** A word of two characters or more. *)
Definition is_long_word (w : str) : bool := is_word w && (1 <? length w).

Definition capitalize (w : str) : str :=
  match w with
  | c :: t => upper_char c :: t
  | [] => []
  end.

(** The words joined with underscores, [first_second_third]. *)
Definition snake_of (w1 : str) (ws : list str) : str :=
  join (lit "_") (w1 :: ws).

(** The words joined as humps, [firstSecondThird]. *)
Definition camel_of (w1 : str) (ws : list str) : str :=
  w1 ++ concat (map capitalize ws).

(** No two letters of [A-Z] stand side by side. *)
Fixpoint spaced (s : str) : bool :=
  match s with
  | a :: s' =>
      match s' with
      | b :: _ => negb (is_AZ a && is_AZ b) && spaced s'
      | [] => true
      end
  | [] => true
  end.

(** [s] is empty or starts with a letter of [A-Z]. *)
Definition stops (s : str) : bool :=
  match s with
  | c :: _ => is_AZ c
  | [] => true
  end.

(** The matches among the pieces all satisfy [good]. *)
Definition hits_are (good : str -> Prop) (ps : list piece) : Prop :=
  Forall (fun p => match p with Hit m => good m | Lit _ => True end) ps.

(** The text of [v] is defined and ASCII. *)
Definition ascii_text (v : value) : bool :=
  match str_or_empty v with
  | Ok s => ascii_only s
  | Raise _ => false
  end.

(** Every mapping the walker reaches has keys that can be hashed and whose
    text is ASCII. *)
Fixpoint ascii_keys (v : value) : bool :=
  match v with
  | VList l => forallb ascii_keys l
  | VDict d =>
      forallb (fun kv => let '(k, x) := kv in
                         hashable k && ascii_text k && ascii_keys x) d
  | _ => true
  end.

(* ------------------------------------------------------------------ *)
(** The templating helpers of [vanilla/utils.py] and the functions of
    [react/utils.py] that build on them.  A replacement field [{val}] of an
    f-string is [py_str val]. *)

Module Js.

(** [add_curls(val)]: [f'{{{val}}}'] *)
Definition add_curls (val : value) : result str :=
  s <- py_str val ;; Ok (lit "{" ++ s ++ lit "}").

(** [add_state(val)]: [f"state{f'.{val}' if val else val}"] *)
Definition add_state (val : value) : result str :=
  s <- py_str val ;;
  Ok (lit "state" ++ (if truthy val then lit "." ++ s else s)).

(** [add_props(val)]: [f"props{f'.{val}' if val else val}"] *)
Definition add_props (val : value) : result str :=
  s <- py_str val ;;
  Ok (lit "props" ++ (if truthy val then lit "." ++ s else s)).

(** [add_this(val)]: [f'this.{val}'] *)
Definition add_this (val : value) : result str :=
  s <- py_str val ;; Ok (lit "this." ++ s).

(** [add_class_props(val)]: [add_this(add_props(val))] *)
Definition add_class_props (val : value) : result str :=
  p <- add_props val ;; add_this (VStr p).

(** [add_class_state(val)]: [add_this(add_state(val))] *)
Definition add_class_state (val : value) : result str :=
  p <- add_state val ;; add_this (VStr p).

(** [str.split(sep)] for a separator of one character: [cur] is the piece
    read so far, in reverse. *)
Fixpoint split_on (sep : char) (cur s : str) : list str :=
  match s with
  | [] => [rev cur]
  | c :: s' =>
      if Nat.eqb (code c) (code sep) then rev cur :: split_on sep [] s'
      else split_on sep (c :: cur) s'
  end.

Inductive react_exn : Type :=
| Converter (e : exn)       (* raised inside [camelize] *)
| AttributeError            (* [.title()] of a value that is no [str] *)
| UnpackError.              (* [action, *hook = []] *)

(** [react_function()], with the name of the calling function, which the
    code reads from [stack()[1][3]], as its argument [caller]. *)
Definition react_function (caller : str) : react_exn + str :=
  match split_on (ch "_") [] caller with
  | action :: hook =>
      let hook := if 1 <? length hook then map title hook else hook in
      match camelize (VStr (concat hook)) with
      | Ok (VStr hook) =>
          inr (lit "React." ++ action ++ title hook ++ lit "()")
      | Ok _ => inl AttributeError
      | Raise e => inl (Converter e)
      end
  | [] => inl UnpackError
  end.

(** [class_declaration(name, react_type)] *)
Definition class_declaration (name react_type : str) : str :=
  let name := if is_empty (title name) then title name else name in
  lit "export class " ++ name ++ lit " extends React." ++ title react_type.

(** A character of the name of a Python function written in ASCII: no
    hyphen and no whitespace; underscores are allowed. *)
Definition name_char (c : char) : bool :=
  is_ascii c && (negb (is_delim c) || Nat.eqb (code c) (code (ch "_"))).

End Js.
Import Js.

(* ================================================================== *)
(** ** Characters *)

(** Case analysis on the test of a conditional of the goal. *)
Ltac split_if :=
  match goal with
  | |- context [if ?b then _ else _] => destruct b
  end.

(** Every one of the 135 characters, by computation. *)
Ltac all_chars c :=
  destruct c as [[] [] [] [] [] [] [] | | | | | | |]; vm_compute;
  try reflexivity; try congruence; try (intros; discriminate);
  intuition congruence.

Lemma lower_char_not_upper c : is_AZ (lower_char c) = false.
Proof. all_chars c. Qed.

Lemma upper_char_not_lower c : is_az (upper_char c) = false.
Proof. all_chars c. Qed.

Lemma upper_not_lower c : is_AZ c = true -> is_az c = false.
Proof. all_chars c. Qed.

Lemma upper_not_delim c : is_AZ c = true -> is_delim c = false.
Proof. all_chars c. Qed.

Lemma lower_not_delim c : is_az c = true -> is_delim c = false.
Proof. all_chars c. Qed.

Lemma delim_upper_char c : is_delim (upper_char c) = is_delim c.
Proof. all_chars c. Qed.

Lemma upper_full_no_delim c :
  is_delim c = false -> no_delim (upper_full c) = true.
Proof. all_chars c. Qed.

Lemma ascii_upper_full c : is_ascii c = true -> upper_full c = [upper_char c].
Proof. all_chars c. Qed.

Lemma ascii_title_full c : is_ascii c = true -> title_full c = [upper_char c].
Proof. all_chars c. Qed.

Lemma delim_lower_char c : is_delim (lower_char c) = is_delim c.
Proof. all_chars c. Qed.

Lemma class_delims c : in_class false delimiters c = is_delim c.
Proof. reflexivity. Qed.

Lemma class_not_delims c : in_class true delimiters c = negb (is_delim c).
Proof. reflexivity. Qed.

Lemma class_upper c : in_class false upper_AZ c = is_AZ c.
Proof. all_chars c. Qed.

(** *** ASCII characters: the letters are [A-Z] and [a-z] *)

Lemma ascii_upper c : is_ascii c = true -> is_upper_char c = is_AZ c.
Proof. all_chars c. Qed.

Lemma ascii_lower c : is_ascii c = true -> is_lower_char c = is_az c.
Proof. all_chars c. Qed.

Lemma ascii_title c : is_ascii c = true -> is_title_char c = false.
Proof. all_chars c. Qed.

Lemma ascii_lower_full c : is_ascii c = true -> lower_full c = [lower_char c].
Proof. all_chars c. Qed.

Lemma ascii_lower_char c : is_ascii c = true -> is_ascii (lower_char c) = true.
Proof. all_chars c. Qed.

Lemma ascii_upper_char c : is_ascii c = true -> is_ascii (upper_char c) = true.
Proof. all_chars c. Qed.

Lemma ascii_title_char c : is_ascii c = true -> title_char c = upper_char c.
Proof. all_chars c. Qed.

Lemma AZ_upper c : is_AZ c = true -> is_upper_char c = true.
Proof. all_chars c. Qed.

Lemma az_lower c : is_az c = true -> is_lower_char c = true.
Proof. all_chars c. Qed.

Lemma AZ_ascii c : is_AZ c = true -> is_ascii c = true.
Proof. all_chars c. Qed.

Lemma az_ascii c : is_az c = true -> is_ascii c = true.
Proof. all_chars c. Qed.

Lemma digit_ascii c : is_digit_char c = true -> is_ascii c = true.
Proof. all_chars c. Qed.

Lemma delim_ascii c : is_delim c = true -> is_ascii c = true.
Proof. all_chars c. Qed.

(** *** The case of a character, for [str.isupper] and [str.lower] *)

Lemma upper_not_low_title c :
  is_upper_char c = true -> is_lower_char c || is_title_char c = false.
Proof. all_chars c. Qed.

Lemma delim_not_cased c : is_delim c = true -> is_cased_char c = false.
Proof. all_chars c. Qed.

Lemma lowered_fixed c : lowered c = true -> lower_full c = [c].
Proof. all_chars c. Qed.

Lemma lower_full_lowered c : forallb lowered (lower_full c) = true.
Proof. all_chars c. Qed.

Lemma lowered_not_upper c : lowered c = true -> not_upper c = true.
Proof. all_chars c. Qed.

Lemma delim_lowered c : is_delim c = true -> lowered c = true.
Proof. all_chars c. Qed.

Lemma lower_full_no_delim c :
  is_delim c = false -> no_delim (lower_full c) = true.
Proof. all_chars c. Qed.

Lemma lower_full_not_nil c : lower_full c <> [].
Proof. destruct c; discriminate. Qed.

Lemma lower_full_length c : 1 <= length (lower_full c).
Proof. destruct c; cbn; lia. Qed.

(* ================================================================== *)
(** ** The matcher on the patterns of the module *)

Lemma star_loop_greedy_cls R neg items (k : option char -> str -> option R) :
  forall fuel prev s, length s <= fuel ->
    star_loop true (rmatch (Cls neg items) (R := R)) k fuel prev s
    = greedy_run (in_class neg items) prev s k.
Proof.
  induction fuel as [|fuel IH]; intros prev s Hlen.
  - destruct s; [reflexivity | simpl in Hlen; lia].
  - destruct s as [|c s]; [reflexivity|].
    cbn [star_loop rmatch greedy_run].
    destruct (in_class neg items c); [|reflexivity].
    assert (Hlt : (length s <? length (c :: s)) = true)
      by (apply Nat.ltb_lt; simpl; lia).
    rewrite Hlt, IH by (simpl in Hlen; lia).
    reflexivity.
Qed.

Lemma rmatch_star_cls R neg items prev s (k : option char -> str -> option R) :
  rmatch (Star true (Cls neg items)) prev s k
  = greedy_run (in_class neg items) prev s k.
Proof. cbn [rmatch]. apply star_loop_greedy_cls. lia. Qed.

(** *** The matcher looks forward only, and its fuel is enough *)

Lemma last_or_app prev a b : last_or prev (a ++ b) = last_or (last_or prev a) b.
Proof.
  unfold last_or. rewrite rev_app_distr.
  destruct (rev b); [rewrite app_nil_l|]; reflexivity.
Qed.

(** A continuation is only called on a suffix of the input, with the
    character that precedes that suffix. *)
Lemma rmatch_suffix r :
  forall R prev s (k : option char -> str -> option R) out,
    rmatch r prev s k = Some out ->
    exists pre s', s = pre ++ s' /\ k (last_or prev pre) s' = Some out.
Proof.
  induction r as [neg items | r1 IH1 r2 IH2 | r1 IH1 r2 IH2 | g r1 IH1
                 | r1 IH1 | neg items | ]; intros R prev s k out H;
    cbn [rmatch] in H.
  - destruct s as [|c s]; [discriminate|].
    destruct (in_class neg items c); [|discriminate].
    exists [c], s. split; [reflexivity | exact H].
  - apply IH1 in H as (pre1 & s1 & -> & H).
    apply IH2 in H as (pre2 & s2 & -> & H).
    exists (pre1 ++ pre2), s2. rewrite last_or_app, app_assoc. auto.
  - destruct (rmatch r1 prev s k) eqn:E1; cbn [orelse] in H.
    + injection H as <-. exact (IH1 _ _ _ _ _ E1).
    + exact (IH2 _ _ _ _ _ H).
  - revert H. generalize (length s) as fuel. intros fuel. revert prev s.
    induction fuel as [|fuel IHf]; intros prev s H; cbn [star_loop] in H.
    + destruct g; cbn [orelse] in H.
      * exists [], s. auto.
      * destruct (k prev s) eqn:Ek; [|discriminate].
        exists [], s. rewrite <- H. auto.
    + assert (Hagain :
        rmatch r1 prev s
          (fun p s' => if length s' <? length s
                       then star_loop g (rmatch r1 (R := R)) k fuel p s'
                       else None) = Some out ->
        exists pre s', s = pre ++ s' /\ k (last_or prev pre) s' = Some out).
      { intros E. apply IH1 in E as (pre1 & s1 & -> & E).
        destruct (length s1 <? length (pre1 ++ s1)); [|discriminate].
        apply IHf in E as (pre2 & s2 & -> & E).
        exists (pre1 ++ pre2), s2. rewrite last_or_app, app_assoc. auto. }
      destruct g; cbn [orelse] in H.
      * match type of H with
        | orelse ?a _ = _ => destruct a eqn:Ea; cbn [orelse] in H
        end.
        -- injection H as <-. exact (Hagain eq_refl).
        -- exists [], s. auto.
      * destruct (k prev s) eqn:Ek; cbn [orelse] in H.
        -- exists [], s. rewrite <- H. auto.
        -- exact (Hagain H).
  - destruct (rmatch r1 prev s (fun _ _ => Some tt)); [|discriminate].
    exists [], s. auto.
  - destruct prev as [c|]; [|discriminate].
    destruct (in_class neg items c); [|discriminate].
    exists [], s. auto.
  - destruct s as [|c [|c' s]]; [| |discriminate].
    + exists [], []. auto.
    + destruct (Nat.eqb (code c) 10); [|discriminate]. exists [], [c]. auto.
Qed.

Lemma rmatch_none r R prev s :
  rmatch r prev s (fun _ _ => @None R) = None.
Proof.
  destruct (rmatch r prev s (fun _ _ => None)) eqn:E; [|reflexivity].
  apply rmatch_suffix in E as (? & ? & _ & E). discriminate.
Qed.

(** The result depends on the continuation at suffixes only. *)
Lemma rmatch_ext r :
  forall R prev s (k1 k2 : option char -> str -> option R),
    (forall p s', length s' <= length s -> k1 p s' = k2 p s') ->
    rmatch r prev s k1 = rmatch r prev s k2.
Proof.
  induction r as [neg items | r1 IH1 r2 IH2 | r1 IH1 r2 IH2 | g r1 IH1
                 | r1 IH1 | neg items | ]; intros R prev s k1 k2 H;
    cbn [rmatch].
  - destruct s as [|c s]; [reflexivity|].
    destruct (in_class neg items c); [|reflexivity].
    apply H. simpl. lia.
  - apply IH1. intros p s' Hle. apply IH2. intros p' s'' Hle'.
    apply H. lia.
  - rewrite (IH1 _ prev s k1 k2 H), (IH2 _ prev s k1 k2 H). reflexivity.
  - generalize (length s) as fuel. intros fuel. revert prev s H.
    induction fuel as [|fuel IHf]; intros prev s H; cbn [star_loop].
    + rewrite (H prev s (le_n _)). reflexivity.
    + rewrite (H prev s (le_n _)).
      assert (E : rmatch r1 prev s
                    (fun p s' => if length s' <? length s
                                 then star_loop g (rmatch r1 (R := R)) k1 fuel p s'
                                 else None)
                  = rmatch r1 prev s
                      (fun p s' => if length s' <? length s
                                   then star_loop g (rmatch r1 (R := R)) k2 fuel p s'
                                   else None)).
      { apply IH1. intros p s' Hle.
        destruct (length s' <? length s); [|reflexivity].
        apply IHf. intros p' s'' Hle'. apply H. lia. }
      rewrite E. reflexivity.
  - rewrite (H prev s (le_n _)). reflexivity.
  - destruct prev as [c|]; [|reflexivity].
    destruct (in_class neg items c); [apply H; lia | reflexivity].
  - destruct s as [|c [|c' s]]; [apply H; lia | | reflexivity].
    destruct (Nat.eqb (code c) 10); [apply H; simpl; lia | reflexivity].
Qed.

(** Any fuel from the length of the input on gives the same repetition. *)
Lemma star_loop_fuel r g R (k : option char -> str -> option R) :
  forall n1 n2 prev s, length s <= n1 -> length s <= n2 ->
    star_loop g (rmatch r (R := R)) k n1 prev s
    = star_loop g (rmatch r (R := R)) k n2 prev s.
Proof.
  assert (Hzero : forall n prev,
             star_loop g (rmatch r (R := R)) k n prev []
             = star_loop g (rmatch r (R := R)) k 0 prev []).
  { intros [|n] prev; [reflexivity|]. cbn [star_loop].
    rewrite (rmatch_ext r prev [] _ (fun _ _ => None)).
    - rewrite rmatch_none. reflexivity.
    - intros p s' _. reflexivity. }
  induction n1 as [|n1 IH]; intros n2 prev s H1 H2.
  - destruct s; [|simpl in H1; lia]. symmetry. apply Hzero.
  - destruct n2 as [|n2].
    + destruct s; [|simpl in H2; lia]. apply Hzero.
    + cbn [star_loop].
      rewrite (rmatch_ext r prev s
                 (fun p s' => if length s' <? length s
                              then star_loop g (rmatch r (R := R)) k n1 p s'
                              else None)
                 (fun p s' => if length s' <? length s
                              then star_loop g (rmatch r (R := R)) k n2 p s'
                              else None)); [reflexivity|].
      intros p s' Hle. destruct (length s' <? length s) eqn:Hlt; [|reflexivity].
      apply Nat.ltb_lt in Hlt. apply IH; lia.
Qed.

(** A match is a prefix of the input, followed by the rest; after an empty
    match the next one is not empty. *)
Lemma match_at_sound r ma prev s m rest :
  match_at r ma prev s = Some (m, rest) ->
  s = m ++ rest /\ (ma = true -> m <> []).
Proof.
  unfold match_at.
  destruct (rmatch r prev s _) as [rest'|] eqn:E; [|discriminate].
  intros H. injection H as <- <-.
  apply rmatch_suffix in E as (pre & s' & -> & E).
  destruct (ma && Nat.eqb (length s') (length (pre ++ s'))) eqn:G;
    [discriminate|].
  injection E as <-.
  assert (Hm : firstn (length (pre ++ s') - length s') (pre ++ s') = pre).
  { rewrite length_app, Nat.add_sub.
    rewrite <- (Nat.add_0_r (length pre)), firstn_app_2.
    cbn [firstn]. apply app_nil_r. }
  rewrite Hm. split; [reflexivity|].
  intros -> ->. cbn [app andb] in G.
  rewrite Nat.eqb_refl in G. discriminate.
Qed.

Lemma scan_loop_end n r prev : scan_loop n r true prev [] = [].
Proof.
  destruct n as [|n]; [reflexivity|]. cbn [scan_loop].
  destruct (match_at r true prev []) as [[m rest]|] eqn:E; [|reflexivity].
  apply match_at_sound in E as [E Hne].
  symmetry in E. apply app_eq_nil in E as [-> _].
  exfalso. exact (Hne eq_refl eq_refl).
Qed.

(** Any fuel from [scan_measure] on gives the same pieces. *)
Lemma scan_loop_fuel r :
  forall n1 n2 ma prev s,
    scan_measure ma s <= n1 -> scan_measure ma s <= n2 ->
    scan_loop n1 r ma prev s = scan_loop n2 r ma prev s.
Proof.
  assert (Hzero : forall ma s, scan_measure ma s <= 0 -> s = [] /\ ma = true).
  { intros [|] [|c s] H; unfold scan_measure in H; simpl in H;
      try lia; auto. }
  induction n1 as [|n1 IH]; intros n2 ma prev s H1 H2.
  - destruct (Hzero _ _ H1) as [-> ->]. rewrite !scan_loop_end. reflexivity.
  - destruct n2 as [|n2].
    { destruct (Hzero _ _ H2) as [-> ->]. rewrite !scan_loop_end. reflexivity. }
    cbn [scan_loop].
    destruct (match_at r ma prev s) as [[m rest]|] eqn:E.
    + apply match_at_sound in E as [-> Hne]. f_equal.
      destruct m as [|c m]; cbn [is_empty].
      * destruct ma; [exfalso; exact (Hne eq_refl eq_refl)|].
        apply IH; unfold scan_measure in *; cbn [app] in *; lia.
      * apply IH; unfold scan_measure in *;
          cbn [app length] in *; rewrite length_app in *;
          destruct ma; lia.
    + destruct s as [|c s]; [reflexivity|]. f_equal.
      apply IH; unfold scan_measure in *; cbn [length] in *;
        destruct ma; lia.
Qed.

(** The pieces of a scan spell the input. *)
Lemma scan_loop_spelled r :
  forall n ma prev s, spelled (scan_loop n r ma prev s) = s.
Proof.
  induction n as [|n IH]; intros ma prev s.
  - cbn [scan_loop]. induction s as [|c s IHs]; [reflexivity|].
    cbn [map spelled flat_map app]. fold (spelled (map Lit s)).
    rewrite IHs. reflexivity.
  - cbn [scan_loop].
    destruct (match_at r ma prev s) as [[m rest]|] eqn:E.
    + apply match_at_sound in E as [-> _].
      cbn [spelled flat_map]. fold spelled.
      destruct (is_empty m) eqn:Hm.
      * destruct m; [|discriminate]. rewrite IH. reflexivity.
      * rewrite IH. reflexivity.
    + destruct s as [|c s]; [reflexivity|].
      cbn [spelled flat_map app]. fold spelled. rewrite IH. reflexivity.
Qed.

Lemma scan_fuel r n s :
  scan_measure false s <= n -> scan_loop n r false None s = scan r s.
Proof.
  intros H. unfold scan. apply scan_loop_fuel; [exact H|].
  unfold scan_measure. lia.
Qed.

Lemma scan_spelled r s : spelled (scan r s) = s.
Proof. apply scan_loop_spelled. Qed.

Lemma orelse_none_r A (x : option A) : orelse x None = x.
Proof. destruct x; reflexivity. Qed.

Lemma greedy_delims_then_other R prev s (k : option char -> str -> option R) :
  greedy_run is_delim prev s (fun p s' => rmatch (Cls true delimiters) p s' k)
  = match skip_delims s with
    | c :: rest => k (Some c) rest
    | [] => None
    end.
Proof.
  revert prev; induction s as [|c s IH]; intros prev; [reflexivity|].
  cbn [greedy_run skip_delims rmatch].
  rewrite class_not_delims.
  destruct (is_delim c) eqn:Hc; cbn [negb].
  - rewrite IH. apply orelse_none_r.
  - reflexivity.
Qed.

Lemma rmatch_UNDERSCORE R prev s (k : option char -> str -> option R) :
  rmatch UNDERSCORE_RE prev s k
  = if blocked prev then None
    else match s with
         | d :: s1 =>
             if is_delim d
             then match skip_delims s1 with
                  | c :: rest => k (Some c) rest
                  | [] => None
                  end
             else None
         | [] => None
         end.
Proof.
  unfold UNDERSCORE_RE, Plus.
  cbn [rmatch].
  destruct prev as [p|]; [|reflexivity].
  cbn [blocked]. rewrite class_not_delims.
  destruct (is_delim p); cbn [negb]; [reflexivity|].
  destruct s as [|d s1]; [reflexivity|].
  rewrite class_delims.
  destruct (is_delim d); [|reflexivity].
  rewrite <- (greedy_delims_then_other (Some d) s1 k).
  apply (star_loop_greedy_cls false delimiters). lia.
Qed.

Lemma skip_delims_split s c rest :
  skip_delims s = c :: rest ->
  s = take_delims s ++ c :: rest /\ is_delim c = false.
Proof.
  induction s as [|a s IH]; cbn [skip_delims take_delims]; [discriminate|].
  destruct (is_delim a) eqn:Ha.
  - intros H. destruct (IH H) as [E Hc]. split; [|exact Hc].
    cbn [app]. f_equal. exact E.
  - intros H. injection H as -> ->. split; [reflexivity | exact Ha].
Qed.

Lemma take_delims_all s : forallb is_delim (take_delims s) = true.
Proof.
  induction s as [|a s IH]; [reflexivity|].
  cbn [take_delims]. destruct (is_delim a) eqn:Ha; [|reflexivity].
  cbn [forallb]. rewrite Ha, IH. reflexivity.
Qed.

Lemma skip_delims_nil s : skip_delims s = [] -> forallb is_delim s = true.
Proof.
  induction s as [|a s IH]; [reflexivity|].
  cbn [skip_delims forallb]. destruct (is_delim a); [exact IH | discriminate].
Qed.

Lemma skip_delims_length s : length (skip_delims s) <= length s.
Proof.
  induction s as [|a s IH]; [reflexivity|].
  cbn [skip_delims]. destruct (is_delim a); simpl; lia.
Qed.

Lemma match_at_UNDERSCORE ma prev s :
  match_at UNDERSCORE_RE ma prev s
  = if blocked prev then None
    else match s with
         | d :: s1 =>
             if is_delim d
             then match skip_delims s1 with
                  | c :: rest => Some (d :: take_delims s1 ++ [c], rest)
                  | [] => None
                  end
             else None
         | [] => None
         end.
Proof.
  unfold match_at. rewrite rmatch_UNDERSCORE.
  destruct (blocked prev); [reflexivity|].
  destruct s as [|d s1]; [reflexivity|].
  destruct (is_delim d); [|reflexivity].
  destruct (skip_delims s1) as [|c rest] eqn:Hskip; [reflexivity|].
  destruct (skip_delims_split _ Hskip) as [E _].
  assert (Hlen : length s1 = length (take_delims s1) + S (length rest)).
  { rewrite E at 1. rewrite length_app. reflexivity. }
  assert (Hne : Nat.eqb (length rest) (length (d :: s1)) = false).
  { apply Nat.eqb_neq. simpl. lia. }
  rewrite Hne, andb_false_r.
  f_equal. f_equal.
  replace (length (d :: s1) - length rest)
    with (length (d :: take_delims s1 ++ [c]) + 0)
    by (cbn [length]; rewrite length_app; cbn [length]; lia).
  rewrite E at 2.
  change (d :: take_delims s1 ++ c :: rest)
    with ((d :: take_delims s1) ++ c :: rest).
  replace ((d :: take_delims s1) ++ c :: rest)
    with ((d :: take_delims s1 ++ [c]) ++ rest)
    by (cbn [app]; rewrite <- app_assoc; reflexivity).
  rewrite firstn_app_2. cbn [firstn]. apply app_nil_r.
Qed.

Lemma camel_tail_delims p s :
  forallb is_delim s = true -> camel_tail p s = p ++ s.
Proof.
  revert p; induction s as [|c s IH]; intros p H; cbn [camel_tail].
  - symmetry; apply app_nil_r.
  - cbn [forallb] in H. apply andb_prop in H as [Hc Hs].
    rewrite Hc, IH by exact Hs. rewrite <- app_assoc. reflexivity.
Qed.

Lemma camel_head_delims s : forallb is_delim s = true -> camel_head s = s.
Proof.
  induction s as [|c s IH]; intros H; cbn [camel_head]; [reflexivity|].
  cbn [forallb] in H. apply andb_prop in H as [Hc Hs].
  rewrite Hc, IH by exact Hs. reflexivity.
Qed.

Lemma camel_tail_run p run c rest :
  forallb is_delim run = true -> is_delim c = false ->
  camel_tail p (run ++ c :: rest)
  = (if is_empty (p ++ run) then [c] else upper_full c) ++ camel_tail [] rest.
Proof.
  revert p; induction run as [|d run IH]; intros p Hrun Hc; cbn [app camel_tail].
  - rewrite Hc, app_nil_r. reflexivity.
  - cbn [forallb] in Hrun. apply andb_prop in Hrun as [Hd Hrun].
    rewrite Hd, IH by assumption. rewrite <- app_assoc. reflexivity.
Qed.

Lemma last_or_snoc prev m c : last_or prev (m ++ [c]) = Some c.
Proof. unfold last_or. rewrite rev_app_distr. reflexivity. Qed.

Lemma upper_last_snoc m c : upper_last (m ++ [c]) = Some (upper_full c).
Proof.
  unfold upper_last. rewrite rev_app_distr. cbn [rev app upper flat_map].
  rewrite app_nil_r. reflexivity.
Qed.

Lemma scan_UNDERSCORE :
  forall n s prev, length s <= n ->
    sub_pieces upper_last (scan_loop n UNDERSCORE_RE false prev s)
    = Some (if blocked prev then camel_head s else camel_tail [] s).
Proof.
  induction n as [|n IH]; intros s prev Hlen.
  - destruct s; [|simpl in Hlen; lia]. destruct (blocked prev); reflexivity.
  - cbn [scan_loop]. rewrite match_at_UNDERSCORE.
    destruct s as [|d s1].
    { destruct (blocked prev); reflexivity. }
    assert (Hs1 : length s1 <= n) by (simpl in Hlen; lia).
    destruct (blocked prev) eqn:Hb.
    { cbn [sub_pieces]. rewrite IH by exact Hs1. cbn [blocked camel_head].
      destruct (is_delim d); reflexivity. }
    destruct (is_delim d) eqn:Hd.
    2:{ cbn [sub_pieces]. rewrite IH by exact Hs1. cbn [blocked camel_tail].
        rewrite Hd. reflexivity. }
    destruct (skip_delims s1) as [|c rest] eqn:Hskip.
    + cbn [sub_pieces]. rewrite IH by exact Hs1. cbn [blocked camel_tail].
      rewrite Hd. pose proof (skip_delims_nil _ Hskip) as Hall.
      rewrite camel_head_delims, camel_tail_delims by exact Hall.
      reflexivity.
    + destruct (skip_delims_split _ Hskip) as [E Hc].
      cbn [is_empty sub_pieces].
      change (d :: take_delims s1 ++ [c]) with ((d :: take_delims s1) ++ [c]).
      rewrite upper_last_snoc, last_or_snoc.
      rewrite IH.
      2:{ pose proof (skip_delims_length s1). rewrite Hskip in H.
          simpl in H. lia. }
      cbn [blocked]. rewrite Hc.
      cbn [camel_tail]. rewrite Hd. rewrite E at 1.
      rewrite camel_tail_run by (auto using take_delims_all).
      reflexivity.
Qed.

Lemma sub_UNDERSCORE s :
  Re.sub UNDERSCORE_RE upper_last s = Some (camel_head s).
Proof.
  unfold Re.sub, scan. rewrite scan_UNDERSCORE by lia. reflexivity.
Qed.

(* ================================================================== *)
(** ** The reference function of [UNDERSCORE_RE.sub] *)

Lemma camel_tail_length p s :
  forallb is_ascii s = true ->
  length (camel_tail p s) <= length p + length s.
Proof.
  revert p; induction s as [|c s IH]; intros p Hs; cbn [camel_tail length].
  - lia.
  - cbn [forallb] in Hs. apply andb_prop in Hs as [Hc Hs].
    destruct (is_delim c).
    + specialize (IH (p ++ [c]) Hs). rewrite length_app in IH. simpl in IH. lia.
    + specialize (IH [] Hs). rewrite (ascii_upper_full _ Hc), length_app.
      destruct (is_empty p); simpl in *; lia.
Qed.

Lemma camel_head_length s :
  forallb is_ascii s = true -> length (camel_head s) <= length s.
Proof.
  induction s as [|c s IH]; intros Hs; cbn [camel_head length]; [lia|].
  cbn [forallb] in Hs. apply andb_prop in Hs as [_ Hs].
  destruct (is_delim c); cbn [length]; [specialize (IH Hs); lia|].
  pose proof (camel_tail_length [] s Hs). simpl in *. lia.
Qed.

(** After a non-delimiter the output is a part without delimiters followed
    by a run of delimiters. *)
Lemma camel_tail_shape p s :
  forallb is_delim p = true ->
  exists body trail,
    camel_tail p s = body ++ trail
    /\ no_delim body = true /\ forallb is_delim trail = true.
Proof.
  revert p; induction s as [|c s IH]; intros p Hp; cbn [camel_tail].
  - exists [], p. auto.
  - destruct (is_delim c) eqn:Hc.
    + apply IH. rewrite forallb_app, Hp. cbn [forallb andb]. rewrite Hc. reflexivity.
    + destruct (IH [] eq_refl) as (body & trail & E & Hb & Ht).
      exists ((if is_empty p then [c] else upper_full c) ++ body), trail.
      rewrite E, app_assoc. repeat split; auto.
      unfold no_delim. rewrite forallb_app. fold (no_delim body). rewrite Hb.
      destruct (is_empty p).
      * cbn [forallb]. rewrite Hc. reflexivity.
      * fold (no_delim (upper_full c)).
        rewrite (upper_full_no_delim _ Hc). reflexivity.
Qed.

Lemma camel_head_shape s :
  exists body trail,
    camel_head s = take_delims s ++ body ++ trail
    /\ no_delim body = true /\ forallb is_delim trail = true.
Proof.
  induction s as [|c s IH]; cbn [camel_head take_delims].
  - exists [], []. auto.
  - destruct (is_delim c) eqn:Hc.
    + destruct IH as (body & trail & E & Hb & Ht).
      exists body, trail. rewrite E. auto.
    + destruct (camel_tail_shape [] s eq_refl) as (body & trail & E & Hb & Ht).
      exists (c :: body), trail. rewrite E. repeat split; auto.
      cbn [no_delim forallb]. fold (no_delim body). rewrite Hc, Hb. reflexivity.
Qed.

Lemma camel_tail_fixed body trail :
  no_delim body = true -> forallb is_delim trail = true ->
  camel_tail [] (body ++ trail) = body ++ trail.
Proof.
  induction body as [|c body IH]; intros Hb Ht; cbn [app].
  - apply camel_tail_delims. exact Ht.
  - cbn [no_delim forallb] in Hb. apply andb_prop in Hb as [Hc Hb].
    cbn [camel_tail]. apply negb_true_iff in Hc. rewrite Hc.
    cbn [is_empty app]. rewrite IH by assumption. reflexivity.
Qed.

Lemma camel_head_fixed lead body trail :
  forallb is_delim lead = true -> no_delim body = true ->
  forallb is_delim trail = true ->
  camel_head (lead ++ body ++ trail) = lead ++ body ++ trail.
Proof.
  induction lead as [|d lead IH]; intros Hl Hb Ht; cbn [app].
  - destruct body as [|c body]; cbn [app].
    + apply camel_head_delims. exact Ht.
    + cbn [no_delim forallb] in Hb. apply andb_prop in Hb as [Hc Hb].
      cbn [camel_head]. apply negb_true_iff in Hc. rewrite Hc.
      rewrite camel_tail_fixed by assumption. reflexivity.
  - cbn [forallb] in Hl. apply andb_prop in Hl as [Hd Hl].
    cbn [camel_head]. rewrite Hd, IH by assumption. reflexivity.
Qed.

Lemma camel_head_idem s : camel_head (camel_head s) = camel_head s.
Proof.
  destruct (camel_head_shape s) as (body & trail & E & Hb & Ht).
  rewrite E. apply camel_head_fixed; auto using take_delims_all.
Qed.

Lemma camel_head_first c s : exists t, camel_head (c :: s) = c :: t.
Proof. cbn [camel_head]. destruct (is_delim c); eauto. Qed.

(** A pending run of delimiters never lets a lowercase or titlecase
    character of an ASCII string come first. *)
Lemma ascii_upper_char_case c :
  is_ascii c = true ->
  is_lower_char (upper_char c) || is_title_char (upper_char c) = false.
Proof. all_chars c. Qed.

Lemma delim_case c :
  is_delim c = true -> is_lower_char c || is_title_char c = false.
Proof. all_chars c. Qed.

Lemma camel_tail_pending_first p s :
  p <> [] -> forallb is_delim p = true -> ascii_only s = true ->
  exists x t, camel_tail p s = x :: t
              /\ is_lower_char x || is_title_char x = false.
Proof.
  revert p; induction s as [|c s IH]; intros p Hne Hp Hs; cbn [camel_tail].
  - destruct p as [|x p]; [congruence|]. exists x, p. split; [reflexivity|].
    cbn [forallb] in Hp. apply andb_prop in Hp as [Hx _].
    apply delim_case, Hx.
  - cbn [ascii_only forallb] in Hs. apply andb_prop in Hs as [Hc' Hs].
    destruct (is_delim c) eqn:Hc.
    + apply IH.
      * destruct p; discriminate.
      * rewrite forallb_app, Hp. cbn [forallb andb]. rewrite Hc. reflexivity.
      * exact Hs.
    + destruct p as [|x p]; [congruence|]. cbn [is_empty].
      rewrite (ascii_upper_full _ Hc'). cbn [app].
      eexists _, _. split; [reflexivity | apply ascii_upper_char_case, Hc'].
Qed.

(** *** The result of the substitution, part by part *)

Lemma trail_of_all s : forallb is_delim s = true -> trail_of s = s.
Proof. destruct s as [|c s]; [reflexivity|]. cbn [trail_of]. intros ->. reflexivity. Qed.

Lemma trail_of_delims s : forallb is_delim (trail_of s) = true.
Proof.
  induction s as [|c s IH]; [reflexivity|]. cbn [trail_of].
  destruct (forallb is_delim (c :: s)) eqn:E; [exact E | exact IH].
Qed.

Lemma trail_of_cons c s : is_delim c = false -> trail_of (c :: s) = trail_of s.
Proof. intros H. cbn [trail_of forallb]. rewrite H. reflexivity. Qed.

Lemma trail_of_no_delim_app a s :
  no_delim a = true -> trail_of (a ++ s) = trail_of s.
Proof.
  induction a as [|x a IH]; intros H; [reflexivity|].
  cbn [no_delim forallb] in H. apply andb_prop in H as [Hx Ha].
  apply negb_true_iff in Hx. cbn [app]. rewrite trail_of_cons by exact Hx.
  exact (IH Ha).
Qed.

Lemma humps_no_delim f s : no_delim (humps f s) = true.
Proof.
  revert f; induction s as [|c s IH]; intros f; [reflexivity|].
  cbn [humps]. destruct (is_delim c) eqn:Hc; [apply IH|].
  unfold no_delim. rewrite forallb_app. fold (no_delim (humps false s)).
  rewrite IH, andb_true_r. destruct f.
  - apply upper_full_no_delim, Hc.
  - cbn [forallb]. rewrite Hc. reflexivity.
Qed.

Lemma humps_delims f s : forallb is_delim s = true -> humps f s = [].
Proof.
  revert f; induction s as [|c s IH]; intros f H; [reflexivity|].
  cbn [forallb] in H. apply andb_prop in H as [Hc H].
  cbn [humps]. rewrite Hc. exact (IH true H).
Qed.

(** After a non-delimiter: the humps of [s], then the run that ends [s]. *)
Lemma camel_tail_humps p s :
  camel_tail p s
  = humps (negb (is_empty p)) s
    ++ (if forallb is_delim s then p ++ s else trail_of s).
Proof.
  revert p; induction s as [|c s IH]; intros p; cbn [camel_tail].
  - cbn. rewrite app_nil_r. reflexivity.
  - cbn [humps forallb]. destruct (is_delim c) eqn:Hc.
    + rewrite IH. cbn [andb].
      replace (negb (is_empty (p ++ [c]))) with true by (destruct p; reflexivity).
      destruct (forallb is_delim s) eqn:Hs.
      * rewrite <- app_assoc. reflexivity.
      * cbn [trail_of forallb]. rewrite Hc, Hs. reflexivity.
    + rewrite IH. cbn [andb is_empty negb app].
      rewrite trail_of_cons by exact Hc.
      destruct (forallb is_delim s) eqn:Hs; [rewrite (trail_of_all _ Hs)|];
        destruct p; cbn [is_empty negb]; rewrite <- app_assoc; reflexivity.
Qed.

(** The whole result: the leading run, the humps of what follows it, and
    the trailing run of what follows it. *)
Lemma camel_head_humps s :
  camel_head s
  = take_delims s ++ humps false (skip_delims s) ++ trail_of (skip_delims s).
Proof.
  induction s as [|c s IH]; [reflexivity|].
  cbn [camel_head take_delims skip_delims].
  destruct (is_delim c) eqn:Hc.
  - rewrite IH. reflexivity.
  - cbn [app humps]. rewrite Hc, trail_of_cons, camel_tail_humps by exact Hc.
    cbn [is_empty negb app].
    destruct (forallb is_delim s) eqn:Hs; [rewrite (trail_of_all _ Hs)|];
      reflexivity.
Qed.

(* ================================================================== *)
(** ** [camelize] on a string *)

Lemma str_or_empty_VStr s : str_or_empty (VStr s) = Ok s.
Proof. destruct s; reflexivity. Qed.

Lemma camelize_VStr s :
  camelize (VStr s)
  = if isupper s || isnumeric s then Ok (VStr s)
    else Ok (VStr (camel_head (camel_prepare s))).
Proof.
  cbn [camelize]. unfold camelize_str. rewrite str_or_empty_VStr. cbn [bind].
  destruct (isupper s || isnumeric s); [reflexivity|].
  fold (camel_prepare s). rewrite sub_UNDERSCORE. reflexivity.
Qed.

Lemma isupper_one c : is_upper_char c = true -> isupper [c] = true.
Proof.
  intros H. unfold isupper. cbn [existsb].
  rewrite H, (upper_not_low_title _ H). reflexivity.
Qed.

Lemma isupper_two c x :
  is_upper_char c = true ->
  isupper [c; x] = negb (is_lower_char x || is_title_char x).
Proof.
  intros H. unfold isupper. cbn [existsb].
  rewrite H, (upper_not_low_title _ H). cbn [orb andb].
  rewrite orb_false_r. reflexivity.
Qed.

Lemma isupper_first c s :
  isupper (c :: s) = true -> is_lower_char c || is_title_char c = false.
Proof.
  unfold isupper. cbn [existsb]. intros H. apply andb_prop in H as [_ H].
  apply negb_true_iff, orb_false_iff in H as [H _]. exact H.
Qed.

Lemma lower_first_cons c s : lower_first (c :: s) = lower_full c ++ s.
Proof. cbn [lower_first lower flat_map]. rewrite app_nil_r. reflexivity. Qed.

Lemma lower_first_fixed c s :
  lowered c = true -> lower_first (c :: s) = c :: s.
Proof. intros H. rewrite lower_first_cons, (lowered_fixed _ H). reflexivity. Qed.

Lemma lower_first_ascii c s :
  is_ascii c = true -> lower_first (c :: s) = lower_char c :: s.
Proof. intros H. rewrite lower_first_cons, (ascii_lower_full _ H). reflexivity. Qed.

Lemma ascii_lower_char_lowered c :
  is_ascii c = true -> lowered (lower_char c) = true.
Proof. all_chars c. Qed.

Lemma not_case_lowered c :
  is_upper_char c = false -> is_lower_char c || is_title_char c = false ->
  lowered c = true.
Proof. all_chars c. Qed.

Lemma case_lowered c :
  is_upper_char c = false -> is_title_char c = false -> lowered c = true.
Proof. unfold lowered. intros -> ->. reflexivity. Qed.

Lemma upper_char_not_delim c : is_upper_char c = true -> is_delim c = false.
Proof. all_chars c. Qed.

Lemma camel_prepare_fixed s :
  ascii_only s = true ->
  camel_prepare (camel_head (camel_prepare s)) = camel_head (camel_prepare s).
Proof.
  destruct s as [|c s]; [reflexivity|]. intros Hs.
  cbn [ascii_only forallb] in Hs. apply andb_prop in Hs as [Hc' Hs].
  unfold camel_prepare at 2 3.
  destruct (negb (Nat.eqb (length (c :: s)) 0)
            && negb (isupper (slice_to 2 (c :: s)))) eqn:Hcond.
  - (* the first character was lower-cased *)
    rewrite (lower_first_ascii _ _ Hc').
    destruct (camel_head_first (lower_char c) s) as [t ->].
    unfold camel_prepare. split_if; [|reflexivity].
    apply lower_first_fixed, ascii_lower_char_lowered, Hc'.
  - (* the first two characters are upper case *)
    cbn [length Nat.eqb negb andb] in Hcond.
    apply negb_false_iff in Hcond.
    destruct (is_upper_char c) eqn:Hc.
    2:{ destruct (camel_head_first c s) as [t ->].
        unfold camel_prepare. split_if; [|reflexivity].
        apply lower_first_fixed, case_lowered;
          [exact Hc | apply ascii_title, Hc']. }
    cbn [camel_head]. rewrite (upper_char_not_delim _ Hc).
    unfold camel_prepare.
    destruct s as [|y s].
    + cbn [camel_tail slice_to firstn]. rewrite (isupper_one _ Hc). reflexivity.
    + cbn [slice_to firstn] in Hcond. rewrite isupper_two in Hcond by exact Hc.
      apply negb_true_iff in Hcond.
      cbn [forallb] in Hs. apply andb_prop in Hs as [_ Hs].
      cbn [camel_tail]. destruct (is_delim y) eqn:Hy.
      * destruct (@camel_tail_pending_first ([] ++ [y]) s) as (x & t & -> & Hx).
        { discriminate. }
        { cbn [app forallb]. rewrite Hy. reflexivity. }
        { exact Hs. }
        cbn [slice_to firstn]. rewrite isupper_two, Hx by exact Hc. reflexivity.
      * cbn [is_empty app slice_to firstn].
        rewrite isupper_two, Hcond by exact Hc. reflexivity.
Qed.

Lemma camelize_idempotent s :
  ascii_only s = true ->
  exists r, camelize (VStr s) = Ok (VStr r) /\ camelize (VStr r) = Ok (VStr r).
Proof.
  intros Hs. rewrite camelize_VStr.
  destruct (isupper s || isnumeric s) eqn:He.
  - exists s. split; [reflexivity|]. rewrite camelize_VStr, He. reflexivity.
  - exists (camel_head (camel_prepare s)). split; [reflexivity|].
    rewrite camelize_VStr. split_if; [reflexivity|].
    rewrite (camel_prepare_fixed _ Hs), camel_head_idem. reflexivity.
Qed.

(* ================================================================== *)
(** ** [decamelize] on a string *)

Lemma scan_loop_no_match r (q : char -> bool) :
  (forall ma prev s, forallb q s = true -> match_at r ma prev s = None) ->
  forall n ma prev s, forallb q s = true ->
    scan_loop n r ma prev s = map Lit s.
Proof.
  intros Hno. induction n as [|n IH]; intros ma prev s Hq; [reflexivity|].
  cbn [scan_loop]. rewrite Hno by exact Hq.
  destruct s as [|c s]; [reflexivity|].
  cbn [forallb] in Hq. apply andb_prop in Hq as [_ Hq].
  cbn [map]. rewrite IH by exact Hq. reflexivity.
Qed.

Lemma sub_pieces_lits repl s : sub_pieces repl (map Lit s) = Some s.
Proof.
  induction s as [|c s IH]; [reflexivity|].
  cbn [map sub_pieces]. rewrite IH. reflexivity.
Qed.

Lemma split_pieces_lits cur s :
  split_pieces cur (map Lit s) = [rev cur ++ s].
Proof.
  revert cur; induction s as [|c s IH]; intros cur; cbn [map split_pieces].
  - rewrite app_nil_r. reflexivity.
  - rewrite IH. cbn [rev]. rewrite <- app_assoc. reflexivity.
Qed.

Lemma sub_pieces_total repl ps :
  (forall m, exists t, repl m = Some t) ->
  exists out, sub_pieces repl ps = Some out.
Proof.
  intros Hrepl. induction ps as [|[c|m] ps [out IH]]; cbn [sub_pieces].
  - eauto.
  - rewrite IH. eauto.
  - destruct (Hrepl m) as [t ->]. rewrite IH. eauto.
Qed.

Lemma rmatch_upper_first R (r2 : regex) prev s
    (k : option char -> str -> option R) :
  forallb not_upper s = true ->
  rmatch (Seq (Cls false upper_AZ) r2) prev s k = None.
Proof.
  intros Hq. cbn [rmatch]. destruct s as [|c s]; [reflexivity|].
  cbn [forallb] in Hq. apply andb_prop in Hq as [Hc _].
  rewrite class_upper. apply negb_true_iff in Hc. rewrite Hc. reflexivity.
Qed.

Lemma match_at_ACRONYM_none ma prev s :
  forallb not_upper s = true -> match_at ACRONYM_RE ma prev s = None.
Proof.
  intros Hq. unfold match_at, ACRONYM_RE, Plus.
  cbn [rmatch]. destruct s as [|c s]; [reflexivity|].
  cbn [forallb] in Hq. apply andb_prop in Hq as [Hc _].
  rewrite class_upper. apply negb_true_iff in Hc. rewrite Hc. reflexivity.
Qed.

Lemma greedy_run_none p R prev s (k : option char -> str -> option R) :
  (forall prev' s', forallb not_upper s' = true -> k prev' s' = None) ->
  forallb not_upper s = true ->
  greedy_run p prev s k = None.
Proof.
  intros Hk. revert prev; induction s as [|c s IH]; intros prev Hq.
  - cbn [greedy_run]. apply Hk. reflexivity.
  - cbn [greedy_run]. rewrite (Hk prev (c :: s)) by exact Hq.
    cbn [forallb] in Hq. apply andb_prop in Hq as [_ Hq].
    rewrite IH by exact Hq. destruct (p c); reflexivity.
Qed.

Lemma match_at_SPLIT_none ma prev s :
  forallb not_upper s = true -> match_at SPLIT_RE ma prev s = None.
Proof.
  intros Hq. unfold match_at.
  match goal with
  | |- match ?m with _ => _ end = None => assert (E : m = None); [|rewrite E; reflexivity]
  end.
  unfold SPLIT_RE, Plus.
  match goal with
  | |- rmatch (Seq (Star true (Cls ?n ?i)) ?r2) ?p ?s ?k = None =>
      change (rmatch (Seq (Star true (Cls n i)) r2) p s k)
        with (rmatch (Star true (Cls n i)) p s
                (fun p' s' => rmatch r2 p' s' k))
  end.
  rewrite rmatch_star_cls.
  apply greedy_run_none; [|exact Hq].
  intros prev' s' Hq'.
  match goal with
  | |- rmatch (Seq (Seq ?a ?b) ?c) ?p ?s ?k = None =>
      change (rmatch (Seq (Seq a b) c) p s k)
        with (rmatch (Seq a b) p s (fun p' s' => rmatch c p' s' k))
  end.
  apply rmatch_upper_first. exact Hq'.
Qed.

Lemma sub_ACRONYM_none s :
  forallb not_upper s = true -> Re.sub ACRONYM_RE title_match s = Some s.
Proof.
  intros Hq. unfold Re.sub, scan.
  rewrite (scan_loop_no_match ACRONYM_RE not_upper) by
    (auto using match_at_ACRONYM_none).
  apply sub_pieces_lits.
Qed.

Lemma split_SPLIT_none s :
  forallb not_upper s = true -> Re.split SPLIT_RE s = [s].
Proof.
  intros Hq. unfold Re.split, scan.
  rewrite (scan_loop_no_match SPLIT_RE not_upper) by
    (auto using match_at_SPLIT_none).
  apply split_pieces_lits.
Qed.

Lemma forallb_mono (A : Type) (f g : A -> bool) :
  (forall a, f a = true -> g a = true) ->
  forall l, forallb f l = true -> forallb g l = true.
Proof.
  intros H l. induction l as [|a l IH]; [reflexivity|].
  cbn [forallb]. intros E. apply andb_prop in E as [Ea El].
  rewrite (H _ Ea), (IH El). reflexivity.
Qed.

Lemma lower_cons c s : lower (c :: s) = lower_full c ++ lower s.
Proof. reflexivity. Qed.

Lemma lower_app a b : lower (a ++ b) = lower a ++ lower b.
Proof. apply flat_map_app. Qed.

Lemma lower_lowered s : forallb lowered (lower s) = true.
Proof.
  induction s as [|c s IH]; [reflexivity|].
  rewrite lower_cons, forallb_app, lower_full_lowered, IH. reflexivity.
Qed.

Lemma lowered_not_upper_all s :
  forallb lowered s = true -> forallb not_upper s = true.
Proof. apply forallb_mono, lowered_not_upper. Qed.

Lemma lower_not_upper s : forallb not_upper (lower s) = true.
Proof. apply lowered_not_upper_all, lower_lowered. Qed.

Lemma lower_fixed s : forallb lowered s = true -> lower s = s.
Proof.
  induction s as [|c s IH]; intros Hq; [reflexivity|].
  cbn [forallb] in Hq. apply andb_prop in Hq as [Hc Hq].
  rewrite lower_cons, (lowered_fixed _ Hc), (IH Hq). reflexivity.
Qed.

Lemma sub_ACRONYM_total s :
  exists fixed_abbr, Re.sub ACRONYM_RE title_match s = Some fixed_abbr.
Proof.
  apply sub_pieces_total. intros m. exists (title m). reflexivity.
Qed.

Lemma decamelize_VStr s :
  decamelize (VStr s)
  = if isupper s || isnumeric s then Ok (VStr s)
    else match Re.sub ACRONYM_RE title_match s with
         | Some fixed_abbr =>
             Ok (VStr (lower (join (lit "_")
                         (filter non_empty (Re.split SPLIT_RE fixed_abbr)))))
         | None => Raise IndexError
         end.
Proof.
  cbn [decamelize]. unfold decamelize_str. rewrite str_or_empty_VStr.
  reflexivity.
Qed.

Lemma decamelize_fixed r :
  forallb lowered r = true -> decamelize (VStr r) = Ok (VStr r).
Proof.
  intros Hq. pose proof (lowered_not_upper_all _ Hq) as Hn.
  rewrite decamelize_VStr. split_if; [reflexivity|].
  rewrite sub_ACRONYM_none, split_SPLIT_none by exact Hn.
  do 2 f_equal.
  destruct r as [|c r]; [reflexivity|].
  cbn [filter non_empty is_empty negb join]. apply lower_fixed, Hq.
Qed.

Lemma decamelize_idempotent s :
  exists r,
    decamelize (VStr s) = Ok (VStr r) /\ decamelize (VStr r) = Ok (VStr r).
Proof.
  rewrite decamelize_VStr.
  destruct (isupper s || isnumeric s) eqn:He.
  - exists s. split; [reflexivity|]. rewrite decamelize_VStr, He. reflexivity.
  - destruct (sub_ACRONYM_total s) as [fixed_abbr ->].
    eexists. split; [reflexivity|].
    apply decamelize_fixed, lower_lowered.
Qed.

(* ================================================================== *)
(** ** The structural walker *)

Lemma value_ind_nested (P : value -> Prop) :
  P VNone -> (forall b, P (VBool b)) -> (forall z, P (VInt z)) ->
  (forall s, P (VStr s)) ->
  (forall l, Forall P l -> P (VTuple l)) ->
  (forall l, Forall P l -> P (VList l)) ->
  (forall d, Forall (fun kv => P (fst kv) /\ P (snd kv)) d -> P (VDict d)) ->
  forall v, P v.
Proof.
  intros HNone HBool HInt HStr HTuple HList HDict.
  fix IH 1. intros [ | b | z | s | l | l | d].
  - exact HNone.
  - apply HBool.
  - apply HInt.
  - apply HStr.
  - apply HTuple.
    refine ((fix each (l : list value) : Forall P l :=
               match l with
               | [] => Forall_nil _
               | x :: l' => Forall_cons _ (IH x) (each l')
               end) l).
  - apply HList.
    refine ((fix each (l : list value) : Forall P l :=
               match l with
               | [] => Forall_nil _
               | x :: l' => Forall_cons _ (IH x) (each l')
               end) l).
  - apply HDict.
    refine ((fix each (d : list (value * value))
               : Forall (fun kv => P (fst kv) /\ P (snd kv)) d :=
               match d with
               | [] => Forall_nil _
               | (k, x) :: d' =>
                   @Forall_cons _ (fun kv => P (fst kv) /\ P (snd kv))
                     (k, x) d' (conj (IH k) (IH x)) (each d')
               end) d).
Qed.

Lemma process_keys_VList fn l :
  _process_keys fn (VList l)
  = (l' <- mapM (_process_keys fn) l ;; Ok (VList l')).
Proof.
  cbn [_process_keys]. f_equal.
  induction l as [|x l IH]; [reflexivity|].
  cbn [mapM]. rewrite <- IH. reflexivity.
Qed.

Lemma process_keys_VDict fn d :
  _process_keys fn (VDict d)
  = (d' <- store_items fn d [] ;; Ok (VDict d')).
Proof.
  cbn [_process_keys]. f_equal.
  generalize (@nil (value * value)) as acc.
  induction d as [|[k x] d IH]; intros acc; [reflexivity|].
  cbn [store_items]. destruct (fn k) as [k'|e]; [|reflexivity].
  cbn [bind]. destruct (_process_keys fn x) as [x'|e]; [|reflexivity].
  cbn [bind]. destruct (hashable k'); [apply IH | reflexivity].
Qed.

Lemma process_keys_scalar fn v :
  is_list_or_mapping v = false -> _process_keys fn v = Ok v.
Proof. destruct v; intros H; try discriminate; reflexivity. Qed.

Lemma camelize_eq v :
  camelize v
  = if is_list_or_mapping v then _process_keys camelize v else camelize_str v.
Proof. destruct v; reflexivity. Qed.

Lemma decamelize_eq v :
  decamelize v
  = if is_list_or_mapping v then _process_keys decamelize v
    else decamelize_str v.
Proof. destruct v; reflexivity. Qed.

Lemma hashable_scalar k : hashable k = true -> is_list_or_mapping k = false.
Proof. destruct k; intros H; try discriminate; reflexivity. Qed.

Lemma key_eqb_refl k : hashable k = true -> key_eqb k k = true.
Proof.
  induction k as [ | b | z | s | l IH | l IH | d IH] using value_ind_nested;
    intros H; try discriminate.
  - reflexivity.
  - destruct b; reflexivity.
  - cbn. apply Z.eqb_refl.
  - cbn. unfold str_eqb. destruct (list_eq_dec char_dec s s); congruence.
  - cbn [hashable] in H. cbn [key_eqb].
    induction l as [|x l IHl]; [reflexivity|].
    cbn [forallb] in H. apply andb_prop in H as [Hx Hl].
    inversion IH as [|? ? Px Pl]; subst.
    rewrite (Px Hx), (IHl Pl Hl). reflexivity.
Qed.

Lemma key_eqb_str_l t k : is_str k = false -> key_eqb (VStr t) k = false.
Proof. destruct k; intros H; try discriminate; reflexivity. Qed.

Lemma key_eqb_str_r t k : is_str k = false -> key_eqb k (VStr t) = false.
Proof. destruct k as [ | [] | | | | | ]; intros H; try discriminate; reflexivity. Qed.

Lemma str_eqb_sym a b : str_eqb a b = str_eqb b a.
Proof.
  unfold str_eqb.
  destruct (list_eq_dec char_dec a b), (list_eq_dec char_dec b a);
    congruence.
Qed.

Lemma key_eqb_sym a : forall b, key_eqb a b = key_eqb b a.
Proof.
  induction a as [ | b | z | s | l IH | l IH | d IH] using value_ind_nested;
    intros [ | b' | z' | s' | l' | l' | d']; try reflexivity.
  - cbn. apply Z.eqb_sym.
  - cbn. apply Z.eqb_sym.
  - cbn. apply Z.eqb_sym.
  - cbn. apply Z.eqb_sym.
  - cbn. apply str_eqb_sym.
  - cbn [key_eqb]. revert l'.
    induction l as [|x l IHl]; intros [|y l']; try reflexivity.
    inversion IH as [|? ? Px Pl]; subst.
    rewrite (Px y), (IHl Pl l'). reflexivity.
Qed.

Lemma key_eqb_str_neq c t : c <> VStr t -> key_eqb c (VStr t) = false.
Proof.
  destruct c as [ | [] | | s | | | ]; intros H; try reflexivity.
  cbn. unfold str_eqb. destruct (list_eq_dec char_dec s t); congruence.
Qed.

Section Walker.

(** A converter: the walker on lists and mappings, and on any other value
    either the value itself (the early-out) or a string. *)
Variable fn fn_str : value -> result value.

Hypothesis fn_eq :
  forall v, fn v = if is_list_or_mapping v then _process_keys fn v
                   else fn_str v.

Hypothesis fn_str_spec :
  forall v, str_defined v = true ->
    exists t, fn_str v = if early_out v then Ok v else Ok (VStr t).

Lemma fn_key k :
  key_ok k = true ->
  exists k', fn k = Ok k' /\ hashable k' = true
             /\ (k' = k \/ exists t, k' = VStr t).
Proof.
  intros Hk. apply andb_prop in Hk as [Hk Hd].
  rewrite fn_eq, (hashable_scalar _ Hk).
  destruct (fn_str_spec k Hd) as [t ->].
  destruct (early_out k); eexists; (split; [reflexivity|]); eauto.
Qed.

Lemma store_items_ok d :
  Forall (fun kv => well_formed (snd kv) = true ->
                    exists x', _process_keys fn (snd kv) = Ok x') d ->
  wf_items d = true ->
  forall acc, exists cs,
    converted fn d cs
    /\ store_items fn d acc = Ok (fold_left store_one cs acc).
Proof.
  induction 1 as [|[k x] d Hx _ IH]; intros Hwf acc.
  - exists []. split; [constructor | reflexivity].
  - cbn [wf_items forallb] in Hwf. apply andb_prop in Hwf as [Hkx Hwf].
    apply andb_prop in Hkx as [Hk Hwx].
    destruct (fn_key k Hk) as (k' & Ek & Hk' & _).
    destruct (Hx Hwx) as [x' Ex]. cbn [snd] in Ex.
    destruct (IH Hwf (dict_setitem acc k' x')) as (cs & Hcs & Es).
    exists ((k', x') :: cs). split.
    + constructor; [split; assumption | exact Hcs].
    + cbn [store_items]. rewrite Ek. cbn [bind]. rewrite Ex. cbn [bind].
      rewrite Hk'. exact Es.
Qed.

Lemma mapM_ok (l : list value) :
  Forall (fun x => well_formed x = true ->
                   exists x', _process_keys fn x = Ok x') l ->
  forallb well_formed l = true ->
  exists l', mapM (_process_keys fn) l = Ok l'
             /\ Forall2 (fun x x' => _process_keys fn x = Ok x') l l'.
Proof.
  induction 1 as [|x l Hx _ IH]; intros Hwf.
  - exists []. split; [reflexivity | constructor].
  - cbn [forallb] in Hwf. apply andb_prop in Hwf as [Hwx Hwf].
    destruct (Hx Hwx) as [x' Ex]. destruct (IH Hwf) as (l' & El & Hl).
    exists (x' :: l'). split.
    + cbn [mapM]. rewrite Ex. cbn [bind]. rewrite El. reflexivity.
    + constructor; assumption.
Qed.

(** The walker returns on every well-formed value. *)
Lemma walker_total v :
  well_formed v = true -> exists v', _process_keys fn v = Ok v'.
Proof.
  induction v as [ | b | z | s | l IH | l IH | d IH] using value_ind_nested;
    intros Hwf; try (eexists; reflexivity).
  - rewrite process_keys_VList.
    destruct (mapM_ok IH Hwf) as (l' & -> & _). eexists; reflexivity.
  - rewrite process_keys_VDict.
    assert (IH' : Forall (fun kv => well_formed (snd kv) = true ->
                    exists x', _process_keys fn (snd kv) = Ok x') d).
    { eapply Forall_impl; [|exact IH]. intros kv [_ H]. exact H. }
    destruct (store_items_ok IH' Hwf []) as (cs & _ & ->).
    eexists; reflexivity.
Qed.

Lemma walker_total_all (l : list value) :
  Forall (fun x => well_formed x = true ->
                   exists x', _process_keys fn x = Ok x') l.
Proof. apply Forall_forall. intros x _. apply walker_total. Qed.

Lemma walker_total_items (d : list (value * value)) :
  Forall (fun kv => well_formed (snd kv) = true ->
                    exists x', _process_keys fn (snd kv) = Ok x') d.
Proof. apply Forall_forall. intros x _. apply walker_total. Qed.

(** A mapping: the items are converted, then stored one by one. *)
Lemma walk_dict d :
  wf_items d = true ->
  exists cs, converted fn d cs
             /\ _process_keys fn (VDict d) = Ok (VDict (store_all cs)).
Proof.
  intros Hwf. rewrite process_keys_VDict.
  destruct (store_items_ok (walker_total_items d) Hwf []) as (cs & Hcs & ->).
  exists cs. split; [exact Hcs | reflexivity].
Qed.

(** *** Storing items whose keys are all different *)

Lemma forallb_map_comp (A B : Type) (f : B -> bool) (g : A -> B) l :
  forallb f (map g l) = forallb (fun x => f (g x)) l.
Proof.
  induction l as [|a l IH]; [reflexivity|].
  cbn [map forallb]. rewrite IH. reflexivity.
Qed.

Lemma dict_setitem_fresh acc k x :
  fresh_for acc k = true -> dict_setitem acc k x = acc ++ [(k, x)].
Proof.
  induction acc as [|[k0 x0] acc IH]; intros H; [reflexivity|].
  cbn [fresh_for forallb fst] in H. apply andb_prop in H as [H0 H].
  apply negb_true_iff in H0. cbn [dict_setitem app].
  rewrite H0, IH by exact H. reflexivity.
Qed.

Lemma unique_keys_before l1 k l2 :
  unique_keys (l1 ++ k :: l2) = true ->
  forallb (fun k0 => negb (key_eqb k0 k)) l1 = true.
Proof.
  induction l1 as [|a l1 IH]; intros H; [reflexivity|].
  cbn [app unique_keys] in H. apply andb_prop in H as [Ha H].
  cbn [forallb]. rewrite (IH H), andb_true_r.
  rewrite forallb_app in Ha. apply andb_prop in Ha as [_ Ha].
  cbn [forallb] in Ha. apply andb_prop in Ha as [Ha _]. exact Ha.
Qed.

Lemma unique_keys_after l1 k l2 :
  unique_keys (l1 ++ k :: l2) = true ->
  forallb (fun k' => negb (key_eqb k k')) l2 = true.
Proof.
  induction l1 as [|a l1 IH]; intros H.
  - cbn [app unique_keys] in H. apply andb_prop in H as [H _]. exact H.
  - cbn [app unique_keys] in H. apply andb_prop in H as [_ H]. exact (IH H).
Qed.

Lemma store_distinct cs :
  forall acc, unique_keys (map fst (acc ++ cs)) = true ->
              fold_left store_one cs acc = acc ++ cs.
Proof.
  induction cs as [|[k x] cs IH]; intros acc H.
  - symmetry; apply app_nil_r.
  - cbn [fold_left]. unfold store_one at 2. cbn [fst snd].
    rewrite dict_setitem_fresh.
    + rewrite IH; rewrite <- app_assoc; [reflexivity | exact H].
    + rewrite map_app in H. cbn [map fst] in H.
      apply unique_keys_before in H. unfold fresh_for.
      rewrite forallb_map_comp in H. exact H.
Qed.

Lemma store_all_distinct cs :
  unique_keys (map fst cs) = true -> store_all cs = cs.
Proof. intros H. unfold store_all. rewrite store_distinct; [reflexivity | exact H]. Qed.

Lemma converted_scalars d cs :
  converted fn d cs ->
  forallb (fun x => negb (is_list_or_mapping x)) (map snd d) = true ->
  map snd cs = map snd d.
Proof.
  induction 1 as [|[k x] [k' x'] d cs [_ Hx] _ IH]; intros H; [reflexivity|].
  cbn [map snd forallb] in *. apply andb_prop in H as [Hs H].
  apply negb_true_iff in Hs. rewrite (process_keys_scalar fn _ Hs) in Hx.
  injection Hx as <-. rewrite (IH H). reflexivity.
Qed.

(** A sequence of mappings: same length, same order, each mapping walked. *)
Lemma walk_mappings ds :
  forallb wf_items ds = true ->
  exists ds',
    fn (VList (map VDict ds)) = Ok (VList (map VDict ds'))
    /\ length ds' = length ds
    /\ Forall2 (fun d d' => exists cs,
                  converted fn d cs /\ d' = store_all cs) ds ds'.
Proof.
  intros Hwf. rewrite fn_eq. cbn [is_list_or_mapping].
  rewrite process_keys_VList.
  assert (H : exists ds',
             mapM (_process_keys fn) (map VDict ds) = Ok (map VDict ds')
             /\ Forall2 (fun d d' => exists cs,
                           converted fn d cs /\ d' = store_all cs) ds ds').
  { induction ds as [|d ds IH].
    - exists []. split; [reflexivity | constructor].
    - cbn [forallb] in Hwf. apply andb_prop in Hwf as [Hd Hwf].
      destruct (IH Hwf) as (ds' & E & H).
      destruct (walk_dict d Hd) as (cs & Hcs & Ed).
      exists (store_all cs :: ds'). split.
      + cbn [map mapM]. rewrite Ed. cbn [bind]. rewrite E. reflexivity.
      + constructor; [exists cs; auto | exact H]. }
  destruct H as (ds' & -> & H). exists ds'. split; [reflexivity|].
  split; [symmetry; eapply Forall2_length; exact H | exact H].
Qed.

(** *** A key the converter keeps *)

Lemma dict_get_here a k x b :
  fresh_for a k = true -> key_eqb k k = true ->
  dict_get (a ++ (k, x) :: b) k = Some x.
Proof.
  intros Ha Hk. induction a as [|[k0 x0] a IH]; cbn [app dict_get].
  - rewrite Hk. reflexivity.
  - cbn [fresh_for forallb fst] in Ha. apply andb_prop in Ha as [H0 Ha].
    apply negb_true_iff in H0. rewrite H0. exact (IH Ha).
Qed.

Lemma dict_setitem_keeps a k x b k' v :
  fresh_for a k = true -> key_eqb k k' = false ->
  exists a' b',
    dict_setitem (a ++ (k, x) :: b) k' v = a' ++ (k, x) :: b'
    /\ fresh_for a' k = true.
Proof.
  intros Ha Hk. induction a as [|[k0 x0] a IH]; cbn [app dict_setitem].
  - rewrite Hk. exists [], (dict_setitem b k' v). split; reflexivity.
  - cbn [fresh_for forallb fst] in Ha. apply andb_prop in Ha as [H0 Ha].
    destruct (key_eqb k0 k').
    + exists ((k0, v) :: a), b. split; [reflexivity|].
      cbn [fresh_for forallb fst]. rewrite H0. exact Ha.
    + destruct (IH Ha) as (a' & b' & E & Ha').
      exists ((k0, x0) :: a'), b'. rewrite E. split; [reflexivity|].
      cbn [fresh_for forallb fst]. rewrite H0. exact Ha'.
Qed.

Lemma fold_keeps k x cs :
  forall a b,
    fresh_for a k = true ->
    Forall (fun kv => key_eqb k (fst kv) = false) cs ->
    exists a' b',
      fold_left store_one cs (a ++ (k, x) :: b) = a' ++ (k, x) :: b'
      /\ fresh_for a' k = true.
Proof.
  induction cs as [|[k' v] cs IH]; intros a b Ha Hcs.
  - exists a, b. split; [reflexivity | exact Ha].
  - inversion Hcs as [|? ? Hk Hrest]; subst. cbn [fst] in Hk.
    cbn [fold_left]. unfold store_one at 2. cbn [fst snd].
    destruct (@dict_setitem_keeps a k x b k' v Ha Hk) as (a' & b' & -> & Ha').
    apply IH; assumption.
Qed.

Lemma dict_setitem_keys acc k x k0 :
  In k0 (map fst (dict_setitem acc k x)) -> In k0 (map fst acc) \/ k0 = k.
Proof.
  induction acc as [|[k1 x1] acc IH]; cbn [dict_setitem map fst In].
  - intros [H|[]]; auto.
  - destruct (key_eqb k1 k); cbn [map fst In]; intuition.
Qed.

Lemma fold_keys cs :
  forall acc k0,
    In k0 (map fst (fold_left store_one cs acc)) ->
    In k0 (map fst acc) \/ In k0 (map fst cs).
Proof.
  induction cs as [|[k x] cs IH]; intros acc k0 H; [auto|].
  cbn [fold_left] in H. apply IH in H as [H|H].
  - unfold store_one in H. cbn [fst snd] in H.
    apply dict_setitem_keys in H as [H| ->]; [auto | right; left; reflexivity].
  - right; right; exact H.
Qed.

(** A converted key is the key itself or a string. *)
Lemma converted_keys d cs :
  converted fn d cs -> wf_items d = true ->
  Forall2 (fun k k' => k' = k \/ exists t, k' = VStr t)
          (map fst d) (map fst cs).
Proof.
  induction 1 as [|[k x] [k' x'] d cs [Hk _] _ IH]; intros Hwf;
    [constructor|].
  cbn [wf_items forallb] in Hwf. apply andb_prop in Hwf as [Hkx Hwf].
  apply andb_prop in Hkx as [Hh _].
  cbn [map fst] in *. constructor; [|exact (IH Hwf)].
  destruct (fn_key k Hh) as (k'' & E & _ & Hor).
  rewrite E in Hk. injection Hk as <-. exact Hor.
Qed.

Lemma converted_differ_before k ks ks' :
  is_str k = false ->
  Forall2 (fun k0 k' => k' = k0 \/ exists t, k' = VStr t) ks ks' ->
  forallb (fun k0 => negb (key_eqb k0 k)) ks = true ->
  forall k', In k' ks' -> key_eqb k' k = false.
Proof.
  intros Hs. induction 1 as [|k0 k1 ks ks' Hor _ IH]; intros Hu k' Hin.
  - destruct Hin.
  - cbn [forallb] in Hu. apply andb_prop in Hu as [H0 Hu].
    destruct Hin as [<-|Hin]; [|exact (IH Hu _ Hin)].
    destruct Hor as [->|[t ->]].
    + apply negb_true_iff. exact H0.
    + apply key_eqb_str_l. exact Hs.
Qed.

Lemma converted_differ_after k ks ks' :
  is_str k = false ->
  Forall2 (fun k0 k' => k' = k0 \/ exists t, k' = VStr t) ks ks' ->
  forallb (fun k0 => negb (key_eqb k k0)) ks = true ->
  Forall (fun k' => key_eqb k k' = false) ks'.
Proof.
  intros Hs. induction 1 as [|k0 k1 ks ks' Hor _ IH]; intros Hu;
    [constructor|].
  cbn [forallb] in Hu. apply andb_prop in Hu as [H0 Hu].
  constructor; [|exact (IH Hu)].
  destruct Hor as [->|[t ->]].
  - apply negb_true_iff. exact H0.
  - apply key_eqb_str_r. exact Hs.
Qed.

(** *** What the output mapping holds for one key *)

Lemma dict_get_none d k :
  (forall c, In c (map fst d) -> key_eqb c k = false) -> dict_get d k = None.
Proof.
  induction d as [|[k0 x0] d IH]; intros H; [reflexivity|].
  cbn [dict_get]. rewrite (H k0) by (left; reflexivity).
  apply IH. intros c Hin. apply H. right. exact Hin.
Qed.

Lemma has_key_get d k :
  existsb (fun c => key_eqb c k) (map fst d) = true ->
  exists y, dict_get d k = Some y.
Proof.
  induction d as [|[k0 x0] d IH]; cbn [map fst existsb dict_get];
    [discriminate|].
  destruct (key_eqb k0 k); [eauto | exact IH].
Qed.

Lemma setitem_has acc k x k0 :
  existsb (fun c => key_eqb c k0) (map fst acc) = true ->
  existsb (fun c => key_eqb c k0) (map fst (dict_setitem acc k x)) = true.
Proof.
  induction acc as [|[k1 x1] acc IH]; cbn [map fst existsb dict_setitem];
    [discriminate|].
  destruct (key_eqb k1 k); cbn [map fst existsb];
    destruct (key_eqb k1 k0); auto.
Qed.

Lemma setitem_has_new acc k x :
  key_eqb k k = true ->
  existsb (fun c => key_eqb c k) (map fst (dict_setitem acc k x)) = true.
Proof.
  intros Hk. induction acc as [|[k1 x1] acc IH]; cbn [dict_setitem].
  - cbn. rewrite Hk. reflexivity.
  - destruct (key_eqb k1 k) eqn:E; cbn [map fst existsb]; rewrite E;
      [reflexivity | exact IH].
Qed.

Lemma fold_has cs :
  forall acc k0,
    existsb (fun c => key_eqb c k0) (map fst acc) = true ->
    existsb (fun c => key_eqb c k0)
      (map fst (fold_left store_one cs acc)) = true.
Proof.
  induction cs as [|[k x] cs IH]; intros acc k0 H; [exact H|].
  cbn [fold_left]. apply IH. unfold store_one. cbn [fst snd].
  apply setitem_has. exact H.
Qed.

(** A converted key that differs from the converted keys before it and
    after it keeps its value. *)
Lemma store_all_entry cs1 k' x' cs3 :
  key_eqb k' k' = true ->
  (forall c, In c (map fst cs1) -> key_eqb c k' = false) ->
  Forall (fun kv => key_eqb k' (fst kv) = false) cs3 ->
  dict_get (store_all (cs1 ++ (k', x') :: cs3)) k' = Some x'.
Proof.
  intros Hk Hbefore Hafter.
  unfold store_all. rewrite fold_left_app. cbn [fold_left].
  unfold store_one at 2. cbn [fst snd].
  assert (Hfresh : fresh_for (fold_left store_one cs1 []) k' = true).
  { apply forallb_forall. intros [k0 x0] Hin.
    apply negb_true_iff. cbn [fst].
    apply (in_map fst) in Hin. cbn [fst] in Hin.
    apply fold_keys in Hin as [[]|Hin]. exact (Hbefore _ Hin). }
  rewrite dict_setitem_fresh by exact Hfresh.
  destruct (@fold_keeps k' x' cs3 (fold_left store_one cs1 []) [] Hfresh Hafter)
    as (a' & b' & -> & Ha').
  apply dict_get_here; assumption.
Qed.

(** A converted key is stored, whatever is stored before and after it. *)
Lemma store_all_has cs1 k' x' cs3 :
  key_eqb k' k' = true ->
  exists y, dict_get (store_all (cs1 ++ (k', x') :: cs3)) k' = Some y.
Proof.
  intros Hk. apply has_key_get.
  unfold store_all. rewrite fold_left_app. cbn [fold_left].
  apply fold_has. unfold store_one at 1. cbn [fst snd].
  apply setitem_has_new. exact Hk.
Qed.

Lemma store_all_absent cs k :
  (forall c, In c (map fst cs) -> key_eqb c k = false) ->
  dict_get (store_all cs) k = None.
Proof.
  intros H. apply dict_get_none. intros c Hin.
  apply fold_keys in Hin as [[]|Hin]. exact (H _ Hin).
Qed.

Lemma converted_key_from d cs k' :
  converted fn d cs -> In k' (map fst cs) ->
  exists kv, In kv d /\ fn (fst kv) = Ok k'.
Proof.
  induction 1 as [|kv kv' d cs [Hk _] _ IH]; cbn [map In]; [intros []|].
  intros [<-|H].
  - exists kv. auto.
  - destruct (IH H) as (kv0 & Hin & E). exists kv0. auto.
Qed.

Lemma converted_value_from d cs x' :
  converted fn d cs -> In x' (map snd cs) ->
  exists kv, In kv d /\ _process_keys fn (snd kv) = Ok x'.
Proof.
  induction 1 as [|kv kv' d cs [_ Hx] _ IH]; cbn [map In]; [intros []|].
  intros [<-|H].
  - exists kv. auto.
  - destruct (IH H) as (kv0 & Hin & E). exists kv0. auto.
Qed.

(** A key that is not a string: kept with its walked value when its text
    takes the early-out, replaced by a string otherwise. *)
Lemma non_string_key pre k x post :
  wf_items (pre ++ (k, x) :: post) = true ->
  unique_keys (map fst (pre ++ (k, x) :: post)) = true ->
  is_str k = false ->
  exists d' x',
    _process_keys fn (VDict (pre ++ (k, x) :: post)) = Ok (VDict d')
    /\ _process_keys fn x = Ok x'
    /\ if early_out k then dict_get d' k = Some x'
       else exists t,
           fn k = Ok (VStr t)
           /\ dict_get d' k = None
           /\ (exists y, dict_get d' (VStr t) = Some y)
           /\ (converts_alone fn (pre ++ post) (VStr t) ->
               dict_get d' (VStr t) = Some x').
Proof.
  intros Hwf Hu Hs.
  destruct (walk_dict _ Hwf) as (cs & Hcs & E).
  unfold converted in Hcs.
  apply Forall2_app_inv_l in Hcs as (cs1 & cs2 & H1 & H2 & ->).
  inversion H2 as [|? [k' x'] ? cs3 [Hk Hx] H3]; subst.
  cbn [fst snd] in Hk, Hx.
  unfold wf_items in Hwf. rewrite forallb_app in Hwf.
  apply andb_prop in Hwf as [Hpre Hwf]. cbn [forallb] in Hwf.
  apply andb_prop in Hwf as [Hh Hpost]. apply andb_prop in Hh as [Hh _].
  pose proof Hh as Hok. apply andb_prop in Hh as [Hh Hd].
  pose proof (converted_keys H1 Hpre) as K1.
  pose proof (converted_keys H3 Hpost) as K3.
  rewrite map_app in Hu. cbn [map fst] in Hu.
  assert (Before : forall c, In c (map fst cs1) -> key_eqb c k = false).
  { intros c Hin. eapply converted_differ_before;
      [exact Hs | exact K1 | eapply unique_keys_before; exact Hu | exact Hin]. }
  assert (After : Forall (fun c => key_eqb k c = false) (map fst cs3)).
  { eapply converted_differ_after;
      [exact Hs | exact K3 | eapply unique_keys_after; exact Hu]. }
  exists (store_all (cs1 ++ (k', x') :: cs3)), x'.
  split; [exact E|]. split; [exact Hx|].
  rewrite fn_eq, (hashable_scalar _ Hh) in Hk.
  destruct (fn_str_spec k Hd) as [t Et]. rewrite Et in Hk.
  destruct (early_out k) eqn:He; injection Hk as <-.
  - apply store_all_entry.
    + apply key_eqb_refl, Hh.
    + exact Before.
    + rewrite Forall_map in After. exact After.
  - exists t. split; [rewrite fn_eq, (hashable_scalar _ Hh), Et; reflexivity|].
    split; [|split].
    + apply store_all_absent. intros c Hin.
      rewrite map_app in Hin. cbn [map fst] in Hin.
      apply in_app_or in Hin as [Hin|[<-|Hin]].
      * exact (Before _ Hin).
      * apply key_eqb_str_l, Hs.
      * rewrite Forall_forall in After. rewrite key_eqb_sym.
        exact (After _ Hin).
    + apply store_all_has. apply key_eqb_refl. reflexivity.
    + intros Halone. apply store_all_entry.
      * apply key_eqb_refl. reflexivity.
      * intros c Hin.
        destruct (@converted_key_from pre cs1 c H1 Hin) as (kv & Hkv & Ekv).
        apply key_eqb_str_neq. intros ->.
        apply (Halone kv); [apply in_or_app; left; exact Hkv | exact Ekv].
      * apply Forall_forall. intros kv' Hin.
        apply (in_map fst) in Hin.
        destruct (@converted_key_from post cs3 _ H3 Hin) as (kv & Hkv & Ekv).
        rewrite key_eqb_sym. apply key_eqb_str_neq. intros Eq.
        apply (Halone kv); [apply in_or_app; right; exact Hkv|].
        rewrite Ekv, Eq. reflexivity.
Qed.

End Walker.

(* ================================================================== *)
(** ** The two converters as instances of the walker *)

Lemma str_defined_ok v :
  str_defined v = true -> exists s, str_or_empty v = Ok s.
Proof.
  unfold str_defined. destruct (str_or_empty v) as [s|e]; [eauto|discriminate].
Qed.

Lemma camelize_str_Ok v s :
  str_or_empty v = Ok s ->
  camelize_str v
  = if isupper s || isnumeric s then Ok v
    else Ok (VStr (camel_head (camel_prepare s))).
Proof.
  intros E. unfold camelize_str. rewrite E. cbn [bind].
  split_if; [reflexivity|].
  fold (camel_prepare s). rewrite sub_UNDERSCORE. reflexivity.
Qed.

Lemma decamelize_str_Ok v s :
  str_or_empty v = Ok s ->
  decamelize_str v
  = if isupper s || isnumeric s then Ok v
    else match Re.sub ACRONYM_RE title_match s with
         | Some fixed_abbr =>
             Ok (VStr (lower (join (lit "_")
                         (filter non_empty (Re.split SPLIT_RE fixed_abbr)))))
         | None => Raise IndexError
         end.
Proof. intros E. unfold decamelize_str. rewrite E. reflexivity. Qed.

Lemma camelize_str_spec v :
  str_defined v = true ->
  exists t, camelize_str v = if early_out v then Ok v else Ok (VStr t).
Proof.
  intros H. destruct (str_defined_ok v H) as [s E].
  exists (camel_head (camel_prepare s)).
  rewrite (camelize_str_Ok v E). unfold early_out. rewrite E. reflexivity.
Qed.

Lemma decamelize_str_spec v :
  str_defined v = true ->
  exists t, decamelize_str v = if early_out v then Ok v else Ok (VStr t).
Proof.
  intros H. destruct (str_defined_ok v H) as [s E].
  rewrite (decamelize_str_Ok v E). unfold early_out. rewrite E.
  destruct (sub_ACRONYM_total s) as [fixed_abbr ->].
  eexists. split_if; reflexivity.
Qed.

Lemma camelize_coerces v s :
  is_list_or_mapping v = false -> str_or_empty v = Ok s ->
  isupper s || isnumeric s = false ->
  camelize v = camelize (VStr s).
Proof.
  intros Hv E He. rewrite (camelize_eq v), Hv, (camelize_str_Ok v E), He.
  rewrite camelize_VStr, He. reflexivity.
Qed.

Lemma decamelize_coerces v s :
  is_list_or_mapping v = false -> str_or_empty v = Ok s ->
  isupper s || isnumeric s = false ->
  decamelize v = decamelize (VStr s).
Proof.
  intros Hv E He. rewrite (decamelize_eq v), Hv, (decamelize_str_Ok v E), He.
  rewrite decamelize_VStr, He. reflexivity.
Qed.

Lemma camelize_early v s :
  is_list_or_mapping v = false -> str_or_empty v = Ok s ->
  isupper s || isnumeric s = true -> camelize v = Ok v.
Proof.
  intros Hv E He. rewrite (camelize_eq v), Hv, (camelize_str_Ok v E), He.
  reflexivity.
Qed.

Lemma decamelize_early v s :
  is_list_or_mapping v = false -> str_or_empty v = Ok s ->
  isupper s || isnumeric s = true -> decamelize v = Ok v.
Proof.
  intros Hv E He. rewrite (decamelize_eq v), Hv, (decamelize_str_Ok v E), He.
  reflexivity.
Qed.






Lemma walked_mapping_of fn d cs :
  converted fn d cs -> walked_mapping fn d (store_all cs).
Proof.
  intros Hcs. exists cs. split; [exact Hcs|]. split; [reflexivity|].
  intros Hu. rewrite (store_all_distinct _ Hu). split; [reflexivity|].
  intros Hs. eapply converted_scalars; eassumption.
Qed.

Lemma walk_sequence fn fn_str :
  (forall v, fn v = if is_list_or_mapping v then _process_keys fn v
                    else fn_str v) ->
  (forall v, str_defined v = true ->
             exists t, fn_str v = if early_out v then Ok v else Ok (VStr t)) ->
  forall ds, forallb wf_items ds = true ->
  exists ds',
    fn (VList (map VDict ds)) = Ok (VList (map VDict ds'))
    /\ length ds' = length ds
    /\ Forall2 (walked_mapping fn) ds ds'.
Proof.
  intros Heq Hspec ds Hwf.
  destruct (@walk_mappings fn fn_str Heq Hspec ds Hwf) as (ds' & E & Hlen & H).
  exists ds'. split; [exact E|]. split; [exact Hlen|].
  eapply Forall2_impl; [|exact H].
  intros d d' (cs & Hcs & ->). apply walked_mapping_of. exact Hcs.
Qed.

Lemma walk_strings fn ss :
  _process_keys fn (VList (map VStr ss)) = Ok (VList (map VStr ss)).
Proof.
  rewrite process_keys_VList.
  assert (E : mapM (_process_keys fn) (map VStr ss) = Ok (map VStr ss)).
  { induction ss as [|s ss IH]; [reflexivity|].
    cbn [map mapM _process_keys bind]. rewrite IH. reflexivity. }
  rewrite E. reflexivity.
Qed.

Lemma no_case_when_upper s :
  forallb is_upper_char s = true ->
  existsb (fun c => is_lower_char c || is_title_char c) s = false.
Proof.
  induction s as [|c s IH]; intros H; [reflexivity|].
  cbn [forallb] in H. apply andb_prop in H as [Hc H].
  cbn [existsb]. rewrite (upper_not_low_title _ Hc), (IH H). reflexivity.
Qed.

Lemma early_out_all_upper s :
  s <> [] -> forallb is_upper_char s = true -> isupper s = true.
Proof.
  intros Hne H. unfold isupper. rewrite (no_case_when_upper _ H).
  destruct s as [|c s]; [congruence|].
  cbn [forallb] in H. apply andb_prop in H as [Hc _].
  cbn [existsb]. rewrite Hc. reflexivity.
Qed.

Lemma early_out_all_digits s :
  s <> [] -> forallb is_digit_char s = true -> isnumeric s = true.
Proof.
  intros Hne H. unfold isnumeric. rewrite H.
  destruct s; [congruence | reflexivity].
Qed.

Lemma existsb_or (A : Type) (f g : A -> bool) l :
  existsb (fun a => f a || g a) l = existsb f l || existsb g l.
Proof.
  induction l as [|a l IH]; [reflexivity|]. cbn [existsb]. rewrite IH.
  destruct (f a), (g a), (existsb f l); reflexivity.
Qed.

Lemma camel_prepare_length s :
  ascii_only s = true -> length (camel_prepare s) = length s.
Proof.
  intros Hs. unfold camel_prepare. split_if; [|reflexivity].
  destruct s as [|c s]; [reflexivity|].
  cbn [ascii_only forallb] in Hs. apply andb_prop in Hs as [Hc _].
  rewrite (lower_first_ascii _ _ Hc). reflexivity.
Qed.

Lemma ascii_camel_prepare s :
  ascii_only s = true -> ascii_only (camel_prepare s) = true.
Proof.
  intros H. unfold camel_prepare. split_if; [|exact H].
  destruct s as [|c s]; [reflexivity|].
  cbn [ascii_only forallb] in H. apply andb_prop in H as [Hc H].
  rewrite (lower_first_ascii _ _ Hc). cbn [ascii_only forallb].
  rewrite (ascii_lower_char _ Hc). exact H.
Qed.

Lemma take_delims_no_delim a s :
  a <> [] -> no_delim a = true -> take_delims (a ++ s) = [].
Proof.
  destruct a as [|x a]; [congruence|]. intros _ H.
  cbn [no_delim forallb] in H. apply andb_prop in H as [Hx _].
  apply negb_true_iff in Hx. cbn [app take_delims]. rewrite Hx. reflexivity.
Qed.

Lemma skip_delims_no_delim a s :
  a <> [] -> no_delim a = true -> skip_delims (a ++ s) = a ++ s.
Proof.
  destruct a as [|x a]; [congruence|]. intros _ H.
  cbn [no_delim forallb] in H. apply andb_prop in H as [Hx _].
  apply negb_true_iff in Hx. cbn [app skip_delims]. rewrite Hx. reflexivity.
Qed.

Lemma delim_lower_full c : is_delim c = true -> lower_full c = [c].
Proof. intros H. apply lowered_fixed, delim_lowered, H. Qed.

Lemma take_delims_prepare s : take_delims (camel_prepare s) = take_delims s.
Proof.
  unfold camel_prepare. split_if; [|reflexivity].
  destruct s as [|c s]; [reflexivity|].
  rewrite lower_first_cons. destruct (is_delim c) eqn:Hd.
  - rewrite (delim_lower_full _ Hd). reflexivity.
  - rewrite take_delims_no_delim;
      [| apply lower_full_not_nil | apply lower_full_no_delim, Hd].
    cbn [take_delims]. rewrite Hd. reflexivity.
Qed.

Lemma trail_prepare s :
  trail_of (skip_delims (camel_prepare s)) = trail_of (skip_delims s).
Proof.
  unfold camel_prepare. split_if; [|reflexivity].
  destruct s as [|c s]; [reflexivity|].
  rewrite lower_first_cons. destruct (is_delim c) eqn:Hd.
  - rewrite (delim_lower_full _ Hd). reflexivity.
  - rewrite skip_delims_no_delim;
      [| apply lower_full_not_nil | apply lower_full_no_delim, Hd].
    rewrite trail_of_no_delim_app by (apply lower_full_no_delim, Hd).
    cbn [skip_delims]. rewrite Hd. rewrite trail_of_cons by exact Hd.
    reflexivity.
Qed.

Lemma camel_prepare_cases s :
  isupper s = false ->
  camel_prepare s = if keeps_first s then s else lower_first s.
Proof.
  intros He. unfold camel_prepare.
  destruct s as [|a [|b s]].
  - reflexivity.
  - cbn [length Nat.eqb negb andb slice_to firstn keeps_first].
    rewrite He. reflexivity.
  - cbn [length Nat.eqb negb andb slice_to firstn keeps_first].
    unfold isupper. cbn [existsb].
    destruct (is_upper_char a), (is_upper_char b), (is_lower_char a),
      (is_title_char a), (is_lower_char b), (is_title_char b); reflexivity.
Qed.

(* ================================================================== *)
(** ** The matches of [ACRONYM_RE] *)

Lemma last_or_cons prev a m : last_or prev (a :: m) = last_or (Some a) m.
Proof. exact (last_or_app prev [a] m). Qed.

Lemma greedy_run_inv p R prev s (k : option char -> str -> option R) out :
  greedy_run p prev s k = Some out ->
  exists pre s', s = pre ++ s' /\ forallb p pre = true
                 /\ k (last_or prev pre) s' = Some out.
Proof.
  revert prev; induction s as [|c s IH]; intros prev H; cbn [greedy_run] in H.
  - exists [], []. auto.
  - destruct (p c) eqn:Hc.
    + destruct (greedy_run p (Some c) s k) eqn:E; cbn [orelse] in H.
      * injection H as <-. apply IH in E as (pre & s' & -> & Hp & E).
        exists (c :: pre), s'. rewrite last_or_cons.
        cbn [forallb]. rewrite Hc. auto.
      * exists [], (c :: s). auto.
    + exists [], (c :: s). auto.
Qed.

Lemma greedy_run_take p R prev pre rest
    (k : option char -> str -> option R) out :
  forallb p pre = true ->
  match rest with c :: _ => p c = false | [] => True end ->
  k (last_or prev pre) rest = Some out ->
  greedy_run p prev (pre ++ rest) k = Some out.
Proof.
  revert prev; induction pre as [|a pre IH]; intros prev Hp Hstop Hk.
  - cbn [app]. destruct rest as [|c rest]; [exact Hk|].
    cbn [greedy_run]. rewrite Hstop. exact Hk.
  - cbn [forallb] in Hp. apply andb_prop in Hp as [Ha Hp].
    cbn [app greedy_run]. rewrite Ha.
    rewrite (IH (Some a) Hp Hstop); [reflexivity|].
    rewrite (last_or_cons prev) in Hk. exact Hk.
Qed.

Lemma rmatch_alt R r1 r2 prev s (k : option char -> str -> option R) :
  rmatch (Alt r1 r2) prev s k
  = orelse (rmatch r1 prev s k) (rmatch r2 prev s k).
Proof. reflexivity. Qed.

Lemma rmatch_seq R r1 r2 prev s (k : option char -> str -> option R) :
  rmatch (Seq r1 r2) prev s k
  = rmatch r1 prev s (fun p s' => rmatch r2 p s' k).
Proof. reflexivity. Qed.

Lemma rmatch_cls R neg items prev s (k : option char -> str -> option R) :
  rmatch (Cls neg items) prev s k
  = match s with
    | c :: s' => if in_class neg items c then k (Some c) s' else None
    | [] => None
    end.
Proof. reflexivity. Qed.

(** [[...]+] followed by [r2]. *)
Lemma rmatch_plus_cls R neg items r2 prev s
    (k : option char -> str -> option R) :
  rmatch (Seq (Plus true (Cls neg items)) r2) prev s k
  = match s with
    | c :: s' =>
        if in_class neg items c
        then greedy_run (in_class neg items) (Some c) s'
               (fun p s'' => rmatch r2 p s'' k)
        else None
    | [] => None
    end.
Proof.
  unfold Plus. rewrite !rmatch_seq, rmatch_cls.
  destruct s as [|c s']; [reflexivity|].
  destruct (in_class neg items c); [|reflexivity].
  apply rmatch_star_cls.
Qed.

Lemma forallb_pointwise (A : Type) (f g : A -> bool) l :
  (forall a, f a = g a) -> forallb f l = forallb g l.
Proof.
  intros H. induction l as [|a l IH]; [reflexivity|].
  cbn [forallb]. rewrite H, IH. reflexivity.
Qed.

(** A match of [ACRONYM_RE] is a run of uppercase letters. *)
Lemma match_at_ACRONYM_upper ma prev s m rest :
  match_at ACRONYM_RE ma prev s = Some (m, rest) ->
  m <> [] /\ forallb is_AZ m = true.
Proof.
  intros H. pose proof (match_at_sound _ _ _ _ H) as [Es _].
  unfold match_at in H.
  destruct (rmatch ACRONYM_RE prev s _) as [rest'|] eqn:E; [|discriminate].
  injection H as Hm <-. clear Hm.
  assert (Hrun : exists c pre, s = (c :: pre) ++ rest'
                               /\ forallb is_AZ (c :: pre) = true).
  { unfold ACRONYM_RE in E. rewrite rmatch_alt, !rmatch_plus_cls in E.
    destruct s as [|c s1]; [discriminate|].
    rewrite class_upper in E.
    destruct (is_AZ c) eqn:Hc; [|discriminate].
    match type of E with
    | orelse ?a ?b = _ => destruct a eqn:Ea; cbn [orelse] in E
    end.
    - injection E as <-.
      apply greedy_run_inv in Ea as (pre & s' & -> & Hp & Ek).
      exists c, pre. split.
      + cbn [rmatch] in Ek.
        destruct s' as [|x [|y s']];
          [| destruct (Nat.eqb (code x) 10); [|discriminate] | discriminate];
          destruct (ma && _); try discriminate;
          injection Ek as <-; reflexivity.
      + cbn [forallb]. rewrite Hc.
        rewrite <- (forallb_pointwise _ _ pre class_upper). exact Hp.
    - apply greedy_run_inv in E as (pre & s' & -> & Hp & Ek).
      exists c, pre. split.
      + cbn [rmatch] in Ek.
        destruct (match s' with [] => None | _ => _ end); [|discriminate].
        destruct (ma && _); [discriminate|]. injection Ek as <-. reflexivity.
      + cbn [forallb]. rewrite Hc.
        rewrite <- (forallb_pointwise _ _ pre class_upper). exact Hp. }
  destruct Hrun as (c & pre & Es' & Hup).
  rewrite Es' in Es. apply app_inv_tail in Es. subst m.
  split; [discriminate | exact Hup].
Qed.

(** What holds of every match at a position of a string in [Q] holds of
    every match of the scan. *)
Lemma scan_loop_hits r (Q : str -> Prop) (good : str -> Prop) :
  (forall c s, Q (c :: s) -> Q s) ->
  (forall ma prev s m rest,
     Q s -> match_at r ma prev s = Some (m, rest) -> good m /\ Q rest) ->
  forall n ma prev s, Q s -> hits_are good (scan_loop n r ma prev s).
Proof.
  intros Htail Hmatch. unfold hits_are.
  induction n as [|n IH]; intros ma prev s HQ; cbn [scan_loop].
  - apply Forall_forall. intros p Hin. apply in_map_iff in Hin as (c & <- & _).
    exact I.
  - destruct (match_at r ma prev s) as [[m rest]|] eqn:E.
    + destruct (Hmatch _ _ _ _ _ HQ E) as [Hg HQr].
      constructor; [exact Hg|].
      destruct (is_empty m); apply IH; assumption.
    + destruct s as [|c s]; [constructor|].
      constructor; [exact I|]. apply IH. exact (Htail _ _ HQ).
Qed.

(** Every match of [ACRONYM_RE] in a scan is a run of letters of [A-Z]. *)
Lemma scan_ACRONYM_AZ s :
  hits_are (fun m => forallb is_AZ m = true) (scan ACRONYM_RE s).
Proof.
  unfold scan.
  apply (@scan_loop_hits ACRONYM_RE (fun _ => True)); [auto | | exact I].
  intros ma prev s0 m rest _ E. split; [|exact I].
  destruct (match_at_ACRONYM_upper _ _ _ E) as [_ Hup]. exact Hup.
Qed.

Lemma AZ_ascii_all U : forallb is_AZ U = true -> ascii_only U = true.
Proof. apply forallb_mono, AZ_ascii. Qed.

(* ================================================================== *)
(** ** The cases of the test suite and of the specification *)

Example camelize_hello_world :
  camelize (VStr (lit "hello_world")) = Ok (VStr (lit "helloWorld")).
Proof. vm_compute. reflexivity. Qed.

Example camelize_hello_world_twice :
  camelize (VStr (lit "hello_world_hello_world"))
  = Ok (VStr (lit "helloWorldHelloWorld")).
Proof. vm_compute. reflexivity. Qed.

Example camelize_HelloWorld :
  camelize (VStr (lit "HelloWorld")) = Ok (VStr (lit "helloWorld")).
Proof. vm_compute. reflexivity. Qed.

Example decamelize_helloWorld :
  decamelize (VStr (lit "helloWorld")) = Ok (VStr (lit "hello_world")).
Proof. vm_compute. reflexivity. Qed.

Example decamelize_helloWorld_twice :
  decamelize (VStr (lit "helloWorldHelloWorld"))
  = Ok (VStr (lit "hello_world_hello_world")).
Proof. vm_compute. reflexivity. Qed.

Example decamelize_HelloWorld :
  decamelize (VStr (lit "HelloWorld")) = Ok (VStr (lit "hello_world")).
Proof. vm_compute. reflexivity. Qed.

Example decamelize_acronym :
  decamelize (VStr (lit "HTTPServer")) = Ok (VStr (lit "http_server")).
Proof. vm_compute. reflexivity. Qed.

Example camelize_nested_mapping :
  camelize (VDict [(VStr (lit "my_key"),
                    VDict [(VStr (lit "inner_key"), VInt 1)])])
  = Ok (VDict [(VStr (lit "myKey"),
                VDict [(VStr (lit "innerKey"), VInt 1)])]).
Proof. vm_compute. reflexivity. Qed.

Example decamelize_list_of_mappings :
  decamelize (VList [VDict [(VStr (lit "myKey"), VInt 1)];
                     VDict [(VStr (lit "otherKey"), VInt 2)]])
  = Ok (VList [VDict [(VStr (lit "my_key"), VInt 1)];
               VDict [(VStr (lit "other_key"), VInt 2)]]).
Proof. vm_compute. reflexivity. Qed.

Example camelize_tuple :
  camelize (VTuple [VInt 1; VInt 2]) = Ok (VStr (lit "(1,2)")).
Proof. vm_compute. reflexivity. Qed.

Example camelize_keys_of_other_types :
  camelize (VDict [(VNone, VInt 1); (VInt (-5), VInt 2); (VInt 7, VInt 3)])
  = Ok (VDict [(VStr [], VInt 1); (VStr (lit "-5"), VInt 2);
               (VInt 7, VInt 3)]).
Proof. vm_compute. reflexivity. Qed.

Example camelize_trailing_delimiter :
  camelize (VStr (lit "a_b_")) = Ok (VStr (lit "aB_")).
Proof. vm_compute. reflexivity. Qed.

Example camelize_upper_then_delimiter :
  camelize (VStr (lit "A_b")) = Ok (VStr (lit "AB")).
Proof. vm_compute. reflexivity. Qed.

(** Characters outside ASCII: a lowercase character without uppercase
    form, a character whose uppercase form is two characters, a character
    whose lowercase form is two characters, and a titlecase character. *)
Example camelize_ordinal_indicator :
  camelize (VStr [ch "A"; ch "_"; U00AA]) = Ok (VStr [ch "A"; U00AA])
  /\ camelize (VStr [ch "A"; U00AA]) = Ok (VStr [ch "a"; U00AA]).
Proof. split; vm_compute; reflexivity. Qed.

Example camelize_sharp_s :
  camelize (VStr [ch "a"; ch "_"; U00DF]) = Ok (VStr (lit "aSS")).
Proof. vm_compute. reflexivity. Qed.

Example camelize_dotted_capital_i :
  camelize (VStr [U0130; ch "a"]) = Ok (VStr [ch "i"; U0307; ch "a"]).
Proof. vm_compute. reflexivity. Qed.

Example converters_on_titlecase :
  camelize (VStr [U01C5]) = Ok (VStr [U01C6])
  /\ decamelize (VStr [U01C5]) = Ok (VStr [U01C6]).
Proof. split; vm_compute; reflexivity. Qed.

(** [str] of an [int] of 4301 digits raises, and so do the converters. *)
Example camelize_long_int :
  camelize (VInt (10 ^ 4300)) = Raise ValueError
  /\ decamelize (VInt (10 ^ 4300)) = Raise ValueError.
Proof. split; vm_compute; reflexivity. Qed.

(* ================================================================== *)
(** ** The claims *)

(** C1 as stated fails: [camelize('A_' + chr(0xAA))] is ['A' + chr(0xAA)]
    (the upper case of U+00AA is itself), and [camelize] of that is
    ['a' + chr(0xAA)]: U+00AA is a lowercase character, so the first two
    characters are no longer upper case and the first one is lower-cased. *)
Lemma C1_camelize_twice_differs :
  ~ (exists r, camelize (VStr [ch "A"; ch "_"; U00AA]) = Ok (VStr r)
               /\ camelize (VStr r) = Ok (VStr r)).
Proof.
  intros (r & E1 & E2). vm_compute in E1. injection E1 as <-.
  vm_compute in E2. discriminate.
Qed.

(** C1, amended.  [decamelize] is idempotent on every string, [camelize] on
    every string of ASCII characters: the converter returns a string on
    which it changes nothing. *)
Theorem C1_converters_idempotent (s : str) :
  (ascii_only s = true ->
   exists r, camelize (VStr s) = Ok (VStr r)
             /\ camelize (VStr r) = Ok (VStr r))
  /\ (exists r, decamelize (VStr s) = Ok (VStr r)
                /\ decamelize (VStr r) = Ok (VStr r)).
Proof. split; [apply camelize_idempotent | apply decamelize_idempotent]. Qed.

Lemma C1_converters_idempotent_witness :
  (exists r, camelize (VStr (lit "Hello_big-world 2")) = Ok (VStr r)
             /\ camelize (VStr r) = Ok (VStr r))
  /\ (exists r, decamelize (VStr (lit "Hello_big-world 2")) = Ok (VStr r)
                /\ decamelize (VStr r) = Ok (VStr r)).
Proof.
  destruct (C1_converters_idempotent (lit "Hello_big-world 2")) as [H1 H2].
  split; [apply H1; reflexivity | exact H2].
Defined.

(** C2 as stated fails: the key [True] of the mapping [{True: 1}] is not
    in the output of [camelize], which is [{'true': 1}]. *)
Lemma C2_bool_key_is_converted :
  ~ (exists d', camelize (VDict [(VBool true, VInt 1)]) = Ok (VDict d')
                /\ dict_get d' (VBool true) = Some (VInt 1)).
Proof.
  intros (d' & E & G). vm_compute in E. injection E as <-.
  vm_compute in G. discriminate.
Qed.

(** C2, amended.  In a mapping whose keys can be hashed, have a text
    ([str(k)] returns) and are pairwise different, take a key [k] that is
    not a string.  Both converters return a mapping [d'].  When the text of
    [k] passes the early-out test ([isupper] or [isnumeric], as for a
    positive integer), [d'] has the key [k] itself, paired with the walked
    value.  Otherwise the converter turns [k] into a string [t], and in [d']
    the key [k] is replaced by [t]: [d'] has no key equal to [k], it has the
    key [t], and [t] is paired with the walked value of [k] when no other
    key of the mapping is converted to [t]. *)
Theorem C2_non_string_keys (pre : list (value * value)) (k x : value)
    (post : list (value * value)) :
  wf_items (pre ++ (k, x) :: post) = true ->
  unique_keys (map fst (pre ++ (k, x) :: post)) = true ->
  is_str k = false ->
  (exists d' x',
     camelize (VDict (pre ++ (k, x) :: post)) = Ok (VDict d')
     /\ _process_keys camelize x = Ok x'
     /\ if early_out k then dict_get d' k = Some x'
        else exists t,
            camelize k = Ok (VStr t)
            /\ dict_get d' k = None
            /\ (exists y, dict_get d' (VStr t) = Some y)
            /\ (converts_alone camelize (pre ++ post) (VStr t) ->
                dict_get d' (VStr t) = Some x'))
  /\ (exists d' x',
        decamelize (VDict (pre ++ (k, x) :: post)) = Ok (VDict d')
        /\ _process_keys decamelize x = Ok x'
        /\ if early_out k then dict_get d' k = Some x'
           else exists t,
               decamelize k = Ok (VStr t)
               /\ dict_get d' k = None
               /\ (exists y, dict_get d' (VStr t) = Some y)
               /\ (converts_alone decamelize (pre ++ post) (VStr t) ->
                   dict_get d' (VStr t) = Some x')).
Proof.
  intros Hwf Hu Hs. split.
  - rewrite (camelize_eq (VDict _)). cbn [is_list_or_mapping].
    exact (@non_string_key camelize camelize_str camelize_eq
             camelize_str_spec pre k x post Hwf Hu Hs).
  - rewrite (decamelize_eq (VDict _)). cbn [is_list_or_mapping].
    exact (@non_string_key decamelize decamelize_str decamelize_eq
             decamelize_str_spec pre k x post Hwf Hu Hs).
Qed.

Lemma C2_non_string_keys_witness :
  (exists d' x',
     camelize (VDict ([(VStr (lit "a_b"), VInt 1); (VInt 7, VNone)]
                      ++ (VBool true, VInt 2) :: [(VInt (-5), VInt 3)]))
     = Ok (VDict d')
     /\ _process_keys camelize (VInt 2) = Ok x'
     /\ if early_out (VBool true) then dict_get d' (VBool true) = Some x'
        else exists t,
            camelize (VBool true) = Ok (VStr t)
            /\ dict_get d' (VBool true) = None
            /\ (exists y, dict_get d' (VStr t) = Some y)
            /\ (converts_alone camelize
                  ([(VStr (lit "a_b"), VInt 1); (VInt 7, VNone)]
                   ++ [(VInt (-5), VInt 3)]) (VStr t) ->
                dict_get d' (VStr t) = Some x'))
  /\ (exists d' x',
        decamelize (VDict ([(VStr (lit "a_b"), VInt 1); (VInt 7, VNone)]
                           ++ (VBool true, VInt 2) :: [(VInt (-5), VInt 3)]))
        = Ok (VDict d')
        /\ _process_keys decamelize (VInt 2) = Ok x'
        /\ if early_out (VBool true) then dict_get d' (VBool true) = Some x'
           else exists t,
               decamelize (VBool true) = Ok (VStr t)
               /\ dict_get d' (VBool true) = None
               /\ (exists y, dict_get d' (VStr t) = Some y)
               /\ (converts_alone decamelize
                     ([(VStr (lit "a_b"), VInt 1); (VInt 7, VNone)]
                      ++ [(VInt (-5), VInt 3)]) (VStr t) ->
                   dict_get d' (VStr t) = Some x')).
Proof.
  apply (@C2_non_string_keys [(VStr (lit "a_b"), VInt 1); (VInt 7, VNone)]
           (VBool true) (VInt 2) [(VInt (-5), VInt 3)]); reflexivity.
Defined.

(** C3 as stated fails: [camelize('_private')] is ['_private'], which
    still has its underscore. *)
Lemma C3_leading_delimiter_stays :
  exists r, camelize (VStr (lit "_private")) = Ok (VStr r)
            /\ existsb is_delim r = true.
Proof. exists (lit "_private"). split; vm_compute; reflexivity. Qed.

(** C3, amended.  On a string [s] that does not take the early-out, the
    result of [camelize] is made of three parts: the run of delimiters that
    starts [s], as it is; then the characters that stand between that run
    and the run of delimiters that ends [s], without their delimiters (the
    first one lower-cased as C4 says, each one that followed a delimiter
    upper-cased); then the run of delimiters that ends [s], as it is.  The
    middle part has no delimiter: every run of delimiters between two other
    characters is removed, a run at the very start or at the very end of [s]
    stays. *)
Theorem C3_inner_delimiters_removed (s : str) :
  isupper s || isnumeric s = false ->
  camelize (VStr s)
  = Ok (VStr (take_delims s
              ++ humps false (skip_delims (camel_prepare s))
              ++ trail_of (skip_delims s)))
  /\ no_delim (humps false (skip_delims (camel_prepare s))) = true
  /\ forallb is_delim (take_delims s) = true
  /\ forallb is_delim (trail_of (skip_delims s)) = true.
Proof.
  intros He. rewrite camelize_VStr, He.
  rewrite camel_head_humps, take_delims_prepare, trail_prepare.
  repeat split.
  - apply humps_no_delim.
  - apply take_delims_all.
  - apply trail_of_delims.
Qed.

Lemma C3_inner_delimiters_removed_witness :
  camelize (VStr (lit "__Hello_big-world_ "))
  = Ok (VStr (take_delims (lit "__Hello_big-world_ ")
              ++ humps false
                   (skip_delims (camel_prepare (lit "__Hello_big-world_ ")))
              ++ trail_of (skip_delims (lit "__Hello_big-world_ "))))
  /\ no_delim
       (humps false (skip_delims (camel_prepare (lit "__Hello_big-world_ "))))
     = true
  /\ forallb is_delim (take_delims (lit "__Hello_big-world_ ")) = true
  /\ forallb is_delim (trail_of (skip_delims (lit "__Hello_big-world_ ")))
     = true.
Proof.
  apply (@C3_inner_delimiters_removed (lit "__Hello_big-world_ ")).
  reflexivity.
Defined.

(** C4 as stated fails: ['A1b'] is neither all uppercase nor all numeric
    and its second character is a digit, yet [camelize] leaves the first
    character as it is. *)
Lemma C4_upper_then_digit_kept :
  forallb is_upper_char (lit "A1b") = false
  /\ forallb is_digit_char (lit "A1b") = false
  /\ is_upper_char (ch "A") && is_upper_char (ch "1") = false
  /\ camelize (VStr (lit "A1b")) = Ok (VStr (lit "A1b"))
  /\ camelize (VStr (lit "A1b"))
     <> of_sub (Re.sub UNDERSCORE_RE upper_last (lower_first (lit "A1b"))).
Proof.
  repeat split; try (vm_compute; reflexivity).
  intros H. vm_compute in H. discriminate.
Qed.

(** C4, amended.  On a string that does not take the early-out, [camelize]
    lower-cases the first character (with [str.lower]) before it collapses
    the delimiters, unless the string has two characters or more and its
    first two characters are upper case in the sense of [isupper]: one of
    them is an uppercase character and none of them is a lowercase or a
    titlecase character.  In that case (an uppercase letter followed by an
    uppercase letter, a digit, a delimiter or any other uncased character)
    the first character is left as it is. *)
Theorem C4_first_character (s : str) :
  isupper s || isnumeric s = false ->
  camelize (VStr s)
  = of_sub (Re.sub UNDERSCORE_RE upper_last
              (if keeps_first s then s else lower_first s)).
Proof.
  intros He. rewrite camelize_VStr, He.
  apply orb_false_iff in He as [Hu _].
  rewrite <- (camel_prepare_cases _ Hu), sub_UNDERSCORE. reflexivity.
Qed.

Lemma C4_first_character_witness :
  camelize (VStr (lit "Hello_world"))
  = of_sub (Re.sub UNDERSCORE_RE upper_last
              (if keeps_first (lit "Hello_world")
               then lit "Hello_world"
               else lower_first (lit "Hello_world"))).
Proof. apply (@C4_first_character (lit "Hello_world")). reflexivity. Defined.




(** C6 as stated fails: in [[{'a_b': 1, 'aB': 2}]] both keys become
    ['aB'], the output is [[{'aB': 2}]] and the value [1] is lost. *)
Lemma C6_colliding_keys_lose_a_value :
  exists d',
    camelize (VList [VDict [(VStr (lit "a_b"), VInt 1);
                            (VStr (lit "aB"), VInt 2)]])
    = Ok (VList [VDict d'])
    /\ In (VInt 1) (map snd [(VStr (lit "a_b"), VInt 1);
                             (VStr (lit "aB"), VInt 2)])
    /\ ~ In (VInt 1) (map snd d').
Proof.
  exists [(VStr (lit "aB"), VInt 2)].
  split; [vm_compute; reflexivity|]. split; [left; reflexivity|].
  intros [H|[]]. discriminate.
Qed.

(** C6, amended.  For every sequence of mappings whose keys can be hashed
    and have a text ([str(k)] returns),
    both converters return a sequence of mappings of the same length, in the
    same order, and each output mapping is the walked input mapping: its
    items are the converted items stored in order, so that, when the
    converted keys are pairwise different, the keys are the converted keys
    and the values are the walked values in the same order, equal to the
    input values where these are not containers.  When two keys convert to
    the same key, the later value replaces the earlier one. *)
Theorem C6_sequence_of_mappings (ds : list (list (value * value))) :
  forallb wf_items ds = true ->
  (exists ds',
     camelize (VList (map VDict ds)) = Ok (VList (map VDict ds'))
     /\ length ds' = length ds
     /\ Forall2 (walked_mapping camelize) ds ds')
  /\ (exists ds',
        decamelize (VList (map VDict ds)) = Ok (VList (map VDict ds'))
        /\ length ds' = length ds
        /\ Forall2 (walked_mapping decamelize) ds ds').
Proof.
  intros Hwf. split.
  - exact (@walk_sequence camelize camelize_str camelize_eq
             camelize_str_spec ds Hwf).
  - exact (@walk_sequence decamelize decamelize_str decamelize_eq
             decamelize_str_spec ds Hwf).
Qed.

Lemma C6_sequence_of_mappings_witness :
  (exists ds',
     camelize (VList (map VDict [[(VStr (lit "my_key"), VInt 1)];
                                 [(VStr (lit "other_key"), VInt 2)]]))
     = Ok (VList (map VDict ds'))
     /\ length ds' = length [[(VStr (lit "my_key"), VInt 1)];
                             [(VStr (lit "other_key"), VInt 2)]]
     /\ Forall2 (walked_mapping camelize)
          [[(VStr (lit "my_key"), VInt 1)];
           [(VStr (lit "other_key"), VInt 2)]] ds')
  /\ (exists ds',
        decamelize (VList (map VDict [[(VStr (lit "my_key"), VInt 1)];
                                      [(VStr (lit "other_key"), VInt 2)]]))
        = Ok (VList (map VDict ds'))
        /\ length ds' = length [[(VStr (lit "my_key"), VInt 1)];
                                [(VStr (lit "other_key"), VInt 2)]]
        /\ Forall2 (walked_mapping decamelize)
             [[(VStr (lit "my_key"), VInt 1)];
              [(VStr (lit "other_key"), VInt 2)]] ds').
Proof.
  apply (@C6_sequence_of_mappings [[(VStr (lit "my_key"), VInt 1)];
                                   [(VStr (lit "other_key"), VInt 2)]]).
  reflexivity.
Defined.

(** C7.  A string made of uppercase letters only, or of digits only, is
    returned unchanged by [camelize] and by [decamelize]. *)
Theorem C7_constants_preserved (s : str) :
  forallb is_upper_char s = true \/ forallb is_digit_char s = true ->
  camelize (VStr s) = Ok (VStr s) /\ decamelize (VStr s) = Ok (VStr s).
Proof.
  intros H. destruct s as [|c s].
  - split; vm_compute; reflexivity.
  - assert (He : isupper (c :: s) || isnumeric (c :: s) = true).
    { destruct H as [H|H].
      - rewrite early_out_all_upper; [reflexivity | discriminate | exact H].
      - rewrite early_out_all_digits; [apply orb_true_r | discriminate | exact H]. }
    rewrite camelize_VStr, decamelize_VStr, He. split; reflexivity.
Qed.

Lemma C7_constants_preserved_witness :
  (camelize (VStr (lit "ABC")) = Ok (VStr (lit "ABC"))
   /\ decamelize (VStr (lit "ABC")) = Ok (VStr (lit "ABC")))
  /\ (camelize (VStr (lit "12345")) = Ok (VStr (lit "12345"))
      /\ decamelize (VStr (lit "12345")) = Ok (VStr (lit "12345"))).
Proof.
  split.
  - apply (@C7_constants_preserved (lit "ABC")). left. reflexivity.
  - apply (@C7_constants_preserved (lit "12345")). right. reflexivity.
Defined.

(** C8.  The code does not do what the claim and the docstrings of
    [camelize] and [decamelize] say of a collection of strings:
    [camelize(['hello_world'])] is [['hello_world']], not [['helloWorld']],
    although [camelize('hello_world')] is ['helloWorld'], and
    [decamelize(['helloWorld'])] is [['helloWorld']]. *)
Theorem C8_string_element_not_converted :
  camelize (VStr (lit "hello_world")) = Ok (VStr (lit "helloWorld"))
  /\ camelize (VList [VStr (lit "hello_world")])
     = Ok (VList [VStr (lit "hello_world")])
  /\ decamelize (VStr (lit "helloWorld")) = Ok (VStr (lit "hello_world"))
  /\ decamelize (VList [VStr (lit "helloWorld")])
     = Ok (VList [VStr (lit "helloWorld")]).
Proof. repeat split; vm_compute; reflexivity. Qed.

(** What the code does on every sequence of strings: the walker converts
    the keys of mappings only and returns the string elements of a sequence
    as they are. *)
Lemma strings_in_sequence_unchanged (ss : list str) :
  camelize (VList (map VStr ss)) = Ok (VList (map VStr ss))
  /\ decamelize (VList (map VStr ss)) = Ok (VList (map VStr ss)).
Proof.
  rewrite (camelize_eq (VList _)), (decamelize_eq (VList _)).
  cbn [is_list_or_mapping]. split; apply walk_strings.
Qed.

(** C9 as stated fails: the lowercase form of U+0130 is the two characters
    U+0069 U+0307, so [camelize] turns the two characters [chr(0x130) + 'a']
    into three. *)
Lemma C9_camelize_can_lengthen :
  exists r, camelize (VStr [U0130; ch "a"]) = Ok (VStr r)
            /\ length [U0130; ch "a"] < length r.
Proof.
  exists [ch "i"; U0307; ch "a"]. split; [vm_compute; reflexivity|].
  cbn [length]. lia.
Qed.

(** C9, amended.  On every string of ASCII characters [camelize] returns a
    string that is not longer than its argument. *)
Theorem C9_camelize_length (s : str) :
  ascii_only s = true ->
  exists r, camelize (VStr s) = Ok (VStr r) /\ length r <= length s.
Proof.
  intros Hs. rewrite camelize_VStr. split_if.
  - exists s. split; [reflexivity | lia].
  - eexists. split; [reflexivity|].
    rewrite <- (camel_prepare_length s Hs).
    apply camel_head_length, ascii_camel_prepare, Hs.
Qed.

Lemma C9_camelize_length_witness :
  exists r, camelize (VStr (lit "Hello_big-world 2")) = Ok (VStr r)
            /\ length r <= length (lit "Hello_big-world 2").
Proof. apply (@C9_camelize_length (lit "Hello_big-world 2")). reflexivity. Defined.

(** C10 as stated fails: the titlecase character U+01C5 is cased and is
    not lowercase, yet both converters turn the string made of it into
    U+01C6: [isupper] is false of a string with a titlecase character. *)
Lemma C10_titlecase_is_converted :
  existsb is_cased_char [U01C5] = true
  /\ existsb is_lower_char [U01C5] = false
  /\ camelize (VStr [U01C5]) <> Ok (VStr [U01C5])
  /\ decamelize (VStr [U01C5]) <> Ok (VStr [U01C5]).
Proof.
  repeat split; try reflexivity; intros H; vm_compute in H; discriminate.
Qed.

(** C10, amended.  Every string with at least one uppercase character and
    no lowercase and no titlecase character, whatever else it contains, is
    returned unchanged by [camelize] and by [decamelize]. *)
Theorem C10_no_lowercase_unchanged (s : str) :
  existsb is_upper_char s = true -> existsb is_lower_char s = false ->
  existsb is_title_char s = false ->
  camelize (VStr s) = Ok (VStr s) /\ decamelize (VStr s) = Ok (VStr s).
Proof.
  intros Hu Hl Ht.
  assert (He : isupper s = true).
  { unfold isupper. rewrite Hu, existsb_or, Hl, Ht. reflexivity. }
  rewrite camelize_VStr, decamelize_VStr, He. split; reflexivity.
Qed.

Lemma C10_no_lowercase_unchanged_witness :
  (camelize (VStr (lit "MAX_VALUE")) = Ok (VStr (lit "MAX_VALUE"))
   /\ decamelize (VStr (lit "MAX_VALUE")) = Ok (VStr (lit "MAX_VALUE")))
  /\ (camelize (VStr (lit "A1B")) = Ok (VStr (lit "A1B"))
      /\ decamelize (VStr (lit "A1B")) = Ok (VStr (lit "A1B"))).
Proof.
  split.
  - apply (@C10_no_lowercase_unchanged (lit "MAX_VALUE")); reflexivity.
  - apply (@C10_no_lowercase_unchanged (lit "A1B")); reflexivity.
Defined.

(* ================================================================== *)
(** ** Further properties of the scalar converters *)

Lemma lower_lower_full c : lower (lower_full c) = lower_full c.
Proof. all_chars c. Qed.

Lemma lower_upper_full c : lower_full (upper_char c) = lower_full c.
Proof. all_chars c. Qed.

Lemma ascii_lower_title c :
  is_ascii c = true -> lower (title_full c) = lower_full c.
Proof. all_chars c. Qed.

Lemma letters_lower_full c :
  letters (lower_full c) = if is_delim c then [] else lower_full c.
Proof. all_chars c. Qed.

Lemma letters_app a b : letters (a ++ b) = letters a ++ letters b.
Proof. apply filter_app. Qed.

Lemma letters_delims s : forallb is_delim s = true -> letters s = [].
Proof.
  induction s as [|c s IH]; intros H; [reflexivity|].
  cbn [forallb] in H. apply andb_prop in H as [Hc H].
  cbn [letters filter]. rewrite Hc. exact (IH H).
Qed.

Lemma letters_cons c s :
  letters (c :: s) = if is_delim c then letters s else c :: letters s.
Proof. cbn [letters filter]. destruct (is_delim c); reflexivity. Qed.

Lemma letters_lower s : letters (lower s) = lower (letters s).
Proof.
  induction s as [|c s IH]; [reflexivity|].
  rewrite lower_cons, letters_app, letters_lower_full, IH, letters_cons.
  destruct (is_delim c); reflexivity.
Qed.

Lemma lower_idem s : lower (lower s) = lower s.
Proof.
  induction s as [|c s IH]; [reflexivity|].
  rewrite lower_cons, lower_app, lower_lower_full, IH. reflexivity.
Qed.

Lemma camel_tail_letters p s :
  forallb is_delim p = true -> ascii_only s = true ->
  lower (letters (camel_tail p s)) = lower (letters s).
Proof.
  revert p; induction s as [|c s IH]; intros p Hp Hs; cbn [camel_tail].
  - rewrite (letters_delims _ Hp). reflexivity.
  - cbn [ascii_only forallb] in Hs. apply andb_prop in Hs as [Ha Hs].
    rewrite (letters_cons c s). destruct (is_delim c) eqn:Hc.
    + apply IH; [|exact Hs]. rewrite forallb_app, Hp. cbn [forallb andb].
      rewrite Hc. reflexivity.
    + rewrite (ascii_upper_full _ Ha).
      destruct (is_empty p); cbn [app]; rewrite letters_cons.
      * rewrite Hc, !lower_cons, (IH [] eq_refl Hs). reflexivity.
      * rewrite delim_upper_char, Hc, !lower_cons, (IH [] eq_refl Hs),
          lower_upper_full. reflexivity.
Qed.

Lemma camel_head_letters s :
  ascii_only s = true ->
  lower (letters (camel_head s)) = lower (letters s).
Proof.
  induction s as [|c s IH]; intros Hs; [reflexivity|].
  cbn [ascii_only forallb] in Hs. apply andb_prop in Hs as [_ Hs].
  cbn [camel_head]. destruct (is_delim c) eqn:Hc; rewrite !letters_cons, Hc.
  - exact (IH Hs).
  - rewrite !lower_cons, (camel_tail_letters [] s eq_refl Hs). reflexivity.
Qed.

Lemma letters_no_delim a : no_delim a = true -> letters a = a.
Proof.
  induction a as [|x a IH]; intros H; [reflexivity|].
  cbn [no_delim forallb] in H. apply andb_prop in H as [Hx Ha].
  apply negb_true_iff in Hx. rewrite letters_cons, Hx, (IH Ha). reflexivity.
Qed.

Lemma camel_prepare_letters s :
  lower (letters (camel_prepare s)) = lower (letters s).
Proof.
  unfold camel_prepare. split_if; [|reflexivity].
  destruct s as [|c s]; [reflexivity|].
  rewrite lower_first_cons, letters_app, letters_lower_full, letters_cons.
  destruct (is_delim c); [reflexivity|].
  rewrite lower_app, lower_lower_full. reflexivity.
Qed.

Lemma lower_title_from b s :
  ascii_only s = true -> lower (title_from b s) = lower s.
Proof.
  revert b; induction s as [|c s IH]; intros b Hs; [reflexivity|].
  cbn [ascii_only forallb] in Hs. apply andb_prop in Hs as [Hc Hs].
  cbn [title_from]. rewrite lower_app, lower_cons, (IH _ Hs).
  destruct b; [rewrite lower_lower_full | rewrite (ascii_lower_title _ Hc)];
    reflexivity.
Qed.

Lemma sub_title_lower ps out :
  hits_are (fun m => forallb is_AZ m = true) ps ->
  sub_pieces title_match ps = Some out -> lower out = lower (spelled ps).
Proof.
  unfold hits_are. intros Hps. revert out.
  induction Hps as [|[c|m] ps Hp _ IH]; intros out H; cbn [sub_pieces] in H.
  - injection H as <-. reflexivity.
  - destruct (sub_pieces title_match ps) as [out'|]; [|discriminate].
    injection H as <-. cbn [spelled flat_map app]. fold (spelled ps).
    rewrite !lower_cons, (IH _ eq_refl). reflexivity.
  - cbn [title_match] in H.
    destruct (sub_pieces title_match ps) as [out'|]; [|discriminate].
    injection H as <-. cbn [spelled flat_map]. fold (spelled ps).
    rewrite !lower_app, (IH _ eq_refl).
    unfold title. rewrite (lower_title_from false m (AZ_ascii_all _ Hp)).
    reflexivity.
Qed.

Lemma split_pieces_concat cur ps :
  concat (split_pieces cur ps) = rev cur ++ spelled ps.
Proof.
  revert cur; induction ps as [|[c|m] ps IH]; intros cur;
    cbn [split_pieces].
  - cbn. rewrite app_nil_r. reflexivity.
  - rewrite IH. cbn [rev spelled flat_map]. fold (spelled ps).
    rewrite <- app_assoc. reflexivity.
  - cbn [concat]. rewrite IH. cbn [rev spelled flat_map app].
    fold (spelled ps). reflexivity.
Qed.

Lemma letters_join parts :
  letters (join (lit "_") parts) = letters (concat parts).
Proof.
  induction parts as [|p [|q parts] IH].
  - reflexivity.
  - cbn [join concat]. rewrite app_nil_r. reflexivity.
  - change (join (lit "_") (p :: q :: parts))
      with (p ++ lit "_" ++ join (lit "_") (q :: parts)).
    cbn [concat]. rewrite !letters_app, IH.
    change (letters (lit "_")) with (@nil char).
    cbn [concat app]. rewrite letters_app. reflexivity.
Qed.

Lemma concat_non_empty parts : concat (filter non_empty parts) = concat parts.
Proof.
  induction parts as [|p parts IH]; [reflexivity|].
  cbn [filter]. destruct p as [|c p]; cbn [non_empty is_empty negb concat].
  - exact IH.
  - rewrite IH. reflexivity.
Qed.

Lemma decamelize_letters s fixed_abbr :
  Re.sub ACRONYM_RE title_match s = Some fixed_abbr ->
  lower (letters (lower (join (lit "_")
                    (filter non_empty (Re.split SPLIT_RE fixed_abbr)))))
  = lower (letters s).
Proof.
  intros H. unfold Re.sub in H.
  apply (sub_title_lower (scan_ACRONYM_AZ s)) in H.
  rewrite scan_spelled in H.
  rewrite letters_lower, lower_idem, letters_join, concat_non_empty.
  unfold Re.split. rewrite split_pieces_concat, scan_spelled. cbn [rev app].
  rewrite <- !letters_lower, H. reflexivity.
Qed.

Lemma ascii_not_upper_lowered c :
  is_ascii c = true -> not_upper c = true -> lowered c = true.
Proof. all_chars c. Qed.

Lemma ascii_lowered_all s :
  ascii_only s = true -> forallb not_upper s = true ->
  forallb lowered s = true.
Proof.
  induction s as [|c s IH]; intros Ha Hn; [reflexivity|].
  cbn [ascii_only forallb] in *. apply andb_prop in Ha as [Hc Ha].
  apply andb_prop in Hn as [Hn' Hn].
  rewrite (ascii_not_upper_lowered _ Hc Hn'), (IH Ha Hn). reflexivity.
Qed.

Lemma camel_prepare_first c s :
  lowered c = true -> camel_prepare (c :: s) = c :: s.
Proof.
  intros H. unfold camel_prepare. split_if; [|reflexivity].
  apply lower_first_fixed, H.
Qed.

Lemma camel_prepare_not_upper s :
  ascii_only s = true -> starts_upper s = false -> camel_prepare s = s.
Proof.
  intros Ha H. destruct s as [|c s]; [reflexivity|].
  cbn [ascii_only forallb] in Ha. apply andb_prop in Ha as [Hc _].
  apply camel_prepare_first, ascii_not_upper_lowered; [exact Hc|].
  unfold not_upper. cbn [starts_upper] in H. rewrite H. reflexivity.
Qed.

Lemma lowered_no_upper s :
  forallb lowered s = true -> existsb is_upper_char s = false.
Proof.
  induction s as [|c s IH]; intros H; [reflexivity|].
  cbn [forallb] in H. apply andb_prop in H as [Hc H].
  cbn [existsb]. rewrite (IH H), orb_false_r.
  unfold lowered in Hc. apply andb_prop in Hc as [Hc _].
  apply negb_true_iff. exact Hc.
Qed.

(** X1.  On a string of ASCII characters [camelize] only removes
    delimiters and changes the case of letters: without their delimiters
    and lower-cased, its result and its argument are the same string. *)
Theorem X1_camelize_keeps_letters (s : str) :
  ascii_only s = true ->
  exists r, camelize (VStr s) = Ok (VStr r)
            /\ lower (letters r) = lower (letters s).
Proof.
  intros Hs. rewrite camelize_VStr. split_if.
  - exists s. split; reflexivity.
  - eexists. split; [reflexivity|].
    rewrite camel_head_letters by (apply ascii_camel_prepare, Hs).
    apply camel_prepare_letters.
Qed.

Lemma X1_camelize_keeps_letters_witness :
  exists r, camelize (VStr (lit "Hello_big-world 2")) = Ok (VStr r)
            /\ lower (letters r) = lower (letters (lit "Hello_big-world 2")).
Proof.
  apply (@X1_camelize_keeps_letters (lit "Hello_big-world 2")). reflexivity.
Defined.

(** X2.  On a string of ASCII characters [decamelize] only adds
    underscores and changes the case of letters: without their delimiters
    and lower-cased, its result and its argument are the same string. *)
Theorem X2_decamelize_keeps_letters (s : str) :
  ascii_only s = true ->
  exists r, decamelize (VStr s) = Ok (VStr r)
            /\ lower (letters r) = lower (letters s).
Proof.
  intros _. rewrite decamelize_VStr. split_if.
  - exists s. split; reflexivity.
  - destruct (sub_ACRONYM_total s) as [fixed_abbr E]. rewrite E.
    eexists. split; [reflexivity|].
    apply decamelize_letters. exact E.
Qed.

Lemma X2_decamelize_keeps_letters_witness :
  exists r, decamelize (VStr (lit "getHTTPResponse_code2")) = Ok (VStr r)
            /\ lower (letters r)
               = lower (letters (lit "getHTTPResponse_code2")).
Proof.
  apply (@X2_decamelize_keeps_letters (lit "getHTTPResponse_code2")).
  reflexivity.
Defined.

(** X3.  The result of [decamelize] on a string of ASCII characters is the
    argument itself when it takes the early-out, and has no uppercase
    character otherwise. *)
Theorem X3_decamelize_lowercase (s : str) :
  ascii_only s = true ->
  exists r, decamelize (VStr s) = Ok (VStr r)
            /\ if isupper s || isnumeric s then r = s
               else existsb is_upper_char r = false.
Proof.
  intros _. rewrite decamelize_VStr. destruct (isupper s || isnumeric s).
  - exists s. split; reflexivity.
  - destruct (sub_ACRONYM_total s) as [fixed_abbr ->].
    eexists. split; [reflexivity | apply lowered_no_upper, lower_lowered].
Qed.

Lemma X3_decamelize_lowercase_witness :
  exists r, decamelize (VStr (lit "getHTTPResponse_code2")) = Ok (VStr r)
            /\ if isupper (lit "getHTTPResponse_code2")
                  || isnumeric (lit "getHTTPResponse_code2")
               then r = lit "getHTTPResponse_code2"
               else existsb is_upper_char r = false.
Proof.
  apply (@X3_decamelize_lowercase (lit "getHTTPResponse_code2")). reflexivity.
Defined.

(** X4.  A string of ASCII characters without uppercase letters, whatever
    its delimiters, is returned unchanged by [decamelize]. *)
Theorem X4_decamelize_fixed_point (s : str) :
  ascii_only s = true -> forallb not_upper s = true ->
  decamelize (VStr s) = Ok (VStr s).
Proof. intros Ha Hn. apply decamelize_fixed, ascii_lowered_all; assumption. Qed.

Lemma X4_decamelize_fixed_point_witness :
  decamelize (VStr (lit "__already_snake-case 42_"))
  = Ok (VStr (lit "__already_snake-case 42_")).
Proof.
  apply (@X4_decamelize_fixed_point (lit "__already_snake-case 42_"));
    reflexivity.
Defined.

(** X5.  A string of ASCII characters that does not start with an
    uppercase letter and whose delimiters are all in a leading run or a
    trailing run is returned unchanged by [camelize]. *)
Theorem X5_camelize_fixed_point (lead body trail : str) :
  ascii_only (lead ++ body ++ trail) = true ->
  forallb is_delim lead = true -> no_delim body = true ->
  forallb is_delim trail = true ->
  starts_upper (lead ++ body ++ trail) = false ->
  camelize (VStr (lead ++ body ++ trail)) = Ok (VStr (lead ++ body ++ trail)).
Proof.
  intros Ha Hl Hb Ht Hs. rewrite camelize_VStr. split_if; [reflexivity|].
  rewrite (camel_prepare_not_upper _ Ha Hs), camel_head_fixed by assumption.
  reflexivity.
Qed.

Lemma X5_camelize_fixed_point_witness :
  camelize (VStr (lit "_" ++ lit "alreadyCamelCase" ++ lit "__"))
  = Ok (VStr (lit "_" ++ lit "alreadyCamelCase" ++ lit "__")).
Proof.
  apply (@X5_camelize_fixed_point (lit "_") (lit "alreadyCamelCase") (lit "__"));
    reflexivity.
Defined.

(* ================================================================== *)
(** ** The walker applied twice *)

Lemma mapM_inv (A B : Type) (f : A -> result B) l l' :
  mapM f l = Ok l' -> Forall2 (fun x x' => f x = Ok x') l l'.
Proof.
  revert l'; induction l as [|x l IH]; intros l' H; cbn [mapM] in H.
  - injection H as <-. constructor.
  - destruct (f x) as [x'|e] eqn:Ex; [|discriminate]. cbn [bind] in H.
    destruct (mapM f l) as [r|e]; [|discriminate]. cbn [bind] in H.
    injection H as <-. constructor; [exact Ex | apply IH; reflexivity].
Qed.

Lemma mapM_fixed (A : Type) (f : A -> result A) l :
  Forall (fun x => f x = Ok x) l -> mapM f l = Ok l.
Proof.
  induction 1 as [|x l Hx _ IH]; [reflexivity|].
  cbn [mapM]. rewrite Hx. cbn [bind]. rewrite IH. reflexivity.
Qed.

Lemma store_items_inv fn d :
  forall acc d', store_items fn d acc = Ok d' ->
  exists cs, converted fn d cs /\ d' = fold_left store_one cs acc.
Proof.
  induction d as [|[k x] d IH]; intros acc d' H; cbn [store_items] in H.
  - injection H as <-. exists []. split; [constructor | reflexivity].
  - destruct (fn k) as [k'|e] eqn:Ek; [|discriminate]. cbn [bind] in H.
    destruct (_process_keys fn x) as [x'|e] eqn:Ex; [|discriminate].
    cbn [bind] in H. destruct (hashable k'); [|discriminate].
    apply IH in H as (cs & Hcs & ->).
    exists ((k', x') :: cs). split; [|reflexivity].
    constructor; [split; assumption | exact Hcs].
Qed.

Lemma store_items_fixed fn d :
  Forall (fun kv => fn (fst kv) = Ok (fst kv)
                    /\ _process_keys fn (snd kv) = Ok (snd kv)
                    /\ hashable (fst kv) = true) d ->
  forall acc, store_items fn d acc = Ok (fold_left store_one d acc).
Proof.
  induction 1 as [|[k x] d (Hk & Hx & Hh) _ IH]; intros acc; [reflexivity|].
  cbn [fst snd] in *. cbn [store_items]. rewrite Hk. cbn [bind].
  rewrite Hx. cbn [bind]. rewrite Hh. apply IH.
Qed.

Lemma dict_setitem_entry acc k x kv :
  In kv (dict_setitem acc k x) ->
  (In (fst kv) (map fst acc) \/ fst kv = k)
  /\ (In (snd kv) (map snd acc) \/ snd kv = x).
Proof.
  induction acc as [|[k0 x0] acc IH]; cbn [dict_setitem].
  - intros [<-|[]]. cbn. auto.
  - destruct (key_eqb k0 k); cbn [In map fst snd].
    + intros [<-|H]; cbn [fst snd]; [auto|].
      split; left; right; [apply (in_map fst) in H | apply (in_map snd) in H];
        exact H.
    + intros [<-|H]; cbn [fst snd]; [auto|].
      destruct (IH H) as [[H1|H1] [H2|H2]]; auto.
Qed.

Lemma fold_entry cs :
  forall acc kv,
    In kv (fold_left store_one cs acc) ->
    (In (fst kv) (map fst acc) \/ In (fst kv) (map fst cs))
    /\ (In (snd kv) (map snd acc) \/ In (snd kv) (map snd cs)).
Proof.
  induction cs as [|[k x] cs IH]; intros acc kv H; cbn [fold_left] in H.
  - split; left; [apply (in_map fst) in H | apply (in_map snd) in H]; exact H.
  - apply IH in H as [H1 H2]. unfold store_one in H1, H2.
    cbn [fst snd map In] in *. split.
    + destruct H1 as [H1|H1]; [|auto].
      apply in_map_iff in H1 as (kv' & <- & H1).
      apply dict_setitem_entry in H1 as [[H1|H1] _]; auto.
    + destruct H2 as [H2|H2]; [|auto].
      apply in_map_iff in H2 as (kv' & <- & H2).
      apply dict_setitem_entry in H2 as [_ [H2|H2]]; auto.
Qed.

Lemma dict_setitem_unique acc k x :
  unique_keys (map fst acc) = true ->
  unique_keys (map fst (dict_setitem acc k x)) = true.
Proof.
  induction acc as [|[k0 x0] acc IH]; intros H; [reflexivity|].
  cbn [map fst unique_keys] in H. apply andb_prop in H as [H0 H].
  cbn [dict_setitem]. destruct (key_eqb k0 k) eqn:E.
  - cbn [map fst unique_keys]. rewrite H0, H. reflexivity.
  - cbn [map fst unique_keys]. rewrite (IH H), andb_true_r.
    apply forallb_forall. intros k1 Hin.
    apply dict_setitem_keys in Hin as [Hin| ->].
    + rewrite forallb_forall in H0. exact (H0 _ Hin).
    + rewrite E. reflexivity.
Qed.

Lemma fold_unique cs :
  forall acc, unique_keys (map fst acc) = true ->
              unique_keys (map fst (fold_left store_one cs acc)) = true.
Proof.
  induction cs as [|[k x] cs IH]; intros acc H; [exact H|].
  cbn [fold_left]. apply IH. apply dict_setitem_unique. exact H.
Qed.

Lemma store_all_unique cs : unique_keys (map fst (store_all cs)) = true.
Proof. apply fold_unique. reflexivity. Qed.

Lemma ascii_text_defined v : ascii_text v = true -> str_defined v = true.
Proof.
  unfold ascii_text, str_defined. destruct (str_or_empty v); [reflexivity|].
  discriminate.
Qed.

Lemma ascii_keys_well_formed v : ascii_keys v = true -> well_formed v = true.
Proof.
  induction v as [ | b | z | s | l IH | l IH | d IH] using value_ind_nested;
    intros H; try reflexivity.
  - cbn [ascii_keys well_formed] in *.
    induction l as [|x l IHl]; [reflexivity|].
    inversion IH as [|? ? Px Pl]; subst.
    cbn [forallb] in *. apply andb_prop in H as [Hx Hl].
    rewrite (Px Hx), (IHl Pl Hl). reflexivity.
  - cbn [ascii_keys well_formed] in *.
    rewrite forallb_forall in H. apply forallb_forall. intros [k x] Hin.
    specialize (H _ Hin). cbn beta iota in H.
    apply andb_prop in H as [Hk Hx]. apply andb_prop in Hk as [Hh Ht].
    rewrite Forall_forall in IH. destruct (IH _ Hin) as [_ Px].
    cbn [snd] in Px. unfold key_ok.
    rewrite Hh, (ascii_text_defined _ Ht), (Px Hx). reflexivity.
Qed.

Section WalkerTwice.

Variable fn fn_str : value -> result value.

Hypothesis fn_eq :
  forall v, fn v = if is_list_or_mapping v then _process_keys fn v
                   else fn_str v.

Hypothesis fn_str_spec :
  forall v, str_defined v = true ->
    exists t, fn_str v = if early_out v then Ok v else Ok (VStr t).

Hypothesis fn_fixed :
  forall v v', ascii_text v = true -> is_list_or_mapping v = false ->
               fn v = Ok v' -> fn v' = Ok v'.

Lemma process_keys_idem v :
  ascii_keys v = true ->
  forall v', _process_keys fn v = Ok v' -> _process_keys fn v' = Ok v'.
Proof.
  induction v as [ | b | z | s | l IH | l IH | d IH] using value_ind_nested;
    intros Hwf v' H; try (injection H as <-; reflexivity).
  - rewrite process_keys_VList in H.
    destruct (mapM (_process_keys fn) l) as [l'|e] eqn:E; [|discriminate].
    injection H as <-. apply mapM_inv in E.
    rewrite process_keys_VList, mapM_fixed; [reflexivity|].
    cbn [ascii_keys] in Hwf. clear -IH Hwf E.
    induction E as [|x x' l l' Ex _ IHE]; [constructor|].
    inversion IH as [|? ? Px Pl]; subst.
    cbn [forallb] in Hwf. apply andb_prop in Hwf as [Hx Hl].
    constructor; [exact (Px Hx _ Ex) | exact (IHE Pl Hl)].
  - rewrite process_keys_VDict in H.
    destruct (store_items fn d []) as [d'|e] eqn:E; [|discriminate].
    injection H as <-. apply store_items_inv in E as (cs & Hcs & ->).
    fold (store_all cs). rewrite process_keys_VDict.
    rewrite store_items_fixed.
    + fold (store_all (store_all cs)).
      rewrite (store_all_distinct _ (store_all_unique cs)). reflexivity.
    + apply Forall_forall. intros kv Hin.
      apply fold_entry in Hin as [[[]|Hk] [[]|Hx]].
      cbn [ascii_keys] in Hwf.
      destruct (@converted_key_from fn d cs _ Hcs Hk) as ([k x] & Hin & Ek).
      destruct (@converted_value_from fn d cs _ Hcs Hx) as ([k2 x2] & Hin2 & Ex).
      cbn [fst snd] in Ek, Ex.
      rewrite forallb_forall in Hwf.
      pose proof (Hwf _ Hin) as W. apply andb_prop in W as [W _].
      apply andb_prop in W as [Hh Ht].
      pose proof (Hwf _ Hin2) as W2. apply andb_prop in W2 as [_ Hw2].
      rewrite Forall_forall in IH.
      destruct (IH _ Hin2) as [_ P2]. cbn [snd] in P2.
      split; [|split].
      * exact (fn_fixed Ht (hashable_scalar _ Hh) Ek).
      * exact (P2 Hw2 _ Ex).
      * assert (Hok : key_ok k = true)
          by (unfold key_ok; rewrite Hh, (ascii_text_defined _ Ht); reflexivity).
        destruct (@fn_key fn fn_str fn_eq fn_str_spec k Hok)
          as (k'' & E' & Hh' & _).
        rewrite E' in Ek. injection Ek as <-. exact Hh'.
Qed.

Lemma converter_idem v :
  ascii_keys v = true -> is_list_or_mapping v || ascii_text v = true ->
  exists v', fn v = Ok v' /\ fn v' = Ok v'.
Proof.
  intros Hwf Htext. destruct (is_list_or_mapping v) eqn:Hv.
  - destruct (@walker_total fn fn_str fn_eq fn_str_spec v
                (ascii_keys_well_formed v Hwf)) as [v' E].
    exists v'. rewrite (fn_eq v), Hv. split; [exact E|].
    pose proof (process_keys_idem v Hwf E) as E2.
    rewrite fn_eq.
    assert (Hv' : is_list_or_mapping v' = true).
    { destruct v; try discriminate.
      - rewrite process_keys_VList in E.
        destruct (mapM _ l); [|discriminate]. injection E as <-. reflexivity.
      - rewrite process_keys_VDict in E.
        destruct (store_items _ _ _); [|discriminate].
        injection E as <-. reflexivity. }
    rewrite Hv'. exact E2.
  - cbn [orb] in Htext.
    destruct (fn_str_spec v (ascii_text_defined _ Htext)) as [t Et].
    assert (E : exists v', fn v = Ok v').
    { rewrite fn_eq, Hv, Et. destruct (early_out v); eauto. }
    destruct E as [v' E]. exists v'. split; [exact E|].
    exact (fn_fixed Htext Hv E).
Qed.

End WalkerTwice.

Lemma camelize_scalar_fixed v v' :
  ascii_text v = true -> is_list_or_mapping v = false ->
  camelize v = Ok v' -> camelize v' = Ok v'.
Proof.
  unfold ascii_text. intros Ht Hv E.
  destruct (str_or_empty v) as [s|e] eqn:Es; [|discriminate].
  destruct (isupper s || isnumeric s) eqn:He.
  - rewrite (camelize_early v Hv Es He) in E. injection E as <-.
    exact (camelize_early v Hv Es He).
  - rewrite (camelize_coerces v Hv Es He) in E.
    destruct (camelize_idempotent s Ht) as (r & E1 & E2).
    rewrite E1 in E. injection E as <-. exact E2.
Qed.

Lemma decamelize_scalar_fixed v v' :
  ascii_text v = true -> is_list_or_mapping v = false ->
  decamelize v = Ok v' -> decamelize v' = Ok v'.
Proof.
  unfold ascii_text. intros Ht Hv E.
  destruct (str_or_empty v) as [s|e] eqn:Es; [|discriminate].
  destruct (isupper s || isnumeric s) eqn:He.
  - rewrite (decamelize_early v Hv Es He) in E. injection E as <-.
    exact (decamelize_early v Hv Es He).
  - rewrite (decamelize_coerces v Hv Es He) in E.
    destruct (decamelize_idempotent s) as (r & E1 & E2).
    rewrite E1 in E. injection E as <-. exact E2.
Qed.

(** X6.  Take a value in which, at any depth of lists and mappings, every
    key of a mapping can be hashed and has an ASCII text, and which is a
    list, a mapping or a value with an ASCII text itself.  Both converters
    return on it without raising, and converting the result again changes
    nothing. *)
Theorem X6_converters_idempotent_on_values (v : value) :
  ascii_keys v = true -> is_list_or_mapping v || ascii_text v = true ->
  (exists v', camelize v = Ok v' /\ camelize v' = Ok v')
  /\ (exists v', decamelize v = Ok v' /\ decamelize v' = Ok v').
Proof.
  intros Hwf Ht. split.
  - exact (@converter_idem camelize camelize_str camelize_eq
             camelize_str_spec camelize_scalar_fixed v Hwf Ht).
  - exact (@converter_idem decamelize decamelize_str decamelize_eq
             decamelize_str_spec decamelize_scalar_fixed v Hwf Ht).
Qed.

Lemma X6_converters_idempotent_on_values_witness :
  (exists v',
     camelize (VList [VDict [(VStr (lit "my_key"),
                              VDict [(VInt 7, VStr (lit "a_b"));
                                     (VStr (lit "inner_key"), VNone)])]])
     = Ok v' /\ camelize v' = Ok v')
  /\ (exists v',
        decamelize (VList [VDict [(VStr (lit "my_key"),
                                   VDict [(VInt 7, VStr (lit "a_b"));
                                          (VStr (lit "inner_key"), VNone)])]])
        = Ok v' /\ decamelize v' = Ok v').
Proof.
  apply (@X6_converters_idempotent_on_values
           (VList [VDict [(VStr (lit "my_key"),
                           VDict [(VInt 7, VStr (lit "a_b"));
                                  (VStr (lit "inner_key"), VNone)])]]));
    reflexivity.
Defined.

(* ================================================================== *)
(** ** Identifiers made of words: the two converters are inverse *)

Lemma low_not_upper c : is_low c = true -> is_AZ c = false.
Proof. all_chars c. Qed.

Lemma low_not_delim c : is_low c = true -> is_delim c = false.
Proof. all_chars c. Qed.

Lemma low_not_newline c : is_low c = true -> Nat.eqb (code c) 10 = false.
Proof. all_chars c. Qed.

Lemma lower_is_low c : is_az c = true -> is_low c = true.
Proof. unfold is_low. intros ->. reflexivity. Qed.

Lemma low_in_word_class c :
  is_low c = true -> in_class true (upper_AZ ++ delimiters) c = true.
Proof. all_chars c. Qed.

Lemma upper_not_in_word_class c :
  is_AZ c = true -> in_class true (upper_AZ ++ delimiters) c = false.
Proof. all_chars c. Qed.

Lemma lower_upper_lower c :
  is_az c = true -> lower_full (upper_char c) = [c].
Proof. all_chars c. Qed.

Lemma low_lowered c : is_low c = true -> lowered c = true.
Proof. all_chars c. Qed.

Lemma low_ascii c : is_low c = true -> is_ascii c = true.
Proof. all_chars c. Qed.

Lemma az_not_digit c : is_az c = true -> is_digit_char c = false.
Proof. all_chars c. Qed.

Lemma upper_of_lower_is_upper c :
  is_az c = true -> is_AZ (upper_char c) = true.
Proof. all_chars c. Qed.

Lemma upper_char_fix c : is_AZ c = true -> upper_char c = c.
Proof. all_chars c. Qed.

Lemma title_full_fix c : is_AZ c = true -> title_full c = [c].
Proof. all_chars c. Qed.

Lemma lower_low s : forallb is_low s = true -> lower s = s.
Proof.
  intros H. apply lower_fixed. revert H. apply forallb_mono, low_lowered.
Qed.

Lemma join_cons sep w ws :
  join sep (w :: ws) = w ++ concat (map (fun x => sep ++ x) ws).
Proof.
  revert w; induction ws as [|w' ws IH]; intros w.
  - cbn. rewrite app_nil_r. reflexivity.
  - change (join sep (w :: w' :: ws)) with (w ++ sep ++ join sep (w' :: ws)).
    rewrite IH. cbn [map concat]. rewrite <- app_assoc. reflexivity.
Qed.

(** *** [camelize] on the snake form *)

Lemma camel_tail_low t s :
  forallb is_low t = true -> camel_tail [] (t ++ s) = t ++ camel_tail [] s.
Proof.
  induction t as [|c t IH]; intros H; [reflexivity|].
  cbn [forallb] in H. apply andb_prop in H as [Hc H].
  cbn [app camel_tail]. rewrite (low_not_delim _ Hc). cbn [is_empty].
  rewrite (IH H). reflexivity.
Qed.

Lemma camel_tail_words ws :
  forallb is_word ws = true ->
  camel_tail [] (concat (map (fun w => lit "_" ++ w) ws))
  = concat (map capitalize ws).
Proof.
  induction ws as [|[|c t] ws IH]; intros H; [reflexivity|discriminate|].
  cbn [forallb is_word] in H. apply andb_prop in H as [Hw H].
  apply andb_prop in Hw as [Hc Ht].
  cbn [map concat capitalize].
  change (lit "_" ++ c :: t) with (ch "_" :: c :: t).
  cbn [app camel_tail].
  change (is_delim (ch "_")) with true. cbn iota.
  rewrite (lower_not_delim _ Hc). cbn [is_empty].
  rewrite (ascii_upper_full _ (az_ascii _ Hc)).
  rewrite (camel_tail_low _ _ Ht), (IH H). reflexivity.
Qed.

Lemma word_not_early w s : is_word w = true ->
  isupper (w ++ s) || isnumeric (w ++ s) = false.
Proof.
  destruct w as [|c t]; [discriminate|]. cbn [is_word]. intros H.
  apply andb_prop in H as [Hc _].
  unfold isupper, isnumeric. cbn [app existsb forallb].
  rewrite (az_lower _ Hc), (az_not_digit _ Hc).
  cbn [orb negb andb]. rewrite !andb_false_r. reflexivity.
Qed.

Lemma camelize_snake w1 ws :
  is_word w1 = true -> forallb is_word ws = true ->
  camelize (VStr (snake_of w1 ws)) = Ok (VStr (camel_of w1 ws)).
Proof.
  intros H1 Hws. unfold snake_of, camel_of. rewrite join_cons.
  rewrite camelize_VStr, (word_not_early _ _ H1).
  destruct w1 as [|c t]; [discriminate|].
  cbn [is_word] in H1. apply andb_prop in H1 as [Hc Ht].
  cbn [app]. rewrite camel_prepare_first
    by (apply low_lowered, lower_is_low, Hc).
  cbn [camel_head]. rewrite (lower_not_delim _ Hc).
  rewrite (camel_tail_low _ _ Ht), (camel_tail_words _ Hws). reflexivity.
Qed.

(** *** The patterns of [decamelize] on the camel form *)

Lemma spaced_tail c s : spaced (c :: s) = true -> spaced s = true.
Proof.
  destruct s as [|b s]; [reflexivity|]. cbn [spaced].
  intros H. apply andb_prop in H as [_ H]. exact H.
Qed.

Lemma spaced_app_r m s : spaced (m ++ s) = true -> spaced s = true.
Proof.
  induction m as [|c m IH]; intros H; [exact H|].
  apply IH. exact (spaced_tail _ _ H).
Qed.

Lemma spaced_upper_prefix m s :
  spaced (m ++ s) = true -> m <> [] -> forallb is_AZ m = true ->
  exists c, m = [c] /\ is_AZ c = true.
Proof.
  destruct m as [|a [|b m]]; intros Hs Hne Hup; [congruence| |].
  - exists a. cbn [forallb] in Hup. apply andb_prop in Hup as [Ha _]. auto.
  - cbn [forallb] in Hup. apply andb_prop in Hup as [Ha Hup].
    apply andb_prop in Hup as [Hb _].
    cbn [app spaced] in Hs. rewrite Ha, Hb in Hs. discriminate.
Qed.

Lemma sub_pieces_same repl ps :
  hits_are (fun m => repl m = Some m) ps ->
  sub_pieces repl ps = Some (spelled ps).
Proof.
  unfold hits_are. induction 1 as [|[c|m] ps Hp _ IH]; [reflexivity| |].
  - cbn [sub_pieces]. rewrite IH. reflexivity.
  - cbn [sub_pieces]. rewrite Hp, IH. reflexivity.
Qed.

(** On a string without two uppercase letters side by side,
    [ACRONYM_RE.sub] changes nothing. *)
Lemma sub_ACRONYM_spaced s :
  spaced s = true -> Re.sub ACRONYM_RE title_match s = Some s.
Proof.
  intros Hs. unfold Re.sub.
  rewrite sub_pieces_same; [rewrite scan_spelled; reflexivity|].
  unfold scan.
  apply (@scan_loop_hits ACRONYM_RE (fun s => spaced s = true)).
  - exact spaced_tail.
  - intros ma prev s0 m rest HQ E.
    pose proof (match_at_sound _ _ _ _ E) as [-> _].
    destruct (match_at_ACRONYM_upper _ _ _ E) as [Hne Hup].
    destruct (@spaced_upper_prefix m rest HQ Hne Hup) as (c & -> & Hc).
    split; [|exact (spaced_app_r _ _ HQ)].
    unfold title_match, title. cbn [title_from app].
    rewrite title_full_fix by exact Hc. reflexivity.
  - exact Hs.
Qed.

Lemma firstn_prefix (a b : str) :
  firstn (length (a ++ b) - length b) (a ++ b) = a.
Proof.
  rewrite length_app, Nat.add_sub.
  rewrite <- (Nat.add_0_r (length a)), firstn_app_2.
  cbn [firstn]. apply app_nil_r.
Qed.

Lemma rmatch_star_lazy_first R r prev s
    (k : option char -> str -> option R) out :
  k prev s = Some out -> rmatch (Star false r) prev s k = Some out.
Proof.
  intros H. cbn [rmatch]. destruct (length s); cbn [star_loop];
    rewrite H; reflexivity.
Qed.

Lemma match_at_SPLIT_low ma prev c s :
  is_low c = true -> match_at SPLIT_RE ma prev (c :: s) = None.
Proof.
  intros Hc. unfold match_at.
  match goal with
  | |- match ?m with _ => _ end = None =>
      assert (E : m = None); [|rewrite E; reflexivity]
  end.
  unfold SPLIT_RE. rewrite rmatch_seq, rmatch_star_cls.
  cbn [greedy_run]. rewrite class_delims, (low_not_delim _ Hc).
  unfold Plus. rewrite !rmatch_seq, rmatch_cls, class_upper.
  rewrite (low_not_upper _ Hc). reflexivity.
Qed.

Lemma match_at_SPLIT_empty ma prev : match_at SPLIT_RE ma prev [] = None.
Proof. reflexivity. Qed.

(** At an uppercase letter [SPLIT_RE] takes the letter and the lowercase
    letters and digits that follow it. *)
Lemma match_at_SPLIT_word prev C t rest :
  is_AZ C = true -> forallb is_low t = true -> stops rest = true ->
  match_at SPLIT_RE false prev (C :: t ++ rest) = Some (C :: t, rest).
Proof.
  intros HC Ht Hrest. unfold match_at.
  match goal with
  | |- match ?m with _ => _ end = _ => assert (E : m = Some rest)
  end.
  { unfold SPLIT_RE. rewrite rmatch_seq, rmatch_star_cls.
    cbn [greedy_run]. rewrite class_delims, (upper_not_delim _ HC).
    unfold Plus. rewrite !rmatch_seq, rmatch_cls, class_upper, HC.
    apply rmatch_star_lazy_first.
    rewrite rmatch_seq, rmatch_star_cls.
    apply greedy_run_take.
    - exact (forallb_mono _ _ low_in_word_class _ Ht).
    - destruct rest as [|x rest]; [exact I|].
      apply upper_not_in_word_class. exact Hrest.
    - rewrite rmatch_star_cls.
      destruct rest as [|x rest]; [reflexivity|].
      cbn [greedy_run]. rewrite class_delims.
      rewrite (upper_not_delim _ Hrest). reflexivity. }
  rewrite E.
  change (C :: t ++ rest) with ((C :: t) ++ rest).
  rewrite firstn_prefix. reflexivity.
Qed.

Lemma capitalize_word w :
  is_word w = true ->
  exists c t, w = c :: t /\ is_az c = true /\ forallb is_low t = true
              /\ capitalize w = upper_char c :: t.
Proof.
  destruct w as [|c t]; [discriminate|]. cbn [is_word]. intros H.
  apply andb_prop in H as [Hc Ht]. exists c, t. auto.
Qed.

Lemma stops_capitalized ws :
  forallb is_word ws = true -> stops (concat (map capitalize ws)) = true.
Proof.
  destruct ws as [|w ws]; [reflexivity|]. cbn [forallb]. intros H.
  apply andb_prop in H as [Hw _].
  destruct (capitalize_word _ Hw) as (c & t & -> & Hc & _ & _).
  cbn. apply upper_of_lower_is_upper. exact Hc.
Qed.

(** The scan of [SPLIT_RE] on humps: the characters before the first hump,
    then one match for each hump. *)
Lemma scan_SPLIT_camel :
  forall n ws t prev,
    forallb is_low t = true -> forallb is_word ws = true ->
    scan_measure false (t ++ concat (map capitalize ws)) <= n ->
    scan_loop n SPLIT_RE false prev (t ++ concat (map capitalize ws))
    = map Lit t ++ map Hit (map capitalize ws).
Proof.
  induction n as [|n IH]; intros ws t prev Ht Hws Hn.
  - unfold scan_measure in Hn. lia.
  - cbn [scan_loop]. destruct t as [|c t].
    + destruct ws as [|w ws]; [reflexivity|].
      cbn [forallb] in Hws. apply andb_prop in Hws as [Hw Hws].
      destruct (capitalize_word _ Hw) as (c & tw & -> & Hc & Htw & Ecap).
      cbn [app map concat]. rewrite Ecap.
      change ((upper_char c :: tw) ++ concat (map capitalize ws))
        with (upper_char c :: tw ++ concat (map capitalize ws)).
      rewrite match_at_SPLIT_word;
        [| apply upper_of_lower_is_upper, Hc | exact Htw
         | apply stops_capitalized, Hws].
      cbn [is_empty]. f_equal.
      rewrite (IH ws [] _ eq_refl Hws); [reflexivity|].
      unfold scan_measure in *. cbn [app map concat length] in Hn.
      rewrite Ecap in Hn. cbn [app length] in Hn.
      rewrite length_app in Hn. cbn [app]. lia.
    + cbn [forallb] in Ht. apply andb_prop in Ht as [Hc Ht].
      cbn [app]. rewrite match_at_SPLIT_low by exact Hc.
      cbn [map app]. f_equal.
      apply IH; [exact Ht | exact Hws |].
      unfold scan_measure in *. cbn [app length] in Hn. lia.
Qed.

Lemma split_pieces_lits_then t ps :
  forall cur, split_pieces cur (map Lit t ++ ps) = split_pieces (rev t ++ cur) ps.
Proof.
  induction t as [|c t IH]; intros cur; [reflexivity|].
  cbn [map app split_pieces rev]. rewrite IH, <- app_assoc. reflexivity.
Qed.

Lemma filter_split_hits ms :
  forall cur,
    filter non_empty (split_pieces cur (map Hit ms))
    = filter non_empty (rev cur :: ms).
Proof.
  induction ms as [|m ms IH]; intros cur; [reflexivity|].
  cbn [map split_pieces filter]. rewrite (IH []). cbn [rev filter].
  reflexivity.
Qed.

Lemma capitalized_non_empty ws :
  forallb is_word ws = true ->
  filter non_empty (map capitalize ws) = map capitalize ws.
Proof.
  induction ws as [|w ws IH]; intros H; [reflexivity|].
  cbn [forallb] in H. apply andb_prop in H as [Hw H].
  destruct (capitalize_word _ Hw) as (c & t & -> & _ & _ & Ecap).
  cbn [map filter]. rewrite Ecap. cbn [non_empty is_empty negb].
  rewrite <- Ecap, (IH H). reflexivity.
Qed.

Lemma lower_humps ws :
  forallb is_word ws = true ->
  lower (concat (map (fun x => lit "_" ++ x) (map capitalize ws)))
  = concat (map (fun x => lit "_" ++ x) ws).
Proof.
  induction ws as [|w ws IH]; intros H; [reflexivity|].
  cbn [forallb] in H. apply andb_prop in H as [Hw H].
  destruct (capitalize_word _ Hw) as (c & t & -> & Hc & Ht & Ecap).
  cbn [map concat]. rewrite Ecap, !lower_app, (IH H).
  change (lower (lit "_")) with (lit "_").
  rewrite lower_cons, (lower_upper_lower _ Hc), (lower_low _ Ht). reflexivity.
Qed.

Lemma spaced_low_app t s :
  forallb is_low t = true -> spaced s = true -> spaced (t ++ s) = true.
Proof.
  induction t as [|a t IH]; intros Ht Hs; [exact Hs|].
  cbn [forallb] in Ht. apply andb_prop in Ht as [Ha Ht].
  specialize (IH Ht Hs). cbn [app].
  destruct (t ++ s) as [|b r] eqn:E; [reflexivity|].
  change (spaced (a :: b :: r))
    with (negb (is_AZ a && is_AZ b) && spaced (b :: r)).
  rewrite (low_not_upper _ Ha). cbn [andb negb]. exact IH.
Qed.

Lemma spaced_humps ws :
  forallb is_long_word ws = true ->
  spaced (concat (map capitalize ws)) = true.
Proof.
  induction ws as [|w ws IH]; intros H; [reflexivity|].
  cbn [forallb] in H. apply andb_prop in H as [Hw H].
  unfold is_long_word in Hw. apply andb_prop in Hw as [Hw Hlen].
  destruct (capitalize_word _ Hw) as (c & t & -> & Hc & Ht & Ecap).
  cbn [map concat]. rewrite Ecap.
  destruct t as [|x t]; [discriminate|].
  cbn [forallb] in Ht. apply andb_prop in Ht as [Hx Ht'].
  cbn [app].
  change (spaced (upper_char c :: x :: t ++ concat (map capitalize ws)))
    with (negb (is_AZ (upper_char c) && is_AZ x)
          && spaced ((x :: t) ++ concat (map capitalize ws))).
  rewrite (low_not_upper _ Hx), andb_false_r. cbn [negb andb].
  apply spaced_low_app; [|exact (IH H)].
  cbn [forallb]. rewrite Hx, Ht'. reflexivity.
Qed.

Lemma long_words_are_words ws :
  forallb is_long_word ws = true -> forallb is_word ws = true.
Proof.
  apply forallb_mono. intros w H. unfold is_long_word in H.
  apply andb_prop in H as [H _]. exact H.
Qed.

Lemma decamelize_camel w1 ws :
  is_word w1 = true -> forallb is_long_word ws = true ->
  decamelize (VStr (camel_of w1 ws)) = Ok (VStr (snake_of w1 ws)).
Proof.
  intros H1 Hlong. pose proof (long_words_are_words _ Hlong) as Hws.
  unfold camel_of, snake_of.
  rewrite decamelize_VStr, (word_not_early _ _ H1).
  assert (Hlow : forallb is_low w1 = true).
  { destruct w1 as [|c t]; [discriminate|]. cbn [is_word] in H1.
    apply andb_prop in H1 as [Hc Ht]. cbn [forallb].
    rewrite (lower_is_low _ Hc), Ht. reflexivity. }
  rewrite sub_ACRONYM_spaced
    by (apply spaced_low_app; [exact Hlow | apply spaced_humps, Hlong]).
  unfold Re.split, scan.
  rewrite scan_SPLIT_camel;
    [| exact Hlow | exact Hws | unfold scan_measure; lia].
  rewrite split_pieces_lits_then, filter_split_hits, app_nil_r, rev_involutive.
  cbn [filter]. destruct w1 as [|c t]; [discriminate|].
  cbn [non_empty is_empty negb].
  rewrite (capitalized_non_empty _ Hws), !join_cons, lower_app.
  rewrite (lower_low _ Hlow), (lower_humps _ Hws). reflexivity.
Qed.

(** X7.  Round trip from snake case.  For an identifier made of words
    joined by single underscores, each word a lowercase letter followed by
    lowercase letters and digits and each word after the first at least two
    characters long, [camelize] gives the words joined as humps and
    [decamelize] gives the identifier back. *)
Theorem X7_snake_round_trip (w1 : str) (ws : list str) :
  is_word w1 = true -> forallb is_long_word ws = true ->
  camelize (VStr (snake_of w1 ws)) = Ok (VStr (camel_of w1 ws))
  /\ decamelize (VStr (camel_of w1 ws)) = Ok (VStr (snake_of w1 ws)).
Proof.
  intros H1 Hws. split.
  - apply camelize_snake; [exact H1 | apply long_words_are_words, Hws].
  - apply decamelize_camel; assumption.
Qed.

Lemma X7_snake_round_trip_witness :
  camelize (VStr (snake_of (lit "get") [lit "http2"; lit "response"; lit "id"]))
  = Ok (VStr (camel_of (lit "get") [lit "http2"; lit "response"; lit "id"]))
  /\ decamelize
       (VStr (camel_of (lit "get") [lit "http2"; lit "response"; lit "id"]))
     = Ok (VStr (snake_of (lit "get")
                   [lit "http2"; lit "response"; lit "id"])).
Proof.
  apply (@X7_snake_round_trip (lit "get")
           [lit "http2"; lit "response"; lit "id"]); reflexivity.
Defined.

(* ================================================================== *)
(** ** [decamelize] on acronyms *)

Lemma upper_lower_is_lower c :
  is_AZ c = true -> is_az (lower_char c) = true.
Proof. all_chars c. Qed.

Lemma lower_not_ahead c :
  is_az c = true -> in_class false (upper_AZ ++ [CDigit]) c = false.
Proof. all_chars c. Qed.

Lemma upper_is_ahead c :
  is_AZ c = true -> in_class false (upper_AZ ++ [CDigit]) c = true.
Proof. all_chars c. Qed.

Lemma lower_not_newline c :
  is_az c = true -> Nat.eqb (code c) 10 = false.
Proof. all_chars c. Qed.

Lemma lower_of_uppers_low U :
  forallb is_AZ U = true -> forallb is_low (lower U) = true.
Proof.
  induction U as [|c U IH]; intros H; [reflexivity|].
  cbn [forallb] in H. apply andb_prop in H as [Hc H].
  rewrite lower_cons, (ascii_lower_full _ (AZ_ascii _ Hc)).
  cbn [app forallb]. rewrite (IH H), andb_true_r.
  apply lower_is_low, upper_lower_is_lower, Hc.
Qed.

Lemma AZ_cased c : is_AZ c = true -> is_cased_char c = true.
Proof. all_chars c. Qed.

Lemma title_of_AZ c :
  is_AZ c = true -> title_full c = [upper_char (lower_char c)].
Proof. all_chars c. Qed.

Lemma title_from_true_AZ U :
  forallb is_AZ U = true -> title_from true U = lower U.
Proof.
  induction U as [|c U IH]; intros H; [reflexivity|].
  cbn [forallb] in H. apply andb_prop in H as [Hc H].
  cbn [title_from]. rewrite (AZ_cased _ Hc), (IH H). reflexivity.
Qed.

Lemma title_uppers U :
  forallb is_AZ U = true ->
  title U = capitalize (lower U).
Proof.
  destruct U as [|c U]; [reflexivity|]. cbn [forallb]. intros H.
  apply andb_prop in H as [Hc H].
  unfold title. cbn [title_from].
  rewrite (AZ_cased _ Hc), (title_from_true_AZ _ H).
  rewrite lower_cons, (ascii_lower_full _ (AZ_ascii _ Hc)).
  rewrite (title_of_AZ _ Hc). reflexivity.
Qed.

(** [$] fails before a character that is not a newline. *)
Lemma eol_fails R prev b x r (k : option char -> str -> option R) :
  Nat.eqb (code x) 10 = false -> rmatch Eol prev (b ++ x :: r) k = None.
Proof.
  intros Hx. cbn [rmatch].
  destruct b as [|b0 [|b1 b]]; cbn [app].
  - destruct r; [rewrite Hx|]; reflexivity.
  - reflexivity.
  - reflexivity.
Qed.

Lemma greedy_run_fail p R prev pre rest
    (k : option char -> str -> option R) :
  match rest with c :: _ => p c = false | [] => True end ->
  (forall prev' b, k prev' (b ++ rest) = None) ->
  greedy_run p prev (pre ++ rest) k = None.
Proof.
  intros Hstop Hk. revert prev; induction pre as [|a pre IH]; intros prev.
  - cbn [app]. destruct rest as [|c rest]; [exact (Hk prev [])|].
    cbn [greedy_run]. rewrite Hstop. exact (Hk prev []).
  - pose proof (Hk prev (a :: pre)) as H0. cbn [app] in H0.
    cbn [app greedy_run]. rewrite IH, H0.
    destruct (p a); reflexivity.
Qed.

(** A greedy run that fails after its longest prefix and succeeds one
    character earlier. *)
Lemma greedy_run_back_one p R prev pre c rest
    (k : option char -> str -> option R) out :
  forallb p pre = true -> p c = true ->
  match rest with x :: _ => p x = false | [] => True end ->
  k (Some c) rest = None ->
  k (last_or prev pre) (c :: rest) = Some out ->
  greedy_run p prev (pre ++ c :: rest) k = Some out.
Proof.
  revert prev; induction pre as [|a pre IH]; intros prev Hp Hc Hstop Hlong Hk.
  - cbn [app greedy_run]. rewrite Hc.
    assert (E : greedy_run p (Some c) rest k = None).
    { destruct rest as [|x rest]; [exact Hlong|].
      cbn [greedy_run]. rewrite Hstop. exact Hlong. }
    rewrite E. exact Hk.
  - cbn [forallb] in Hp. apply andb_prop in Hp as [Ha Hp].
    cbn [app greedy_run]. rewrite Ha.
    rewrite (IH (Some a) Hp Hc Hstop Hlong); [reflexivity|].
    rewrite (last_or_cons prev) in Hk. exact Hk.
Qed.

Lemma match_at_ACRONYM_not_upper ma prev c s :
  is_AZ c = false -> match_at ACRONYM_RE ma prev (c :: s) = None.
Proof.
  intros Hc. unfold match_at, ACRONYM_RE.
  rewrite rmatch_alt, !rmatch_plus_cls, class_upper, Hc. reflexivity.
Qed.

(** An uppercase letter before a lowercase letter is no acronym. *)
Lemma match_at_ACRONYM_single ma prev C x t :
  is_AZ C = true -> is_az x = true ->
  match_at ACRONYM_RE ma prev (C :: x :: t) = None.
Proof.
  intros HC Hx. unfold match_at, ACRONYM_RE.
  rewrite rmatch_alt, !rmatch_plus_cls, class_upper, HC.
  cbn [greedy_run]. rewrite class_upper.
  assert (Hxu : is_AZ x = false).
  { destruct (is_AZ x) eqn:E; [|reflexivity].
    apply upper_not_lower in E. congruence. }
  rewrite Hxu.
  rewrite (eol_fails _ [] x t _ (lower_not_newline _ Hx)).
  cbn [orelse rmatch]. rewrite (lower_not_ahead _ Hx). reflexivity.
Qed.

(** A run of uppercase letters before a capitalized word: the acronym is
    the run without the capital of the word. *)
Lemma match_at_ACRONYM_before_word prev u U C x t :
  forallb is_AZ (u :: U) = true -> is_AZ C = true ->
  is_az x = true ->
  match_at ACRONYM_RE false prev ((u :: U) ++ C :: x :: t)
  = Some (u :: U, C :: x :: t).
Proof.
  intros HU HC Hx. cbn [forallb] in HU. apply andb_prop in HU as [Hu HU].
  assert (Hxu : is_AZ x = false).
  { destruct (is_AZ x) eqn:E; [|reflexivity].
    apply upper_not_lower in E. congruence. }
  unfold match_at.
  match goal with
  | |- match ?m with _ => _ end = _ => assert (E : m = Some (C :: x :: t))
  end.
  { unfold ACRONYM_RE. rewrite rmatch_alt, !rmatch_plus_cls.
    cbn [app]. rewrite class_upper, Hu.
    assert (E1 : greedy_run (in_class false upper_AZ) (Some u)
                   (U ++ C :: x :: t)
                   (fun p s'' =>
                      rmatch Eol p s''
                        (fun _ rest =>
                           if false && Nat.eqb (length rest)
                                         (length (u :: U ++ C :: x :: t))
                           then None else Some rest)) = None).
    { change (U ++ C :: x :: t) with (U ++ [C] ++ x :: t).
      rewrite app_assoc. apply greedy_run_fail.
      - rewrite class_upper. exact Hxu.
      - intros prev' b. apply eol_fails, lower_not_newline, Hx. }
    rewrite E1. cbn [orelse].
    apply greedy_run_back_one.
    - rewrite (forallb_pointwise _ _ U class_upper). exact HU.
    - rewrite class_upper. exact HC.
    - rewrite class_upper. exact Hxu.
    - cbn [rmatch]. rewrite (lower_not_ahead _ Hx). reflexivity.
    - cbn [rmatch]. rewrite (upper_is_ahead _ HC). reflexivity. }
  rewrite E. rewrite firstn_prefix. reflexivity.
Qed.

(** A run of uppercase letters at the end of the string is an acronym. *)
Lemma match_at_ACRONYM_at_end prev u U :
  forallb is_AZ (u :: U) = true ->
  match_at ACRONYM_RE false prev (u :: U) = Some (u :: U, []).
Proof.
  intros HU. cbn [forallb] in HU. apply andb_prop in HU as [Hu HU].
  unfold match_at.
  match goal with
  | |- match ?m with _ => _ end = _ => assert (E : m = Some [])
  end.
  { unfold ACRONYM_RE. rewrite rmatch_alt, !rmatch_plus_cls.
    rewrite class_upper, Hu.
    match goal with
    | |- orelse (greedy_run ?p ?pv U ?k) _ = _ =>
        pose proof (@greedy_run_take p _ pv U [] k []) as G
    end.
    rewrite app_nil_r in G. rewrite G; [reflexivity | | exact I | reflexivity].
    rewrite (forallb_pointwise _ _ U class_upper). exact HU. }
  rewrite E. change (length (@nil char)) with 0.
  rewrite Nat.sub_0_r, firstn_all. reflexivity.
Qed.

(** Characters at which the pattern cannot start are passed over. *)
Lemma scan_loop_lits r (q : char -> bool) :
  (forall ma prev c s, q c = true -> match_at r ma prev (c :: s) = None) ->
  forall t n m prev s,
    forallb q t = true ->
    scan_measure false (t ++ s) <= n -> scan_measure false s <= m ->
    scan_loop n r false prev (t ++ s)
    = map Lit t ++ scan_loop m r false (last_or prev t) s.
Proof.
  intros Hno. induction t as [|c t IH]; intros n m prev s Hq Hn Hm.
  - cbn [app map]. apply scan_loop_fuel; assumption.
  - cbn [forallb] in Hq. apply andb_prop in Hq as [Hc Hq].
    destruct n as [|n]; [unfold scan_measure in Hn; lia|].
    cbn [app scan_loop]. rewrite (Hno _ _ _ _ Hc). cbn [map app]. f_equal.
    rewrite (last_or_cons prev).
    apply IH; [exact Hq | | exact Hm].
    unfold scan_measure in *. cbn [app length] in Hn. lia.
Qed.

Lemma sub_pieces_lits_then repl t ps :
  sub_pieces repl (map Lit t ++ ps)
  = match sub_pieces repl ps with
    | Some out => Some (t ++ out)
    | None => None
    end.
Proof.
  induction t as [|c t IH]; cbn [map app sub_pieces].
  - destruct (sub_pieces repl ps); reflexivity.
  - rewrite IH. destruct (sub_pieces repl ps); reflexivity.
Qed.

Lemma not_upper_low t : forallb is_low t = true -> forallb not_upper t = true.
Proof.
  apply forallb_mono. intros a Ha. unfold not_upper.
  rewrite (low_not_upper _ Ha). reflexivity.
Qed.

Lemma ACRONYM_passes_low ma prev c s :
  not_upper c = true -> match_at ACRONYM_RE ma prev (c :: s) = None.
Proof.
  intros H. apply match_at_ACRONYM_not_upper.
  apply negb_true_iff. exact H.
Qed.

(** [ACRONYM_RE.sub] on lowercase text, an acronym and a capitalized
    word. *)
Lemma sub_ACRONYM_before_word t0 u U C x t :
  forallb is_low t0 = true -> forallb is_AZ (u :: U) = true ->
  is_AZ C = true -> is_az x = true ->
  forallb is_low t = true ->
  Re.sub ACRONYM_RE title_match (t0 ++ (u :: U) ++ C :: x :: t)
  = Some (t0 ++ title (u :: U) ++ C :: x :: t).
Proof.
  intros H0 HU HC Hx Ht. unfold Re.sub, scan.
  rewrite (@scan_loop_lits ACRONYM_RE not_upper ACRONYM_passes_low t0 _
             (S (S (scan_measure false ((u :: U) ++ C :: x :: t)))));
    [| apply not_upper_low, H0 | unfold scan_measure; lia | lia].
  rewrite sub_pieces_lits_then.
  cbn [scan_loop]. rewrite match_at_ACRONYM_before_word by assumption.
  cbn [is_empty sub_pieces title_match].
  rewrite match_at_ACRONYM_single by assumption. cbn [sub_pieces].
  rewrite (scan_loop_no_match ACRONYM_RE not_upper match_at_ACRONYM_none).
  - rewrite sub_pieces_lits. reflexivity.
  - cbn [forallb]. rewrite (not_upper_low _ Ht), andb_true_r.
    unfold not_upper. apply negb_true_iff.
    destruct (is_AZ x) eqn:E; [|reflexivity].
    apply upper_not_lower in E. congruence.
Qed.

(** [ACRONYM_RE.sub] on lowercase text that ends with an acronym. *)
Lemma sub_ACRONYM_at_end t0 u U :
  forallb is_low t0 = true -> forallb is_AZ (u :: U) = true ->
  Re.sub ACRONYM_RE title_match (t0 ++ u :: U)
  = Some (t0 ++ title (u :: U)).
Proof.
  intros H0 HU. unfold Re.sub, scan.
  rewrite (@scan_loop_lits ACRONYM_RE not_upper ACRONYM_passes_low t0 _
             (S (S (scan_measure false (u :: U)))));
    [| apply not_upper_low, H0 | unfold scan_measure; lia | lia].
  rewrite sub_pieces_lits_then.
  cbn [scan_loop]. rewrite match_at_ACRONYM_at_end by assumption.
  cbn [is_empty sub_pieces title_match].
  change (match_at ACRONYM_RE false (last_or (last_or None t0) (u :: U)) [])
    with (@None (str * str)).
  cbn [sub_pieces]. rewrite app_nil_r. reflexivity.
Qed.

Lemma lower_join sep parts :
  lower (join sep parts) = join (lower sep) (map lower parts).
Proof.
  induction parts as [|p [|q parts] IH]; [reflexivity | reflexivity |].
  change (join sep (p :: q :: parts)) with (p ++ sep ++ join sep (q :: parts)).
  rewrite !lower_app, IH. reflexivity.
Qed.

Lemma lower_capitalized ws :
  forallb is_word ws = true -> map lower (map capitalize ws) = ws.
Proof.
  induction ws as [|w ws IH]; intros H; [reflexivity|].
  cbn [forallb] in H. apply andb_prop in H as [Hw H].
  destruct (capitalize_word _ Hw) as (c & t & -> & Hc & Ht & Ecap).
  cbn [map]. rewrite Ecap, (IH H).
  rewrite lower_cons, (lower_upper_lower _ Hc), (lower_low _ Ht). reflexivity.
Qed.

Lemma words_non_empty ws :
  forallb is_word ws = true -> filter non_empty ws = ws.
Proof.
  induction ws as [|w ws IH]; intros H; [reflexivity|].
  cbn [forallb] in H. apply andb_prop in H as [Hw H].
  destruct w as [|c t]; [discriminate|].
  cbn [filter non_empty is_empty negb]. rewrite (IH H). reflexivity.
Qed.

(** The second half of [decamelize] on lowercase text followed by humps:
    the text and the words, joined by underscores. *)
Lemma split_humps t ws :
  forallb is_low t = true -> forallb is_word ws = true ->
  lower (join (lit "_")
           (filter non_empty
              (Re.split SPLIT_RE (t ++ concat (map capitalize ws)))))
  = join (lit "_") (filter non_empty (t :: ws)).
Proof.
  intros Ht Hws. unfold Re.split, scan.
  rewrite scan_SPLIT_camel; [| exact Ht | exact Hws | unfold scan_measure; lia].
  rewrite split_pieces_lits_then, filter_split_hits, app_nil_r, rev_involutive.
  rewrite lower_join. change (lower (lit "_")) with (lit "_"). f_equal.
  cbn [filter]. rewrite (capitalized_non_empty _ Hws), (words_non_empty _ Hws).
  destruct t as [|c t]; cbn [non_empty is_empty negb].
  - apply lower_capitalized, Hws.
  - cbn [map]. rewrite (lower_low _ Ht), (lower_capitalized _ Hws).
    reflexivity.
Qed.

Lemma lowercase_not_early x s :
  In x s -> is_az x = true -> isupper s || isnumeric s = false.
Proof.
  intros Hin Hx.
  assert (Hl : existsb (fun c => is_lower_char c || is_title_char c) s = true).
  { apply existsb_exists. exists x. rewrite (az_lower _ Hx). auto. }
  assert (Hd : forallb is_digit_char s = false).
  { destruct (forallb is_digit_char s) eqn:E; [|reflexivity].
    rewrite forallb_forall in E. specialize (E _ Hin).
    rewrite (az_not_digit _ Hx) in E. discriminate. }
  unfold isupper, isnumeric. rewrite Hl, Hd.
  cbn [negb]. rewrite !andb_false_r. reflexivity.
Qed.

Lemma acronym_word u U :
  forallb is_AZ (u :: U) = true -> is_word (lower (u :: U)) = true.
Proof.
  intros H. pose proof (lower_of_uppers_low _ H) as L.
  cbn [forallb] in H. apply andb_prop in H as [Hu _].
  rewrite lower_cons, (ascii_lower_full _ (AZ_ascii _ Hu)) in *.
  cbn [app is_word forallb] in *. apply andb_prop in L as [_ L].
  rewrite (upper_lower_is_lower _ Hu). exact L.
Qed.

Lemma upper_lower_AZ c : is_AZ c = true -> upper_char (lower_char c) = c.
Proof. all_chars c. Qed.

(** X8.  An acronym before a capitalized word.  For lowercase text, then a
    run of uppercase letters, then an uppercase letter followed by a
    lowercase letter and more lowercase letters and digits, [decamelize]
    returns the text (when there is some), the run lower-cased and the word
    lower-cased, joined by underscores: the acronym is one word, its
    letters are not spread out. *)
Theorem X8_decamelize_acronym_before_word
    (t0 : str) (u : char) (U : str) (C x : char) (t : str) :
  forallb is_low t0 = true -> forallb is_AZ (u :: U) = true ->
  is_AZ C = true -> is_az x = true ->
  forallb is_low t = true ->
  decamelize (VStr (t0 ++ (u :: U) ++ C :: x :: t))
  = Ok (VStr (join (lit "_")
                (filter non_empty
                   [t0; lower (u :: U); lower_char C :: x :: t]))).
Proof.
  intros H0 HU HC Hx Ht. rewrite decamelize_VStr.
  rewrite (@lowercase_not_early x) by
    (try exact Hx; apply in_or_app; right; apply in_or_app; right;
     right; left; reflexivity).
  rewrite sub_ACRONYM_before_word by assumption.
  assert (Hw2 : is_word (lower_char C :: x :: t) = true).
  { cbn [is_word forallb]. rewrite (upper_lower_is_lower _ HC).
    rewrite (lower_is_low _ Hx), Ht. reflexivity. }
  assert (E : title (u :: U) ++ C :: x :: t
              = concat (map capitalize
                          [lower (u :: U); lower_char C :: x :: t])).
  { cbn [map concat]. rewrite app_nil_r, (title_uppers _ HU).
    cbn [capitalize]. rewrite (upper_lower_AZ _ HC). reflexivity. }
  rewrite E, split_humps; [reflexivity | exact H0 |].
  cbn [forallb]. rewrite (@acronym_word u U HU), Hw2. reflexivity.
Qed.

Lemma X8_decamelize_acronym_before_word_witness :
  decamelize (VStr (lit "my" ++ (ch "H" :: lit "TTP")
                    ++ ch "S" :: ch "e" :: lit "rver2"))
  = Ok (VStr (join (lit "_")
                (filter non_empty
                   [lit "my"; lower (ch "H" :: lit "TTP");
                    lower_char (ch "S") :: ch "e" :: lit "rver2"]))).
Proof.
  apply (@X8_decamelize_acronym_before_word (lit "my") (ch "H") (lit "TTP")
           (ch "S") (ch "e") (lit "rver2")); reflexivity.
Defined.

(** X9.  An acronym at the end.  For a word (a lowercase letter, then
    lowercase letters and digits) followed by a run of uppercase letters
    that ends the string, [decamelize] returns the word, an underscore and
    the run lower-cased. *)
Theorem X9_decamelize_acronym_at_end (w1 : str) (u : char) (U : str) :
  is_word w1 = true -> forallb is_AZ (u :: U) = true ->
  decamelize (VStr (w1 ++ u :: U))
  = Ok (VStr (w1 ++ lit "_" ++ lower (u :: U))).
Proof.
  intros H1 HU. rewrite decamelize_VStr, (word_not_early _ _ H1).
  assert (Hlow : forallb is_low w1 = true).
  { destruct w1 as [|c t]; [discriminate|]. cbn [is_word] in H1.
    apply andb_prop in H1 as [Hc Ht]. cbn [forallb].
    rewrite (lower_is_low _ Hc), Ht. reflexivity. }
  rewrite sub_ACRONYM_at_end by assumption.
  assert (E : title (u :: U) = concat (map capitalize [lower (u :: U)])).
  { cbn [map concat]. rewrite app_nil_r. apply title_uppers, HU. }
  rewrite E, split_humps;
    [| exact Hlow | cbn [forallb]; rewrite (@acronym_word u U HU); reflexivity].
  destruct w1 as [|c t]; [discriminate|].
  cbn [forallb] in HU. apply andb_prop in HU as [Hu _].
  rewrite lower_cons, (ascii_lower_full _ (AZ_ascii _ Hu)). reflexivity.
Qed.

Lemma X9_decamelize_acronym_at_end_witness :
  decamelize (VStr (lit "get" ++ ch "H" :: lit "TTP"))
  = Ok (VStr (lit "get" ++ lit "_" ++ lower (ch "H" :: lit "TTP"))).
Proof.
  apply (@X9_decamelize_acronym_at_end (lit "get") (ch "H") (lit "TTP"));
    reflexivity.
Defined.

(* ================================================================== *)
(** ** The helpers built on the converters *)

Lemma ascii_cased_lower_char c :
  is_ascii c = true -> is_cased_char (lower_char c) = is_cased_char c.
Proof. all_chars c. Qed.

Lemma ascii_lower_lower_char c :
  is_ascii c = true -> lower_full (lower_char c) = [lower_char c].
Proof. all_chars c. Qed.

Lemma ascii_title_lower_char c :
  is_ascii c = true -> title_full (lower_char c) = title_full c.
Proof. all_chars c. Qed.

Lemma ascii_title_full_ascii c :
  is_ascii c = true -> ascii_only (title_full c) = true.
Proof. all_chars c. Qed.

Lemma lower_ascii_only s : ascii_only s = true -> lower s = map lower_char s.
Proof.
  induction s as [|c s IH]; intros H; [reflexivity|].
  cbn [ascii_only forallb] in H. apply andb_prop in H as [Hc H].
  rewrite lower_cons, (ascii_lower_full _ Hc), (IH H). reflexivity.
Qed.

Lemma title_from_lower b s :
  ascii_only s = true -> title_from b (map lower_char s) = title_from b s.
Proof.
  revert b; induction s as [|c s IH]; intros b H; [reflexivity|].
  cbn [ascii_only forallb] in H. apply andb_prop in H as [Hc H].
  cbn [map title_from].
  rewrite (ascii_cased_lower_char _ Hc), (IH _ H).
  destruct b.
  - rewrite (ascii_lower_lower_char _ Hc), (ascii_lower_full _ Hc).
    reflexivity.
  - rewrite (ascii_title_lower_char _ Hc). reflexivity.
Qed.

Lemma title_same_lower a b :
  ascii_only a = true -> ascii_only b = true ->
  lower a = lower b -> title a = title b.
Proof.
  intros Ha Hb H. unfold title.
  rewrite <- (title_from_lower false a Ha), <- (title_from_lower false b Hb).
  rewrite <- (lower_ascii_only a Ha), <- (lower_ascii_only b Hb), H.
  reflexivity.
Qed.

Lemma ascii_only_app a b : ascii_only (a ++ b) = ascii_only a && ascii_only b.
Proof. apply forallb_app. Qed.

Lemma ascii_title_from b s :
  ascii_only s = true -> ascii_only (title_from b s) = true.
Proof.
  revert b; induction s as [|c s IH]; intros b H; [reflexivity|].
  cbn [ascii_only forallb] in H. apply andb_prop in H as [Hc H].
  cbn [title_from]. rewrite ascii_only_app, (IH _ H), andb_true_r.
  destruct b.
  - rewrite (ascii_lower_full _ Hc). cbn [ascii_only forallb].
    rewrite (ascii_lower_char _ Hc). reflexivity.
  - apply ascii_title_full_ascii, Hc.
Qed.

Lemma no_delim_app a b : no_delim (a ++ b) = no_delim a && no_delim b.
Proof. apply forallb_app. Qed.

Lemma no_delim_lower_full c : no_delim (lower_full c) = negb (is_delim c).
Proof. all_chars c. Qed.

Lemma no_delim_title_full c : no_delim (title_full c) = negb (is_delim c).
Proof. all_chars c. Qed.

Lemma no_delim_title_from b s : no_delim (title_from b s) = no_delim s.
Proof.
  revert b; induction s as [|c s IH]; intros b; [reflexivity|].
  cbn [title_from]. rewrite no_delim_app, IH.
  cbn [no_delim forallb]. fold (no_delim s).
  destruct b; [rewrite no_delim_lower_full | rewrite no_delim_title_full];
    reflexivity.
Qed.

Lemma no_delim_rev s : no_delim (rev s) = no_delim s.
Proof.
  induction s as [|c s IH]; [reflexivity|].
  cbn [rev]. rewrite no_delim_app, IH. cbn [no_delim forallb].
  rewrite andb_true_r. apply andb_comm.
Qed.

Lemma ascii_only_rev s : ascii_only (rev s) = ascii_only s.
Proof.
  induction s as [|c s IH]; [reflexivity|].
  cbn [rev]. rewrite ascii_only_app, IH. cbn [ascii_only forallb].
  rewrite andb_true_r. apply andb_comm.
Qed.

(** The pieces of a name split at its underscores have no delimiter and are
    ASCII. *)
Lemma split_on_no_delim s :
  forall cur, forallb name_char s = true -> no_delim cur = true ->
              forallb no_delim (split_on (ch "_") cur s) = true.
Proof.
  induction s as [|c s IH]; intros cur Hs Hcur; cbn [split_on forallb].
  - rewrite no_delim_rev, Hcur. reflexivity.
  - cbn [forallb] in Hs. apply andb_prop in Hs as [Hc Hs].
    destruct (Nat.eqb (code c) (code (ch "_"))) eqn:E.
    + cbn [forallb]. rewrite no_delim_rev, Hcur. exact (IH [] Hs eq_refl).
    + apply IH; [exact Hs|]. cbn [no_delim forallb]. fold (no_delim cur).
      unfold name_char in Hc. apply andb_prop in Hc as [_ Hc].
      rewrite E, orb_false_r in Hc.
      rewrite Hc, Hcur. reflexivity.
Qed.

Lemma split_on_ascii s :
  forall cur, forallb name_char s = true -> ascii_only cur = true ->
              forallb ascii_only (split_on (ch "_") cur s) = true.
Proof.
  induction s as [|c s IH]; intros cur Hs Hcur; cbn [split_on forallb].
  - rewrite ascii_only_rev, Hcur. reflexivity.
  - cbn [forallb] in Hs. apply andb_prop in Hs as [Hc Hs].
    destruct (Nat.eqb (code c) (code (ch "_"))) eqn:E.
    + cbn [forallb]. rewrite ascii_only_rev, Hcur. exact (IH [] Hs eq_refl).
    + apply IH; [exact Hs|]. cbn [ascii_only forallb]. fold (ascii_only cur).
      unfold name_char in Hc. apply andb_prop in Hc as [Hc _].
      rewrite Hc, Hcur. reflexivity.
Qed.

Lemma no_delim_concat parts :
  forallb no_delim parts = true -> no_delim (concat parts) = true.
Proof.
  induction parts as [|p parts IH]; intros H; [reflexivity|].
  cbn [forallb] in H. apply andb_prop in H as [Hp H].
  cbn [concat]. rewrite no_delim_app, Hp, (IH H). reflexivity.
Qed.

Lemma ascii_concat parts :
  forallb ascii_only parts = true -> ascii_only (concat parts) = true.
Proof.
  induction parts as [|p parts IH]; intros H; [reflexivity|].
  cbn [forallb] in H. apply andb_prop in H as [Hp H].
  cbn [concat]. rewrite ascii_only_app, Hp, (IH H). reflexivity.
Qed.

Lemma lower_concat_titles parts :
  forallb ascii_only parts = true ->
  lower (concat (map title parts)) = lower (concat parts).
Proof.
  induction parts as [|p parts IH]; intros H; [reflexivity|].
  cbn [forallb] in H. apply andb_prop in H as [Hp H].
  cbn [map concat]. rewrite !lower_app, (IH H).
  unfold title. rewrite (lower_title_from false p Hp). reflexivity.
Qed.

Lemma no_delim_titles parts :
  forallb no_delim parts = true -> forallb no_delim (map title parts) = true.
Proof.
  induction parts as [|p parts IH]; intros H; [reflexivity|].
  cbn [forallb] in H. apply andb_prop in H as [Hp H].
  cbn [map forallb]. unfold title at 1.
  rewrite no_delim_title_from, Hp, (IH H). reflexivity.
Qed.

Lemma ascii_titles parts :
  forallb ascii_only parts = true ->
  forallb ascii_only (map title parts) = true.
Proof.
  induction parts as [|p parts IH]; intros H; [reflexivity|].
  cbn [forallb] in H. apply andb_prop in H as [Hp H].
  cbn [map forallb]. unfold title at 1.
  rewrite (ascii_title_from false p Hp), (IH H). reflexivity.
Qed.

Lemma lower_camel_prepare s : lower (camel_prepare s) = lower s.
Proof.
  unfold camel_prepare. split_if; [|reflexivity].
  destruct s as [|c s]; [reflexivity|].
  rewrite lower_first_cons, lower_app, lower_lower_full. reflexivity.
Qed.

Lemma no_delim_camel_prepare s : no_delim (camel_prepare s) = no_delim s.
Proof.
  unfold camel_prepare. split_if; [|reflexivity].
  destruct s as [|c s]; [reflexivity|].
  rewrite lower_first_cons, no_delim_app, no_delim_lower_full. reflexivity.
Qed.

(** On a string without delimiters [camelize] changes at most the case of
    the first character. *)
Lemma camelize_no_delim s :
  no_delim s = true -> ascii_only s = true ->
  exists r, camelize (VStr s) = Ok (VStr r)
            /\ lower r = lower s /\ ascii_only r = true.
Proof.
  intros H Ha. rewrite camelize_VStr. split_if.
  - exists s. auto.
  - exists (camel_prepare s).
    split; [|split; [apply lower_camel_prepare | apply ascii_camel_prepare, Ha]].
    assert (Hp : no_delim (camel_prepare s) = true)
      by (rewrite no_delim_camel_prepare; exact H).
    pose proof (@camel_head_fixed [] (camel_prepare s) [] eq_refl Hp eq_refl)
      as F.
    cbn [app] in F. rewrite app_nil_r in F. rewrite F. reflexivity.
Qed.

(** X10.  [react_function] for a caller whose name is written in ASCII,
    with no hyphen and no whitespace, split at its underscores into a
    first piece [action] and the pieces [hook]: the result is ["React."],
    [action], then the pieces of [hook] put together and title-cased as one
    string, then ["()"].  The title-casing of each piece and the call of
    [camelize] leave no trace: an uppercase letter stays only at the start
    and after characters that are not letters. *)
Theorem X10_react_function (caller action : str) (hook : list str) :
  forallb name_char caller = true ->
  split_on (ch "_") [] caller = action :: hook ->
  react_function caller
  = inr (lit "React." ++ action ++ title (concat hook) ++ lit "()").
Proof.
  intros Hname Hsplit. unfold react_function. rewrite Hsplit.
  pose proof (split_on_no_delim caller [] Hname eq_refl) as Hnd.
  pose proof (split_on_ascii caller [] Hname eq_refl) as Has.
  rewrite Hsplit in Hnd, Has. cbn [forallb] in Hnd, Has.
  apply andb_prop in Hnd as [_ Hnd]. apply andb_prop in Has as [_ Has].
  set (hook' := if 1 <? length hook then map title hook else hook).
  assert (Hnd' : no_delim (concat hook') = true).
  { apply no_delim_concat. unfold hook'.
    destruct (1 <? length hook); [apply no_delim_titles|]; exact Hnd. }
  assert (Has' : ascii_only (concat hook') = true).
  { apply ascii_concat. unfold hook'.
    destruct (1 <? length hook); [apply ascii_titles|]; exact Has. }
  assert (Hlow : lower (concat hook') = lower (concat hook)).
  { unfold hook'. destruct (1 <? length hook);
      [apply lower_concat_titles, Has | reflexivity]. }
  destruct (camelize_no_delim _ Hnd' Has') as (r & -> & Hr & Hra).
  rewrite (title_same_lower r (concat hook));
    [reflexivity | exact Hra | apply ascii_concat, Has |].
  rewrite Hr. exact Hlow.
Qed.

Lemma X10_react_function_witness :
  react_function (lit "use_state_hook")
  = inr (lit "React." ++ lit "use"
         ++ title (concat [lit "state"; lit "hook"]) ++ lit "()").
Proof.
  apply (@X10_react_function (lit "use_state_hook") (lit "use")
           [lit "state"; lit "hook"]); reflexivity.
Defined.

Lemma title_from_empty b s : title_from b s = [] -> s = [].
Proof.
  destruct s as [|c s]; [reflexivity|]. cbn [title_from]. intros H.
  apply app_eq_nil in H as [H _].
  destruct b; [destruct (lower_full_not_nil _ H) | destruct c; discriminate].
Qed.

(** X11.  [class_declaration] never changes the class name: the name is
    used as it is given, only the React type is title-cased. *)
Theorem X11_class_declaration_keeps_name (name react_type : str) :
  class_declaration name react_type
  = lit "export class " ++ name ++ lit " extends React." ++ title react_type.
Proof.
  unfold class_declaration.
  destruct (title name) as [|c t] eqn:E; cbn [is_empty]; [|reflexivity].
  apply title_from_empty in E. subst name. reflexivity.
Qed.

(** X12.  [add_class_state] and [add_class_props] on a string: for the
    empty string the result is ['this.state'] or ['this.props'], with no
    dot at the end; for any other string the result is that followed by a
    dot and the string. *)
Theorem X12_class_state_and_props (s : str) :
  add_class_state (VStr s)
  = Ok (if is_empty s then lit "this.state" else lit "this.state." ++ s)
  /\ add_class_props (VStr s)
     = Ok (if is_empty s then lit "this.props" else lit "this.props." ++ s).
Proof. destruct s; split; reflexivity. Qed.

Lemma join_length sep parts :
  length (concat parts) <= length (join sep parts).
Proof.
  induction parts as [|p [|q parts] IH]; [reflexivity | |].
  - cbn [join concat]. rewrite app_nil_r. reflexivity.
  - change (join sep (p :: q :: parts)) with (p ++ sep ++ join sep (q :: parts)).
    change (concat (p :: q :: parts)) with (p ++ concat (q :: parts)).
    rewrite !length_app. lia.
Qed.

Lemma lower_length s : length s <= length (lower s).
Proof.
  induction s as [|c s IH]; [reflexivity|].
  rewrite lower_cons, length_app. pose proof (lower_full_length c).
  cbn [length]. lia.
Qed.

Lemma lower_AZ_length U :
  forallb is_AZ U = true -> length (lower U) = length U.
Proof.
  induction U as [|c U IH]; intros H; [reflexivity|].
  cbn [forallb] in H. apply andb_prop in H as [Hc H].
  rewrite lower_cons, (ascii_lower_full _ (AZ_ascii _ Hc)).
  cbn [app length]. rewrite (IH H). reflexivity.
Qed.

Lemma title_AZ_length U :
  forallb is_AZ U = true -> length (title U) = length U.
Proof.
  intros H. rewrite (title_uppers _ H).
  rewrite <- (lower_AZ_length _ H). destruct (lower U); reflexivity.
Qed.

(** The matches of [ACRONYM_RE.sub] keep their length. *)
Lemma sub_title_length ps out :
  hits_are (fun m => forallb is_AZ m = true) ps ->
  sub_pieces title_match ps = Some out -> length out = length (spelled ps).
Proof.
  unfold hits_are. intros H. revert out.
  induction H as [|[c|m] ps Hp _ IH]; intros out E; cbn [sub_pieces] in E.
  - injection E as <-. reflexivity.
  - destruct (sub_pieces title_match ps) as [out'|]; [|discriminate].
    injection E as <-. cbn [spelled flat_map app length]. fold (spelled ps).
    rewrite (IH _ eq_refl). reflexivity.
  - cbn [title_match] in E.
    destruct (sub_pieces title_match ps) as [out'|]; [|discriminate].
    injection E as <-. cbn [spelled flat_map]. fold (spelled ps).
    rewrite !length_app, (IH _ eq_refl), (title_AZ_length _ Hp). reflexivity.
Qed.

(** X13.  [decamelize] never makes a string shorter: it adds underscores
    and removes nothing. *)
Theorem X13_decamelize_length (s : str) :
  exists r, decamelize (VStr s) = Ok (VStr r) /\ length s <= length r.
Proof.
  rewrite decamelize_VStr. split_if.
  - exists s. split; [reflexivity | lia].
  - destruct (sub_ACRONYM_total s) as [fixed_abbr E]. rewrite E.
    eexists. split; [reflexivity|].
    eapply Nat.le_trans; [|apply lower_length].
    eapply Nat.le_trans; [|apply join_length].
    rewrite concat_non_empty. unfold Re.split.
    rewrite split_pieces_concat, scan_spelled. cbn [rev app].
    unfold Re.sub in E.
    apply (sub_title_length (scan_ACRONYM_AZ s)) in E.
    rewrite scan_spelled in E. lia.
Qed.

(** The cases of [tests/test_react_utils.py] and of
    [tests/test_vanilla_utils.py] for the helpers. *)
Example react_function_use_state :
  react_function (lit "use_state") = inr (lit "React.useState()").
Proof. vm_compute. reflexivity. Qed.

Example react_function_use_effect :
  react_function (lit "use_effect") = inr (lit "React.useEffect()").
Proof. vm_compute. reflexivity. Qed.

Example class_declaration_component :
  class_declaration (lit "MyComponent") (lit "component")
  = lit "export class MyComponent extends React.Component".
Proof. vm_compute. reflexivity. Qed.

Example add_this_empty : add_this (VStr []) = Ok (lit "this.").
Proof. reflexivity. Qed.

Example add_class_props_name :
  add_class_props (VStr (lit "name")) = Ok (lit "this.props.name").
Proof. reflexivity. Qed.
